(** * Productivity Tracker: persistence and export engine

    A shallow embedding of the non-UI logic of [main.cpp]: the event log
    ([dailyLogs] and [daily_logs.txt]), the task store ([tasks] and
    [tasks.txt]), the break tracker, the export generators and Clear-All.

    Conventions of the embedding.
    - [std::string] is a list of bytes, [str]; [size_t] positions are [nat]
      and [npos] is [None].
    - [time_t] is [Z] (seconds since the epoch).  Every operation receives the
      value [now] that [time(nullptr)] returns while it runs.
    - The mutable globals and the data directory form a [World]; what the
      program cannot decide itself (environment variables, whether a
      directory or a file can be opened, the time zone) is an [Env].
    - The local time zone is a fixed offset [tz] from UTC, in seconds. *)

From Stdlib Require Import ZArith List Ascii String Bool Lia.
Import ListNotations.
Open Scope Z_scope.

Definition str := list ascii.

(** A C++ string literal. *)
Definition lit (s : string) : str := list_ascii_of_string s.

Definition NL : ascii := "010"%char.
Definition NUL : ascii := "000"%char.
Definition TAB : ascii := "009"%char.
Definition CR : ascii := "013"%char.
Definition DQUOTE : ascii := "034"%char.
Definition BACKSLASH : ascii := "092"%char.

(** ** std::string operations *)

Module Str.

Fixpoint eqb (a b : str) : bool :=
  match a, b with
  | [], [] => true
  | x :: a', y :: b' => Ascii.eqb x y && eqb a' b'
  | _, _ => false
  end.

Fixpoint starts_with (pat s : str) : bool :=
  match pat, s with
  | [], _ => true
  | _ :: _, [] => false
  | p :: pat', c :: s' => Ascii.eqb p c && starts_with pat' s'
  end.

(** [s.find(pat)]: position of the first occurrence. *)
Fixpoint find (pat s : str) : option nat :=
  if starts_with pat s then Some 0%nat
  else match s with
       | [] => None
       | _ :: s' => option_map S (find pat s')
       end.

(** [s.find(pat, pos)]. *)
Definition find_from (pat s : str) (pos : nat) : option nat :=
  if (List.length s <? pos)%nat then None
  else option_map (Nat.add pos) (find pat (skipn pos s)).

(** [s.rfind(pat)]: position of the last occurrence. *)
Fixpoint rfind (pat s : str) : option nat :=
  match s with
  | [] => if starts_with pat [] then Some 0%nat else None
  | _ :: s' =>
      match rfind pat s' with
      | Some i => Some (S i)
      | None => if starts_with pat s then Some 0%nat else None
      end
  end.

(** [s.substr(pos)] and [s.substr(pos, n)]; every call site of the program
    has [pos <= s.size()], so the out-of-range exception never fires. *)
Definition substr_from (s : str) (pos : nat) : str := skipn pos s.
Definition substr (s : str) (pos n : nat) : str := firstn n (skipn pos s).

Definition mem (c : ascii) (set : str) : bool := existsb (Ascii.eqb c) set.

(** [s.find_first_not_of(set)]. *)
Fixpoint find_first_not_of (set s : str) : option nat :=
  match s with
  | [] => None
  | c :: s' =>
      if mem c set then option_map S (find_first_not_of set s')
      else Some 0%nat
  end.

Fixpoint drop_while (p : ascii -> bool) (s : str) : str :=
  match s with
  | [] => []
  | c :: s' => if p c then drop_while p s' else s
  end.

(** [while (!s.empty() && p(s.back())) s.pop_back();] *)
Definition pop_back_while (p : ascii -> bool) (s : str) : str :=
  rev (drop_while p (rev s)).

(** The bytes a [const char*] obtained from [s.c_str()] denotes: those before
    the first NUL. *)
Fixpoint c_str (s : str) : str :=
  match s with
  | [] => []
  | c :: s' => if Ascii.eqb c NUL then [] else c :: c_str s'
  end.

(** Repeated [std::getline(f, line)] over the content of a file; [cur] is the
    line being read, reversed. *)
Fixpoint getlines_from (cur : str) (s : str) : list str :=
  match s with
  | [] => match cur with [] => [] | _ => [rev cur] end
  | c :: s' =>
      if Ascii.eqb c NL then rev cur :: getlines_from [] s'
      else getlines_from (c :: cur) s'
  end.

Definition getlines (s : str) : list str := getlines_from [] s.

End Str.

(** ** The C and C++ library functions the program calls *)

Module Libc.

(** [isspace] in the C locale. *)
Definition isspace (c : ascii) : bool :=
  let n := nat_of_ascii c in
  ((9 <=? n) && (n <=? 13) || (n =? 32))%nat.

Definition digit_char (d : Z) : ascii := ascii_of_nat (48 + Z.to_nat d).

Definition digit_val (c : ascii) : option Z :=
  let n := Z.of_nat (nat_of_ascii c) in
  if (48 <=? n) && (n <=? 57) then Some (n - 48) else None.

(** Decimal digits of [n >= 0], most significant first, pushed before [acc]. *)
Fixpoint dec_digits (fuel : nat) (n : Z) (acc : str) : str :=
  match fuel with
  | O => acc
  | S f =>
      let acc' := digit_char (n mod 10) :: acc in
      if n / 10 =? 0 then acc' else dec_digits f (n / 10) acc'
  end.

Definition dec_fuel (n : Z) : nat := S (Z.to_nat (Z.log2 n)).

Definition dec_of_nonneg (n : Z) : str := dec_digits (dec_fuel n) n [].

(** [os << n] for an integer. *)
Definition dec_of_Z (n : Z) : str :=
  if n <? 0 then "-"%char :: dec_of_nonneg (- n) else dec_of_nonneg n.

Definition INT_MIN : Z := - 2147483648.
Definition INT_MAX : Z := 2147483647.

(** Longest prefix of digits of [s], as a number continuing [acc]. *)
Fixpoint read_digits (s : str) (acc : Z) : Z * str :=
  match s with
  | [] => (acc, [])
  | c :: s' =>
      match digit_val c with
      | Some d => read_digits s' (acc * 10 + d)
      | None => (acc, s)
      end
  end.

Definition read_sign (s : str) : bool * str :=
  match s with
  | c :: r =>
      if Ascii.eqb c "-" then (true, r)
      else if Ascii.eqb c "+" then (false, r)
      else (false, s)
  | [] => (false, s)
  end.

(** [std::stoi(s)]; [None] when it throws ([invalid_argument] without a
    digit, [out_of_range] outside [int]). *)
Definition stoi (s : str) : option Z :=
  let '(neg, s2) := read_sign (Str.drop_while isspace s) in
  match s2 with
  | [] => None
  | c :: _ =>
      match digit_val c with
      | None => None
      | Some _ =>
          let v := fst (read_digits s2 0) in
          let v' := if neg then - v else v in
          if (INT_MIN <=? v') && (v' <=? INT_MAX) then Some v' else None
      end
  end.

(** *** Calendar time *)

Record tm := mk_tm {
  tm_year : Z;   (* years since 1900 *)
  tm_mon : Z;    (* 0..11 *)
  tm_mday : Z;   (* 1..31 *)
  tm_hour : Z;
  tm_min : Z;
  tm_sec : Z
}.

(** Days since 1970-01-01 of a date of the proleptic Gregorian calendar. *)
Definition days_from_civil (y m d : Z) : Z :=
  let y' := if m <=? 2 then y - 1 else y in
  let era := y' / 400 in
  let yoe := y' - era * 400 in
  let mp := if 2 <? m then m - 3 else m + 9 in
  let doy := (153 * mp + 2) / 5 + d - 1 in
  let doe := yoe * 365 + yoe / 4 - yoe / 100 + doy in
  era * 146097 + doe - 719468.

Definition civil_of_doe (era doe : Z) : Z * Z * Z :=
  let yoe := (doe - doe / 1460 + doe / 36524 - doe / 146096) / 365 in
  let doy := doe - (365 * yoe + yoe / 4 - yoe / 100) in
  let mp := (5 * doy + 2) / 153 in
  let d := doy - (153 * mp + 2) / 5 + 1 in
  let m := if mp <? 10 then mp + 3 else mp - 9 in
  let y := yoe + era * 400 in
  (if m <=? 2 then y + 1 else y, m, d).

Definition civil_from_days (z : Z) : Z * Z * Z :=
  let z' := z + 719468 in
  civil_of_doe (z' / 146097) (z' mod 146097).

Definition gmtime_r (t : Z) : tm :=
  let '(y, m, d) := civil_from_days (t / 86400) in
  let r := t mod 86400 in
  mk_tm (y - 1900) (m - 1) d (r / 3600) (r mod 3600 / 60) (r mod 60).

Definition localtime_r (tz : Z) (t : Z) : tm := gmtime_r (t + tz).

(** [mktime] with [tm_isdst = -1]: fields out of range are normalised. *)
Definition mktime (tz : Z) (b : tm) : Z :=
  let y := tm_year b + 1900 + tm_mon b / 12 in
  let m := tm_mon b mod 12 + 1 in
  (days_from_civil y m 1 + (tm_mday b - 1)) * 86400
  + tm_hour b * 3600 + tm_min b * 60 + tm_sec b - tz.

(** A [strftime] field printed with at least [w] digits, zero padded. *)
Definition zero_pad (w : nat) (s : str) : str :=
  repeat "0"%char (w - List.length s) ++ s.

Definition pad_num (w : nat) (n : Z) : str :=
  if n <? 0 then "-"%char :: zero_pad w (dec_of_nonneg (- n))
  else zero_pad w (dec_of_nonneg n).

(** [strftime(buf, n, "%Y-%m-%d %H:%M:%S", &b)] *)
Definition strftime_local (b : tm) : str :=
  pad_num 4 (tm_year b + 1900) ++ lit "-" ++ pad_num 2 (tm_mon b + 1)
  ++ lit "-" ++ pad_num 2 (tm_mday b) ++ lit " " ++ pad_num 2 (tm_hour b)
  ++ lit ":" ++ pad_num 2 (tm_min b) ++ lit ":" ++ pad_num 2 (tm_sec b).

(** [strftime(buf, n, "%Y-%m-%dT%H:%M:%SZ", &b)] *)
Definition strftime_iso (b : tm) : str :=
  pad_num 4 (tm_year b + 1900) ++ lit "-" ++ pad_num 2 (tm_mon b + 1)
  ++ lit "-" ++ pad_num 2 (tm_mday b) ++ lit "T" ++ pad_num 2 (tm_hour b)
  ++ lit ":" ++ pad_num 2 (tm_min b) ++ lit ":" ++ pad_num 2 (tm_sec b)
  ++ lit "Z".

(** [strftime(ts, n, "%Y%m%d_%H%M%S", &b)] *)
Definition strftime_compact (b : tm) : str :=
  pad_num 4 (tm_year b + 1900) ++ pad_num 2 (tm_mon b + 1)
  ++ pad_num 2 (tm_mday b) ++ lit "_" ++ pad_num 2 (tm_hour b)
  ++ pad_num 2 (tm_min b) ++ pad_num 2 (tm_sec b).

(** At most [w] digits of [s]: value, number of digits read, rest. *)
Fixpoint scan_digits (w : nat) (s : str) (acc : Z) (n : nat)
  : Z * nat * str :=
  match w, s with
  | S w', c :: s' =>
      match digit_val c with
      | Some d => scan_digits w' s' (acc * 10 + d) (S n)
      | None => (acc, n, s)
      end
  | _, _ => (acc, n, s)
  end.

Definition has_sign (s : str) : bool :=
  match s with
  | c :: _ => Ascii.eqb c "-" || Ascii.eqb c "+"
  | [] => false
  end.

(** The conversion [%<w>d] of [sscanf]: white space is skipped, a sign counts
    in the width, and at least one digit is needed. *)
Definition scan_d (w : nat) (s : str) : option (Z * str) :=
  let s0 := Str.drop_while isspace s in
  let '(neg, s1) := read_sign s0 in
  let w1 := if has_sign s0 then Nat.pred w else w in
  match scan_digits w1 s1 0 0 with
  | (_, O, _) => None
  | (v, _, r) => Some (if neg then - v else v, r)
  end.

(** An ordinary character of a [sscanf] format. *)
Definition expect (c : ascii) (s : str) : option str :=
  match s with
  | x :: r => if Ascii.eqb x c then Some r else None
  | [] => None
  end.

Definition bind {A B} (o : option A) (k : A -> option B) : option B :=
  match o with Some a => k a | None => None end.

(** [sscanf(s, "%4d-%2d-%2d %2d:%2d:%2d", ...) == 6], with the six values.
    The blank of the format matches any white space, which the following
    [%2d] skips anyway. *)
Definition sscanf_timestamp (s : str) : option (Z * Z * Z * Z * Z * Z) :=
  bind (scan_d 4 s) (fun '(y, s) =>
  bind (expect "-" s) (fun s =>
  bind (scan_d 2 s) (fun '(m, s) =>
  bind (expect "-" s) (fun s =>
  bind (scan_d 2 s) (fun '(d, s) =>
  bind (scan_d 2 (Str.drop_while isspace s)) (fun '(hh, s) =>
  bind (expect ":" s) (fun s =>
  bind (scan_d 2 s) (fun '(mm, s) =>
  bind (expect ":" s) (fun s =>
  bind (scan_d 2 s) (fun '(ss, _) =>
  Some (y, m, d, hh, mm, ss))))))))))).

End Libc.

(** ** The program *)

Import Libc.

Record DailyLog := mkLog {
  log_ts : Z;
  log_type : str;   (* "HOURLY", "DAILY_STATUS", "WEEKLY_STATUS", ... *)
  log_text : str
}.

(** [end = 0] is an entry that is still open. *)
Record BreakEntry := mkBreak {
  brk_type : str;
  brk_start : Z;
  brk_end : Z
}.

(** [parent = -1] is a root. *)
Record Task := mkTask {
  task_name : str;
  task_parent : Z;
  task_done : bool
}.

Definition FileSystem := str -> option str.

Definition fs_write (p content : str) (fs : FileSystem) : FileSystem :=
  fun q => if Str.eqb q p then Some content else fs q.

Definition fs_content (fs : FileSystem) (p : str) : str :=
  match fs p with Some c => c | None => [] end.

Record World := mkWorld {
  dailyLogs : list DailyLog;
  breaks : list BreakEntry;
  tasks : list Task;
  files : FileSystem
}.

Record Env := mkEnv {
  env_HOME : option str;         (* getenv("HOME") *)
  env_dir_ok : str -> bool;      (* the directory exists or mkdir makes it *)
  env_can_write : str -> bool;   (* an ofstream on this path opens *)
  env_tz : Z                     (* local time = UTC + env_tz seconds *)
}.

Definition set_logs (w : World) (l : list DailyLog) : World :=
  mkWorld l (breaks w) (tasks w) (files w).
Definition set_breaks (w : World) (b : list BreakEntry) : World :=
  mkWorld (dailyLogs w) b (tasks w) (files w).
Definition set_tasks (w : World) (t : list Task) : World :=
  mkWorld (dailyLogs w) (breaks w) t (files w).
Definition set_files (w : World) (fs : FileSystem) : World :=
  mkWorld (dailyLogs w) (breaks w) (tasks w) fs.

Definition is_empty {A} (l : list A) : bool :=
  match l with [] => true | _ => false end.

Definition DATA_DIR_NAME : str := lit ".productivity_tracker".

Definition kBreakTypes : list str :=
  [lit "Coffee"; lit "Bathroom"; lit "Water"; lit "Lunch"; lit "Stretch"].

Definition SEP : str := lit " - ".
Definition HOURLY : str := lit "HOURLY".

Section Program.

Variable env : Env.

(** *** File and time helpers *)

Definition user_data_dir : str :=
  match env_HOME env with
  | None => lit "."
  | Some home => home ++ lit "/" ++ DATA_DIR_NAME
  end.

Definition ensure_dir_exists (dir : str) : bool := env_dir_ok env dir.

Definition path_in_data (filename : str) : str :=
  let dir := user_data_dir in
  if negb (ensure_dir_exists dir) then filename
  else dir ++ lit "/" ++ filename.

Definition format_time_local (t : Z) : str :=
  if t =? 0 then lit "(n/a)"
  else strftime_local (localtime_r (env_tz env) t).

Definition format_iso_time (t : Z) : str :=
  if t =? 0 then [] else strftime_iso (gmtime_r t).

Definition parse_timestamp (now : Z) (s : str) : Z :=
  match sscanf_timestamp s with
  | Some (y, m, d, hh, mm, ss) =>
      let t := mktime (env_tz env) (mk_tm (y - 1900) (m - 1) d hh mm ss) in
      if negb (t =? -1) then t else now
  | None => now
  end.

Definition human_log_line (now : Z) (type text : str) (ts : Z) : str :=
  let t := if negb (ts =? 0) then ts else now in
  format_time_local t ++ SEP ++ type ++ SEP ++ text.

(** [std::ofstream f(path, std::ios::app)] creates the file when it is not
    there. *)
Definition append_line_to_file (path line : str) (w : World) : bool * World :=
  if negb (env_can_write env path) then (false, w)
  else (true, set_files w
          (fs_write path (fs_content (files w) path ++ line ++ [NL])
             (files w))).

Definition export_text_to_file (now : Z) (prefix content : str) (w : World)
  : str * World :=
  let ts := strftime_compact (localtime_r (env_tz env) now) in
  let filename := prefix ++ lit "_" ++ ts ++ lit ".txt" in
  let path := path_in_data filename in
  if negb (env_can_write env path) then ([], w)
  else (path, set_files w (fs_write path (content ++ [NL]) (files w))).

(** *** Exports *)

Definition is_same_local_day (a b : Z) : bool :=
  let ta := localtime_r (env_tz env) a in
  let tb := localtime_r (env_tz env) b in
  (tm_year ta =? tm_year tb) && (tm_mon ta =? tm_mon tb)
  && (tm_mday ta =? tm_mday tb).

(** One iteration of the loop of [export_hourly_logs_today]. *)
Definition hourly_step (now : Z) (content : str) (d : DailyLog) : str :=
  if Str.eqb (log_type d) HOURLY && is_same_local_day now (log_ts d)
  then content
       ++ human_log_line now (Str.c_str (log_type d)) (log_text d) (log_ts d)
       ++ [NL]
  else content.

Definition export_hourly_logs_today (now : Z) (w : World) : str * World :=
  if is_empty (dailyLogs w) then ([], w)
  else
    let content := fold_left (hourly_step now) (dailyLogs w) [] in
    if is_empty content then ([], w)
    else export_text_to_file now (lit "hourly_logs_today")
           (Str.c_str content) w.

Definition json_escape_char (out : str) (c : ascii) : str :=
  if Ascii.eqb c BACKSLASH then out ++ [BACKSLASH; BACKSLASH]
  else if Ascii.eqb c DQUOTE then out ++ [BACKSLASH; DQUOTE]
  else if Ascii.eqb c NL then out ++ [BACKSLASH; "n"%char]
  else if Ascii.eqb c CR then out ++ [BACKSLASH; "r"%char]
  else if Ascii.eqb c TAB then out ++ [BACKSLASH; "t"%char]
  else out ++ [c].

Definition json_escape (s : str) : str := fold_left json_escape_char s [].

Definition week_seconds : Z := 7 * 24 * 60 * 60.

Definition jsonl_entry (d : DailyLog) : str :=
  lit "{" ++ [DQUOTE] ++ lit "type" ++ [DQUOTE] ++ lit ":" ++ [DQUOTE]
  ++ lit "HOURLY" ++ [DQUOTE] ++ lit "," ++ [DQUOTE] ++ lit "timestamp"
  ++ [DQUOTE] ++ lit ":" ++ [DQUOTE]
  ++ json_escape (format_iso_time (log_ts d))
  ++ [DQUOTE] ++ lit "," ++ [DQUOTE] ++ lit "text" ++ [DQUOTE] ++ lit ":"
  ++ [DQUOTE] ++ json_escape (log_text d) ++ [DQUOTE] ++ lit "}".

(** One iteration of the loop of [export_weekly_logs_file] over the two
    streams [human_section] and [hourly_jsonl_section]. *)
Definition weekly_step (now cutoff : Z) (acc : str * str) (d : DailyLog)
  : str * str :=
  if log_ts d <? cutoff then acc
  else
    let human :=
      fst acc
      ++ human_log_line now (Str.c_str (log_type d)) (log_text d) (log_ts d)
      ++ [NL] in
    if Str.eqb (log_type d) HOURLY
    then (human, snd acc ++ jsonl_entry d ++ [NL])
    else (human, snd acc).

Definition weekly_header (now : Z) : str :=
  lit "WEEKLY LOG EXPORT" ++ [NL]
  ++ lit "Generated: " ++ format_time_local now ++ [NL]
  ++ lit "Range: last 7 days" ++ [NL; NL].

Definition JSONL_DELIMITER : str :=
  [NL] ++ lit "=== HOURLY_ENTRIES_JSONL (one JSON object per line) ==="
  ++ [NL].

Definition END_DELIMITER : str :=
  [NL] ++ lit "=== END OF EXPORT ===" ++ [NL].

Definition weekly_sections (now : Z) (logs : list DailyLog) : str * str :=
  fold_left (weekly_step now (now - week_seconds)) logs (weekly_header now, []).

Definition weekly_content (now : Z) (logs : list DailyLog) : str :=
  let '(human_section, hourly_jsonl_section) := weekly_sections now logs in
  human_section ++ JSONL_DELIMITER ++ hourly_jsonl_section ++ END_DELIMITER.

Definition export_weekly_logs_file (now : Z) (w : World) : str * World :=
  if is_empty (dailyLogs w) then ([], w)
  else export_text_to_file now (lit "weekly_logs_export")
         (Str.c_str (weekly_content now (dailyLogs w))) w.

(** *** Persistence *)

(** [type] is a [const char*]: both the [std::string] built from it and the
    stream insertion stop at its first NUL. *)
Definition append_daily_log (now : Z) (type text : str) (w : World) : World :=
  let d := mkLog now (Str.c_str type) text in
  let w := set_logs w (dailyLogs w ++ [d]) in
  snd (append_line_to_file (path_in_data (lit "daily_logs.txt"))
         (human_log_line now (Str.c_str type) text (log_ts d)) w).

Definition task_line (i : nat) (t : Task) : str :=
  dec_of_Z (Z.of_nat i) ++ lit ": ["
  ++ (if task_done t then lit "x" else lit " ") ++ lit "] " ++ task_name t
  ++ (if negb (task_parent t =? -1)
      then lit " (parent=" ++ dec_of_Z (task_parent t) ++ lit ")"
      else [])
  ++ [NL].

(** The loop of [save_tasks] from index [i] on, appending to the stream. *)
Fixpoint save_tasks_loop (i : nat) (ts : list Task) (f : str) : str :=
  match ts with
  | [] => f
  | t :: ts' => save_tasks_loop (S i) ts' (f ++ task_line i t)
  end.

Definition save_tasks (w : World) : World :=
  let p := path_in_data (lit "tasks.txt") in
  if negb (env_can_write env p) then w
  else set_files w (fs_write p (save_tasks_loop 0 (tasks w) []) (files w)).

Definition save_daily_status_to_disk_and_log (now : Z) (text : str)
  (w : World) : World :=
  let w := snd (append_line_to_file (path_in_data (lit "daily_status.txt"))
                  (human_log_line now (lit "DAILY_STATUS") text 0) w) in
  let w := append_daily_log now (lit "DAILY_STATUS") text w in
  let '(p, w) := export_text_to_file now (lit "daily_status_saved")
                   (Str.c_str text) w in
  if negb (is_empty p)
  then append_daily_log now (lit "EXPORT")
         (lit "Exported daily status to " ++ p) w
  else w.

Definition save_weekly_status_to_disk_and_log (now : Z) (text : str)
  (w : World) : World :=
  let w := snd (append_line_to_file (path_in_data (lit "weekly_status.txt"))
                  (human_log_line now (lit "WEEKLY_STATUS") text 0) w) in
  let w := append_daily_log now (lit "WEEKLY_STATUS") text w in
  let '(p, w) := export_text_to_file now (lit "weekly_status_saved")
                   (Str.c_str text) w in
  if negb (is_empty p)
  then append_daily_log now (lit "EXPORT")
         (lit "Exported weekly status to " ++ p) w
  else w.

(** [rest.find_first_not_of(" \t")] and the [substr] that follows it. *)
Definition skip_blanks (rest : str) : str :=
  match Str.find_first_not_of [" "%char; TAB] rest with
  | Some pos => Str.substr_from rest pos
  | None => rest
  end.

(** The body of the loop of [load_tasks] for one non-empty line, in the
    three steps of the source: drop the index up to the colon, read the
    bracket marker, read the parent suffix. *)
Definition after_colon (line : str) : str :=
  match Str.find (lit ":") line with
  | None => line
  | Some colon => Str.substr_from line (colon + 1)
  end.

Definition read_done_marker (rest : str) : bool * str :=
  match rest with
  | c0 :: c1 :: c2 :: _ =>
      if Ascii.eqb c0 "[" && Ascii.eqb c2 "]" then
        let done := Ascii.eqb c1 "x" || Ascii.eqb c1 "X" in
        let rest :=
          match Str.find (lit "]") rest with
          | Some br => Str.substr_from rest (br + 1)
          | None => rest
          end in
        (done, skip_blanks rest)
      else (false, rest)
  | _ => (false, rest)
  end.

Definition read_parent_suffix (rest : str) : Z * str :=
  match Str.rfind (lit "(parent=") rest with
  | Some ppos =>
      match Str.find_from (lit ")") rest ppos with
      | Some endp =>
          let num := Str.substr rest (ppos + 8) (endp - (ppos + 8)) in
          let parent := match stoi num with Some v => v | None => -1 end in
          (parent, Str.pop_back_while isspace (Str.substr rest 0 ppos))
      | None => (-1, rest)
      end
  | None => (-1, rest)
  end.

Definition parse_task_line (line : str) : Task :=
  let rest := skip_blanks (after_colon line) in
  let '(done, rest) := read_done_marker rest in
  let '(parent, rest) := read_parent_suffix rest in
  mkTask rest parent done.

Definition load_tasks_step (ts : list Task) (line : str) : list Task :=
  if is_empty line then ts else ts ++ [parse_task_line line].

Definition load_tasks (w : World) : World :=
  let w := set_tasks w [] in
  match files w (path_in_data (lit "tasks.txt")) with
  | None => w
  | Some content =>
      set_tasks w (fold_left load_tasks_step (Str.getlines content) (tasks w))
  end.

(** The body of the loop of [load_daily_logs] for one non-empty line. *)
Definition parse_log_line (now : Z) (line : str) : DailyLog :=
  match Str.find SEP line with
  | Some firstDash =>
      match Str.find_from SEP line (firstDash + 3) with
      | Some secondDash =>
          let ts := Str.substr line 0 firstDash in
          let restStart := (secondDash + 3)%nat in
          mkLog (parse_timestamp now ts)
            (Str.substr line (firstDash + 3) (secondDash - (firstDash + 3)))
            (if (restStart <? List.length line)%nat
             then Str.substr_from line restStart else [])
      | None =>
          let ts := Str.substr line 0 firstDash in
          mkLog (parse_timestamp now ts) (lit "LOG")
            (Str.substr_from line (firstDash + 3))
      end
  | None => mkLog now (lit "LOG") line
  end.

Definition load_daily_logs_step (now : Z) (logs : list DailyLog) (line : str)
  : list DailyLog :=
  if is_empty line then logs else logs ++ [parse_log_line now line].

Definition load_daily_logs (now : Z) (w : World) : World :=
  let w := set_logs w [] in
  match files w (path_in_data (lit "daily_logs.txt")) with
  | None => w
  | Some content =>
      set_logs w
        (fold_left (load_daily_logs_step now) (Str.getlines content)
           (dailyLogs w))
  end.

(** *** Breaks and tasks *)

Definition start_break (now : Z) (type : str) (w : World) : World :=
  let b := mkBreak type now 0 in
  let w := set_breaks w (breaks w ++ [b]) in
  append_daily_log now (lit "BREAK_START") (lit "Started break: " ++ type) w.

(** The reverse iteration of [end_last_break_of_type] over [rbs], the breaks
    from the last one to the first: the entry that is closed, if any, and the
    entries after the assignment. *)
Fixpoint end_scan (now : Z) (type : str) (rbs : list BreakEntry)
  : option (BreakEntry * list BreakEntry) :=
  match rbs with
  | [] => None
  | it :: r =>
      if Str.eqb (brk_type it) type && (brk_end it =? 0) then
        let it' := mkBreak (brk_type it) (brk_start it) now in
        Some (it', it' :: r)
      else
        match end_scan now type r with
        | Some (c, r') => Some (c, it :: r')
        | None => None
        end
  end.

Definition end_last_break_of_type (now : Z) (type : str) (w : World) : World :=
  match end_scan now type (rev (breaks w)) with
  | Some (it, rbs) =>
      let w := set_breaks w (rev rbs) in
      append_daily_log now (lit "BREAK_END")
        (lit "Ended break: " ++ brk_type it ++ lit " (start "
         ++ format_time_local (brk_start it) ++ lit ", end "
         ++ format_time_local (brk_end it) ++ lit ")") w
  | None =>
      append_daily_log now (lit "BREAK_WARN")
        (lit "Tried to end break but none active: " ++ type) w
  end.

(** [dtype] and [dmin] are the two numbers drawn from [rng]. *)
Definition add_random_break (now : Z) (dtype : nat) (dmin : Z) (w : World)
  : World :=
  let t := nth dtype kBreakTypes [] in
  let b := mkBreak t (now - dmin * 60) now in
  let w := set_breaks w (breaks w ++ [b]) in
  append_daily_log now (lit "BREAK_RANDOM")
    (lit "Random break: " ++ brk_type b ++ lit " ("
     ++ format_time_local (brk_start b) ++ SEP
     ++ format_time_local (brk_end b) ++ lit ")") w.

Definition add_task (now : Z) (name : str) (parent_idx : Z) (w : World)
  : World :=
  let tt := mkTask name parent_idx false in
  let w := set_tasks w (tasks w ++ [tt]) in
  let w := save_tasks w in
  append_daily_log now (lit "TASK") (lit "Added task: " ++ name) w.

Definition clearAllData (w : World) : World :=
  mkWorld [] [] [] (files w).

(** *** The callers in the frame loop *)

Fixpoint set_done (idx : nat) (done : bool) (ts : list Task) : list Task :=
  match ts, idx with
  | [], _ => []
  | t :: r, O => mkTask (task_name t) (task_parent t) done :: r
  | t :: r, S i => t :: set_done i done r
  end.

(** The checkbox of [drawTasksRecursive]: [tasks[idx].done = done;
    save_tasks();] behind the range check on [idx]. *)
Definition toggle_task (idx : Z) (done : bool) (w : World) : World :=
  if (idx <? 0) || (Z.of_nat (List.length (tasks w)) <=? idx) then w
  else save_tasks (set_tasks w (set_done (Z.to_nat idx) done (tasks w))).

(** The button "Export Weekly Logs (file)". *)
Definition on_export_weekly_logs (now : Z) (w : World) : World :=
  let '(p, w) := export_weekly_logs_file now w in
  if negb (is_empty p)
  then append_daily_log now (lit "EXPORT")
         (lit "Exported weekly logs to " ++ p) w
  else w.

(** The button "Export Hourly Logs (today)". *)
Definition on_export_hourly_today (now : Z) (w : World) : World :=
  let '(p, w) := export_hourly_logs_today now w in
  if negb (is_empty p)
  then append_daily_log now (lit "EXPORT")
         (lit "Exported hourly logs (today) to " ++ p) w
  else w.

(** The button "Yes - Clear All" of the confirmation dialog. *)
Definition on_confirm_clear_all (w : World) : World := clearAllData w.

End Program.

(** ** Vocabulary of the properties *)

(** An entry of category [type] that is still open. *)
Definition is_open_of (type : str) (b : BreakEntry) : bool :=
  Str.eqb (brk_type b) type && (brk_end b =? 0).

Definition has_open (type : str) (bs : list BreakEntry) : bool :=
  existsb (is_open_of type) bs.

(** An entry is open, or it ends no earlier than it starts. *)
Definition break_ok (b : BreakEntry) : Prop :=
  brk_end b = 0 \/ brk_start b <= brk_end b.

(** Every entry is well formed and started no later than [t], the last
    reading of the clock. *)
Definition breaks_inv (t : Z) (bs : list BreakEntry) : Prop :=
  Forall (fun b => brk_start b <= t /\ break_ok b) bs.

Inductive BreakOp :=
| StartBreak (type : str)
| EndMostRecentOpen (type : str)
| RandomBreak (dtype : nat) (dmin : Z).

(** What [rng] can deliver to [add_random_break]. *)
Definition break_op_wf (op : BreakOp) : Prop :=
  match op with
  | RandomBreak dtype dmin =>
      (dtype < List.length kBreakTypes)%nat /\ 1 <= dmin <= 20
  | _ => True
  end.

Definition run_break_op (env : Env) (now : Z) (op : BreakOp) (w : World)
  : World :=
  match op with
  | StartBreak type => start_break env now type w
  | EndMostRecentOpen type => end_last_break_of_type env now type w
  | RandomBreak dtype dmin => add_random_break env now dtype dmin w
  end.

(** A run of operations, each with the reading of the clock it sees. *)
Fixpoint run_break_ops (env : Env) (ops : list (Z * BreakOp)) (w : World)
  : World :=
  match ops with
  | [] => w
  | (now, op) :: r => run_break_ops env r (run_break_op env now op w)
  end.

(** The readings of the clock never go back, starting from [t0]. *)
Fixpoint clock_monotone (t0 : Z) (ts : list Z) : Prop :=
  match ts with
  | [] => True
  | t :: r => t0 <= t /\ clock_monotone t r
  end.

(** The events the weekly export keeps: [timestamp >= now - 7 days]. *)
Definition weekly_selected (now : Z) (logs : list DailyLog) : list DailyLog :=
  filter (fun d => now - 7 * 24 * 60 * 60 <=? log_ts d) logs.

Definition is_hourly (d : DailyLog) : bool := Str.eqb (log_type d) HOURLY.

(** The events the hourly export keeps: kind HOURLY and the local calendar
    day of [now]. *)
Definition hourly_selected (env : Env) (now : Z) (logs : list DailyLog)
  : list DailyLog :=
  filter (fun d => is_hourly d && is_same_local_day env now (log_ts d)) logs.

(** The line of an event in an export, with its newline. *)
Definition export_line (env : Env) (now : Z) (d : DailyLog) : str :=
  human_log_line env now (Str.c_str (log_type d)) (log_text d) (log_ts d)
  ++ [NL].

Definition is_json_special (c : ascii) : bool :=
  Str.mem c [BACKSLASH; DQUOTE; NL; CR; TAB].

(** ** Concrete states used in the examples *)

(** A machine where every directory and file can be opened, on UTC. *)
Definition env_utc : Env :=
  mkEnv (Some (lit "/home/user")) (fun _ => true) (fun _ => true) 0.

(** The state of the program before anything is loaded. *)
Definition world_empty : World := mkWorld [] [] [] (fun _ => None).

(** ** Bounded checks by evaluation *)

(** [p] holds on [i], [i+1], ..., [i + fuel - 1]. *)
Fixpoint all_from (fuel : nat) (i : Z) (p : Z -> bool) : bool :=
  match fuel with
  | O => true
  | S f => if p i then all_from f (i + 1) p else false
  end.

Definition is_digit (c : ascii) : bool :=
  match digit_val c with Some _ => true | None => false end.

(** Within one 400-year era the calendar conversion is inverted by
    [days_from_civil] and yields a month and a day of the month. *)
Definition civil_of_doe_check (doe : Z) : bool :=
  let '(y, m, d) := civil_of_doe 0 doe in
  (days_from_civil y m d =? doe - 719468)
  && (1 <=? m) && (m <=? 12) && (1 <=? d) && (d <=? 31).

(** A [strftime] field of [w] digits is read back by [%<w>d]. *)
Definition field_check (w : nat) (n : Z) : bool :=
  let s := pad_num w n in
  (List.length s =? w)%nat && forallb is_digit s
  && (fst (fst (scan_digits w s 0 0)) =? n)
  && (snd (fst (scan_digits w s 0 0)) =? w)%nat.

(** The JSONL line of an HOURLY event in the weekly export. *)
Definition jsonl_line (d : DailyLog) : str := jsonl_entry d ++ [NL].

Definition no_nul (s : str) : bool :=
  forallb (fun c => negb (Ascii.eqb c NUL)) s.

(** The name of the file an export with this prefix writes at [now]. *)
Definition export_path (env : Env) (now : Z) (prefix : str) : str :=
  path_in_data env
    (prefix ++ lit "_" ++ strftime_compact (localtime_r (env_tz env) now)
     ++ lit ".txt").

(** A log with two HOURLY events around a local midnight, and a later noon;
    the calendar fields are local time in the zone of [env]. *)
Definition before_midnight (env : Env) (text : str) : DailyLog :=
  mkLog (mktime (env_tz env) (mk_tm 124 0 1 23 59 59)) HOURLY text.
Definition after_midnight (env : Env) (text : str) : DailyLog :=
  mkLog (mktime (env_tz env) (mk_tm 124 0 2 0 0 1)) HOURLY text.
Definition noon_after (env : Env) : Z :=
  mktime (env_tz env) (mk_tm 124 0 2 12 0 0).

(** A world that holds the four core files. *)
Definition world_with_files : World :=
  mkWorld
    [mkLog 1704067201 HOURLY (lit "wrote the report")] []
    [mkTask (lit "report") (-1) false]
    (fun p =>
       if Str.eqb p (path_in_data env_utc (lit "daily_logs.txt"))
       then Some (lit "2024-01-01 00:00:01 - HOURLY - wrote the report"
                  ++ [NL])
       else if Str.eqb p (path_in_data env_utc (lit "tasks.txt"))
       then Some (lit "0: [ ] report" ++ [NL])
       else if Str.eqb p (path_in_data env_utc (lit "daily_status.txt"))
       then Some (lit "2024-01-02 00:00:02 - DAILY_STATUS - fine" ++ [NL])
       else if Str.eqb p (path_in_data env_utc (lit "weekly_status.txt"))
       then Some (lit "2024-01-02 00:00:03 - WEEKLY_STATUS - good" ++ [NL])
       else None).

(** ** Vocabulary of the task store *)

Definition PARENT_TAG : str := lit "(parent=".

Definition no_nl (s : str) : bool :=
  forallb (fun c => negb (Ascii.eqb c NL)) s.

(** The name has a [(parent=] whose last occurrence is followed, somewhere,
    by a closing parenthesis. *)
Definition has_parent_suffix (n : str) : bool :=
  match Str.rfind PARENT_TAG n with
  | Some ppos =>
      match Str.find_from (lit ")") n ppos with
      | Some _ => true
      | None => false
      end
  | None => false
  end.

Definition ends_with_space (n : str) : bool :=
  match rev n with [] => false | c :: _ => isspace c end.

Definition starts_with_blank (n : str) : bool :=
  match n with [] => false | c :: _ => Str.mem c [" "%char; TAB] end.

(** Names that the line format of [tasks.txt] keeps, for a task with this
    parent: on one line and not starting with a blank or a tab; for a root,
    not empty and without a parent suffix of its own; for a child, not
    ending with white space. *)
Definition name_ok (n : str) (parent : Z) : bool :=
  no_nl n
  && negb (starts_with_blank n)
  && (if parent =? -1
      then negb (is_empty n) && negb (has_parent_suffix n)
      else negb (ends_with_space n)).

Definition is_int (z : Z) : Prop := INT_MIN <= z <= INT_MAX.

Definition task_ok (t : Task) : Prop :=
  name_ok (task_name t) (task_parent t) = true /\ is_int (task_parent t).

Inductive TaskOp :=
| Append (name : str) (parentIndex : Z)
| Toggle (index : Z) (done : bool).

Definition task_op_ok (op : TaskOp) : Prop :=
  match op with
  | Append name parentIndex =>
      name_ok name parentIndex = true /\ is_int parentIndex
  | Toggle _ _ => True
  end.

Definition run_task_op (env : Env) (now : Z) (op : TaskOp) (w : World)
  : World :=
  match op with
  | Append name parentIndex => add_task env now name parentIndex w
  | Toggle index done => toggle_task env index done w
  end.

Fixpoint run_task_ops (env : Env) (ops : list (Z * TaskOp)) (w : World)
  : World :=
  match ops with
  | [] => w
  | (now, op) :: r => run_task_ops env r (run_task_op env now op w)
  end.

(** The tasks as the claim sees them. *)
Definition task_tuples (w : World) : list (str * Z * bool) :=
  map (fun t => (task_name t, task_parent t, task_done t)) (tasks w).

(** A line of [tasks.txt] without its newline. *)
Definition task_body (i : nat) (t : Task) : str :=
  dec_of_Z (Z.of_nat i) ++ lit ": ["
  ++ (if task_done t then lit "x" else lit " ") ++ lit "] " ++ task_name t
  ++ (if negb (task_parent t =? -1)
      then lit " (parent=" ++ dec_of_Z (task_parent t) ++ lit ")"
      else []).

(** The text [save_tasks] writes for the tasks [ts], numbered from [i]. *)
Fixpoint tasks_text (i : nat) (ts : list Task) : str :=
  match ts with
  | [] => []
  | t :: r => task_line i t ++ tasks_text (S i) r
  end.

(** Following parent links from [p] reaches a root in at most [fuel] steps. *)
Fixpoint reaches_root (fuel : nat) (ts : list Task) (p : Z) : bool :=
  if p =? -1 then true
  else
    match fuel with
    | O => false
    | S f =>
        (0 <=? p) && (p <? Z.of_nat (List.length ts))
        && reaches_root f ts
             (task_parent (nth (Z.to_nat p) ts (mkTask [] (-1) false)))
    end.

(** The parent indices form a forest: valid positions, no cycle. *)
Definition is_forest (ts : list Task) : bool :=
  forallb (fun t => reaches_root (List.length ts) ts (task_parent t)) ts.

(** ** Vocabulary of the event log file *)

(** [a] followed by the separator has the separator only at its end: [a]
    neither contains [" - "] nor ends with [" -"]. *)
Fixpoint sep_clear (a : str) : bool :=
  match a with
  | [] => true
  | _ :: a' => negb (Str.starts_with SEP (a ++ SEP)) && sep_clear a'
  end.

(** Kinds that a line of [daily_logs.txt] keeps: a C string on one line that
    cannot be mistaken for the separator. *)
Definition kind_ok (k : str) : bool := no_nl k && no_nul k && sep_clear k.

(** The content of a file is a sequence of whole lines. *)
Fixpoint complete_lines (c : str) : bool :=
  match c with
  | [] => true
  | x :: c' =>
      match c' with
      | [] => Ascii.eqb x NL
      | _ :: _ => complete_lines c'
      end
  end.

(** What [load_daily_logs] makes of the content of [daily_logs.txt]. *)
Definition logs_of_content (env : Env) (now : Z) (content : str)
  : list DailyLog :=
  fold_left (load_daily_logs_step env now) (Str.getlines content) [].

Definition daily_logs_path (env : Env) : str :=
  path_in_data env (lit "daily_logs.txt").

(** The local year of [t] has at most four digits. *)
Definition four_digit_year (env : Env) (t : Z) : Prop :=
  0 <= tm_year (localtime_r (env_tz env) t) + 1900 <= 9999.


(** ** More callers in the frame loop *)

(** The menu item "Save Daily Logs": every event in memory is appended to
    [daily_logs.txt] once more. *)
Definition on_save_daily_logs (env : Env) (now : Z) (w : World) : World :=
  fold_left
    (fun w d =>
       snd (append_line_to_file env (path_in_data env (lit "daily_logs.txt"))
              (human_log_line env now (Str.c_str (log_type d)) (log_text d)
                 (log_ts d)) w))
    (dailyLogs w) w.

(** The buttons "Log Now" and, in the hourly popup, "Log"; [buffer] is the
    [char] array [hourlyInputText]. *)
Definition on_log_now (env : Env) (now : Z) (buffer : str) (w : World)
  : World :=
  if negb (is_empty (Str.c_str buffer))
  then append_daily_log env now (lit "HOURLY") (Str.c_str buffer) w
  else w.

(** The buttons "Export Daily Status (file)" and "Export Weekly Status
    (file)": [prefix] is the prefix of the file and [what] the words of the
    EXPORT event. *)
Definition on_export_status (env : Env) (now : Z) (prefix what buffer : str)
  (w : World) : World :=
  let '(path, w) := export_text_to_file env now prefix (Str.c_str buffer) w in
  if negb (is_empty path)
  then append_daily_log env now (lit "EXPORT") (what ++ path) w
  else w.

(** The button "Save Daily Status". *)
Definition on_save_daily_status (env : Env) (now : Z) (buffer : str)
  (w : World) : World :=
  if negb (is_empty (Str.c_str buffer))
  then save_daily_status_to_disk_and_log env now (Str.c_str buffer) w
  else w.

(** Row [i] of the table of breaks: the button "End i" of an open entry. *)
Fixpoint set_end (i : nat) (now : Z) (bs : list BreakEntry)
  : list BreakEntry :=
  match bs, i with
  | [], _ => []
  | b :: r, O => mkBreak (brk_type b) (brk_start b) now :: r
  | b :: r, S j => b :: set_end j now r
  end.

Definition on_end_row (env : Env) (now : Z) (i : nat) (w : World) : World :=
  match nth_error (breaks w) i with
  | Some b =>
      if brk_end b =? 0 then
        append_daily_log env now (lit "BREAK_END")
          (lit "Ended break: " ++ brk_type b)
          (set_breaks w (set_end i now (breaks w)))
      else w
  | None => w
  end.

(** The hourly trigger at the top of a frame, then the opening of the popup:
    the new [lastHour], and whether the popup "Hourly Log" is opened in this
    frame.  [requested] is [requestHourlyPopup] as the last frame left it
    (the button "Test Hourly Popup" sets it). *)
Definition frame_hourly (env : Env) (ct : Z) (lastHour : Z) (requested : bool)
  : Z * bool :=
  let curHour := tm_hour (localtime_r (env_tz env) ct) in
  if negb (curHour =? lastHour) then (curHour, true)
  else (lastHour, requested).

(** The frames of a run without a click: the number of popups opened, from
    [lastHour = -1] as [main] starts. *)
Fixpoint frames_popups (env : Env) (cts : list Z) (lastHour : Z) : nat :=
  match cts with
  | [] => O
  | ct :: r =>
      let '(h, opened) := frame_hourly env ct lastHour false in
      ((if opened then 1 else 0) + frames_popups env r h)%nat
  end.

(** ** Vocabulary of the further properties *)

(** The inverse of the five escapes of [json_escape]. *)
Fixpoint json_unescape (s : str) : str :=
  match s with
  | [] => []
  | c :: r =>
      if Ascii.eqb c BACKSLASH then
        match r with
        | [] => [c]
        | e :: r' =>
            (if Ascii.eqb e "n" then NL
             else if Ascii.eqb e "r" then CR
             else if Ascii.eqb e "t" then TAB
             else e) :: json_unescape r'
        end
      else c :: json_unescape r
  end.

(** The events that a line of [daily_logs.txt] keeps. *)
Definition event_ok (env : Env) (d : DailyLog) : Prop :=
  kind_ok (log_type d) = true /\ no_nl (log_text d) = true
  /\ log_ts d <> 0 /\ log_ts d <> -1 /\ four_digit_year env (log_ts d).

(** The line of an event in [daily_logs.txt], with its newline. *)
Definition log_file_line (env : Env) (d : DailyLog) : str :=
  strftime_local (localtime_r (env_tz env) (log_ts d)) ++ SEP ++ log_type d
  ++ SEP ++ log_text d ++ [NL].

(** [daily_logs.txt] can be written, holds whole lines, and a reload at any
    time gives the events in memory. *)
Definition log_synced (env : Env) (w : World) : Prop :=
  env_can_write env (daily_logs_path env) = true
  /\ complete_lines (fs_content (files w) (daily_logs_path env)) = true
  /\ forall now', dailyLogs (load_daily_logs env now' w) = dailyLogs w.

Definition tasks_path (env : Env) : str := path_in_data env (lit "tasks.txt").

(** [tasks.txt] can be written and holds what [save_tasks] writes for the
    tasks in memory (nothing, or no file, for no task). *)
Definition tasks_synced (env : Env) (w : World) : Prop :=
  env_can_write env (tasks_path env) = true
  /\ fs_content (files w) (tasks_path env) = tasks_text 0 (tasks w).

(** The home directory, when there is one, has no newline in its name. *)
Definition home_ok (env : Env) : Prop :=
  match env_HOME env with Some h => no_nl h = true | None => True end.

(** A reading of the clock that a timestamp of the log keeps. *)
Definition clock_ok (env : Env) (now : Z) : Prop :=
  now <> 0 /\ now <> -1 /\ four_digit_year env now.

(** The button "Save Weekly Status". *)
Definition on_save_weekly_status (env : Env) (now : Z) (buffer : str)
  (w : World) : World :=
  if negb (is_empty (Str.c_str buffer))
  then save_weekly_status_to_disk_and_log env now (Str.c_str buffer) w
  else w.

(** What [main] does before its first frame. *)
Definition startup (env : Env) (now : Z) (w : World) : World :=
  load_daily_logs env now (load_tasks env w).

(** What the user can do to the data in a frame: the buttons "Log Now" and
    "Log", the break controls, the button "End i" of a row, the task
    controls, the status buttons and the exports.  Left out are Clear-All
    and the menu item "Save Daily Logs", which take memory and files out of
    step, and the button "Start i" of a row: it calls
    [start_break(breaks[i].type)] with a reference into the vector that
    [push_back] may move before the reference is read again. *)
Inductive Action :=
| ALogNow (buffer : str)
| AStartBreak (type : str)
| AEndBreak (type : str)
| ARandomBreak (dtype : nat) (dmin : Z)
| AEndRow (i : nat)
| AAddTask (name : str) (parent_idx : Z)
| AToggle (idx : Z) (done : bool)
| ASaveTasks
| ASaveDailyStatus (buffer : str)
| ASaveWeeklyStatus (buffer : str)
| AExportDailyStatus (buffer : str)
| AExportWeeklyStatus (buffer : str)
| AExportWeeklyLogs
| AExportHourlyToday.

Definition run_action (env : Env) (now : Z) (a : Action) (w : World) : World :=
  match a with
  | ALogNow buffer => on_log_now env now buffer w
  | AStartBreak type => start_break env now type w
  | AEndBreak type => end_last_break_of_type env now type w
  | ARandomBreak dtype dmin => add_random_break env now dtype dmin w
  | AEndRow i => on_end_row env now i w
  | AAddTask name parent_idx => add_task env now name parent_idx w
  | AToggle idx done => toggle_task env idx done w
  | ASaveTasks => save_tasks env w
  | ASaveDailyStatus buffer => on_save_daily_status env now buffer w
  | ASaveWeeklyStatus buffer => on_save_weekly_status env now buffer w
  | AExportDailyStatus buffer =>
      on_export_status env now (lit "daily_status_export")
        (lit "Exported daily status to ") buffer w
  | AExportWeeklyStatus buffer =>
      on_export_status env now (lit "weekly_status_export")
        (lit "Exported weekly status to ") buffer w
  | AExportWeeklyLogs => on_export_weekly_logs env now w
  | AExportHourlyToday => on_export_hourly_today env now w
  end.

Fixpoint run_actions (env : Env) (acts : list (Z * Action)) (w : World)
  : World :=
  match acts with
  | [] => w
  | (now, a) :: r => run_actions env r (run_action env now a w)
  end.

(** The free text of an action is on one line. *)
Definition action_one_line (a : Action) : Prop :=
  match a with
  | ALogNow buffer | ASaveDailyStatus buffer | ASaveWeeklyStatus buffer =>
      no_nl (Str.c_str buffer) = true
  | AStartBreak type | AEndBreak type => no_nl type = true
  | AAddTask name _ => no_nl name = true
  | _ => True
  end.

Definition break_types_one_line (w : World) : Prop :=
  Forall (fun b => no_nl (brk_type b) = true) (breaks w).

(** The two files of the stores, and the prefixes of the export files. *)
Definition core_files : list str := [lit "daily_logs.txt"; lit "tasks.txt"].

Definition export_prefixes : list str :=
  [lit "hourly_logs_today"; lit "weekly_logs_export";
   lit "daily_status_export"; lit "weekly_status_export";
   lit "daily_status_saved"; lit "weekly_status_saved"].

(** What every export button does with the result [r] of its export: the
    EXPORT event when there is a path. *)
Definition export_and_log (env : Env) (now : Z) (what : str)
  (r : str * World) : World :=
  if negb (is_empty (fst r))
  then append_daily_log env now (lit "EXPORT") (what ++ fst r) (snd r)
  else snd r.

(** The tasks in memory and [tasks.txt] are the same in [w'] as in [w]. *)
Definition tasks_kept (env : Env) (w w' : World) : Prop :=
  tasks w' = tasks w /\ files w' (tasks_path env) = files w (tasks_path env).

(** [b'] is the entry [b] later on: same category and start, and the same
    end once [b] was closed. *)
Definition break_later (b b' : BreakEntry) : Prop :=
  brk_type b' = brk_type b /\ brk_start b' = brk_start b
  /\ (brk_end b <> 0 -> brk_end b' = brk_end b).

(** The break list [bs'] continues [bs]: the entries of [bs] in place, each
    as [break_later] allows, followed by new entries. *)
Definition breaks_continue (bs bs' : list BreakEntry) : Prop :=
  exists old new, bs' = old ++ new /\ Forall2 break_later bs old.

(** What the random generator can deliver to an action. *)
Definition action_wf (a : Action) : Prop :=
  match a with
  | ARandomBreak dtype dmin =>
      (dtype < List.length kBreakTypes)%nat /\ 1 <= dmin <= 20
  | _ => True
  end.

(** The hours of the frames without the repetitions of an hour in
    consecutive frames. *)
Fixpoint hour_changes (last : Z) (hours : list Z) : list Z :=
  match hours with
  | [] => []
  | h :: r => if h =? last then hour_changes last r
              else h :: hour_changes h r
  end.


(** ** The task tree view *)

(** [tasks[i]] for a position of the vector. *)
Definition task_at (ts : list Task) (i : Z) : Task :=
  nth (Z.to_nat i) ts (mkTask [] (-1) false).

(** [idx] is a position of the vector. *)
Definition in_vector (ts : list Task) (idx : Z) : Prop :=
  0 <= idx < Z.of_nat (List.length ts).

(** The values of the loop variable of [for (int i = 0; i < tasks.size(); ++i)]. *)
Definition indices (ts : list Task) : list Z :=
  map Z.of_nat (seq 0 (List.length ts)).

(** The calls of a loop body one after the other: the loop returns when
    every call has returned. *)
Fixpoint collect {A : Type} (os : list (option (list A))) : option (list A) :=
  match os with
  | [] => Some []
  | o :: r =>
      match o, collect r with
      | Some a, Some b => Some (a ++ b)
      | _, _ => None
      end
  end.

(** [drawTasksRecursive(idx, depth)]: the tree nodes drawn, in order, each
    with the depth it is indented by.  [opened idx] is what [TreeNodeEx]
    returns for node [idx] (the node is expanded); [fuel] bounds the depth
    of the recursion, [None] is a recursion that has not returned within it. *)
Fixpoint drawTasksRecursive (fuel : nat) (ts : list Task) (opened : Z -> bool)
    (idx depth : Z) : option (list (Z * Z)) :=
  match fuel with
  | O => None
  | S f =>
      if (idx <? 0) || (Z.of_nat (List.length ts) <=? idx) then Some []
      else if opened idx then
        match collect
                (map (fun i => drawTasksRecursive f ts opened i (depth + 1))
                   (filter (fun i => task_parent (task_at ts i) =? idx)
                      (indices ts))) with
        | Some l => Some ((idx, depth) :: l)
        | None => None
        end
      else Some [(idx, depth)]
  end.

(** The task list of the main window: every task without a parent is drawn
    with its subtree. *)
Definition draw_task_list (fuel : nat) (ts : list Task) (opened : Z -> bool)
    : option (list (Z * Z)) :=
  match ts with
  | [] => Some []
  | _ =>
      collect
        (map (fun i => drawTasksRecursive fuel ts opened i 0)
           (filter (fun i => task_parent (task_at ts i) =? -1) (indices ts)))
  end.

(** The number of parent links from task [idx] up to a task without a
    parent, if the chain of parents gets there within [fuel] tasks. *)
Fixpoint root_distance (fuel : nat) (ts : list Task) (idx : Z) : option nat :=
  match fuel with
  | O => None
  | S f =>
      if (idx <? 0) || (Z.of_nat (List.length ts) <=? idx) then None
      else if task_parent (task_at ts idx) =? -1 then Some O
      else option_map S (root_distance f ts (task_parent (task_at ts idx)))
  end.

(** The tasks from [idx] up its chain of parents, [d] links far. *)
Fixpoint ancestors (d : nat) (ts : list Task) (idx : Z) : list Z :=
  match d with
  | O => [idx]
  | S d' => idx :: ancestors d' ts (task_parent (task_at ts idx))
  end.

(** The [k]-th parent of a task. *)
Fixpoint nth_parent (k : nat) (ts : list Task) (idx : Z) : Z :=
  match k with
  | O => idx
  | S k' => task_parent (task_at ts (nth_parent k' ts idx))
  end.


(** ** Vocabulary of the export files *)

(** No event of the list has a NUL character in its text. *)
Definition texts_no_nul (logs : list DailyLog) : Prop :=
  Forall (fun d => no_nul (log_text d) = true) logs.

(** What the weekly export writes for the events [kept]: the header, their
    lines, the delimiter, the JSONL objects of the HOURLY ones, the end
    mark, and the newline that [export_text_to_file] adds. *)
Definition weekly_file (env : Env) (now : Z) (kept : list DailyLog) : str :=
  weekly_header env now
  ++ List.concat (map (export_line env now) kept)
  ++ JSONL_DELIMITER
  ++ List.concat (map jsonl_line (filter is_hourly kept))
  ++ END_DELIMITER ++ [NL].

(** What the hourly export writes for the events [kept]: their lines and
    the newline that [export_text_to_file] adds. *)
Definition hourly_file (env : Env) (now : Z) (kept : list DailyLog) : str :=
  List.concat (map (export_line env now) kept) ++ [NL].

(** A [daily_logs.txt] whose first line has a NUL character in its text,
    and the program after it has loaded this file. *)
Definition log_file_with_nul : str :=
  lit "2024-01-02 09:00:00 - HOURLY - a" ++ [NUL] ++ lit "b" ++ [NL]
  ++ lit "2024-01-02 09:00:00 - HOURLY - x" ++ [NL].

Definition world_with_nul : World :=
  load_daily_logs env_utc 1704190000
    (mkWorld [] [] []
       (fs_write (daily_logs_path env_utc) log_file_with_nul (fun _ => None))).

(** * Properties *)

(** ** Strings *)

Lemma str_eqb_refl (a : str) : Str.eqb a a = true.
Proof.
  induction a as [|c a IH]; simpl; [reflexivity|].
  now rewrite Ascii.eqb_refl, IH.
Qed.

(** ** JSON escaping *)

Lemma json_escape_acc (s out : str) :
  fold_left json_escape_char s out = out ++ json_escape s.
Proof.
  unfold json_escape. revert out.
  induction s as [|c s IH]; intros out; simpl.
  - now rewrite app_nil_r.
  - rewrite (IH (json_escape_char out c)), (IH (json_escape_char [] c)).
    rewrite app_assoc. f_equal.
    unfold json_escape_char.
    repeat match goal with |- context [if ?b then _ else _] => destruct b end;
      reflexivity.
Qed.

Lemma json_escape_cons (c : ascii) (s : str) :
  json_escape (c :: s) = json_escape [c] ++ json_escape s.
Proof.
  unfold json_escape at 1. simpl. now rewrite json_escape_acc.
Qed.

Lemma json_escape_plain (c : ascii) :
  is_json_special c = false -> json_escape [c] = [c].
Proof.
  unfold is_json_special, Str.mem, json_escape, json_escape_char. simpl.
  intros H. repeat (apply orb_false_iff in H as [-> H]). reflexivity.
Qed.

(** C8: [json_escape] works byte by byte; backslash, double quote, newline,
    carriage return and tab become a backslash followed by one character, and
    every other byte is copied unchanged.  [He said "hi"] followed by a
    newline escapes to [He said \"hi\"] followed by backslash and [n]. *)
Theorem json_escape_five_characters :
  json_escape [] = []
  /\ (forall c s, json_escape (c :: s) = json_escape [c] ++ json_escape s)
  /\ json_escape [BACKSLASH] = [BACKSLASH; BACKSLASH]
  /\ json_escape [DQUOTE] = [BACKSLASH; DQUOTE]
  /\ json_escape [NL] = [BACKSLASH; "n"%char]
  /\ json_escape [CR] = [BACKSLASH; "r"%char]
  /\ json_escape [TAB] = [BACKSLASH; "t"%char]
  /\ (forall c, is_json_special c = false -> json_escape [c] = [c])
  /\ json_escape (lit "He said " ++ [DQUOTE] ++ lit "hi" ++ [DQUOTE; NL])
     = lit "He said " ++ [BACKSLASH; DQUOTE] ++ lit "hi"
       ++ [BACKSLASH; DQUOTE; BACKSLASH; "n"%char].
Proof.
  repeat split; try reflexivity.
  - apply json_escape_cons.
  - apply json_escape_plain.
Qed.

Lemma json_escape_five_characters_witness :
  is_json_special "a"%char = false /\ json_escape ["a"%char] = ["a"%char].
Proof.
  split; [reflexivity|].
  apply (proj1 (proj2 (proj2 (proj2 (proj2 (proj2 (proj2 (proj2
           json_escape_five_characters)))))))).
  reflexivity.
Defined.

(** ** The event log in memory *)

Section Memory.

Variable env : Env.

Lemma append_line_to_file_mem (path line : str) (w : World) :
  let w' := snd (append_line_to_file env path line w) in
  dailyLogs w' = dailyLogs w /\ breaks w' = breaks w /\ tasks w' = tasks w.
Proof.
  unfold append_line_to_file.
  destruct (env_can_write env path); simpl; auto.
Qed.

Lemma dailyLogs_append_daily_log (now : Z) (type text : str) (w : World) :
  dailyLogs (append_daily_log env now type text w)
  = dailyLogs w ++ [mkLog now (Str.c_str type) text].
Proof.
  unfold append_daily_log.
  now rewrite (proj1 (append_line_to_file_mem _ _ _)).
Qed.

Lemma breaks_append_daily_log (now : Z) (type text : str) (w : World) :
  breaks (append_daily_log env now type text w) = breaks w.
Proof.
  unfold append_daily_log.
  now rewrite (proj1 (proj2 (append_line_to_file_mem _ _ _))).
Qed.

Lemma tasks_append_daily_log (now : Z) (type text : str) (w : World) :
  tasks (append_daily_log env now type text w) = tasks w.
Proof.
  unfold append_daily_log.
  now rewrite (proj2 (proj2 (append_line_to_file_mem _ _ _))).
Qed.

End Memory.

(** ** Breaks *)

Section Breaks.

Variable env : Env.

Lemma end_scan_none (now : Z) (type : str) (rbs : list BreakEntry) :
  existsb (is_open_of type) rbs = false -> end_scan now type rbs = None.
Proof.
  induction rbs as [|b r IH]; simpl; [reflexivity|].
  intros H. apply orb_false_iff in H as [H1 H2].
  unfold is_open_of in H1. rewrite H1, (IH H2). reflexivity.
Qed.

Lemma has_open_rev (type : str) (bs : list BreakEntry) :
  existsb (is_open_of type) (rev bs) = has_open type bs.
Proof.
  unfold has_open. induction bs as [|b r IH]; simpl; [reflexivity|].
  rewrite existsb_app, IH. simpl. rewrite orb_false_r. apply orb_comm.
Qed.

Lemma breaks_start_break (now : Z) (type : str) (w : World) :
  breaks (start_break env now type w) = breaks w ++ [mkBreak type now 0].
Proof. unfold start_break. now rewrite breaks_append_daily_log. Qed.

Lemma breaks_add_random_break (now : Z) (dtype : nat) (dmin : Z) (w : World) :
  breaks (add_random_break env now dtype dmin w)
  = breaks w ++ [mkBreak (nth dtype kBreakTypes []) (now - dmin * 60) now].
Proof. unfold add_random_break. now rewrite breaks_append_daily_log. Qed.

(** What [end_last_break_of_type] does to the list: nothing, or the end of
    one open entry of the category becomes [now]. *)
Lemma end_scan_some (now : Z) (type : str) (rbs : list BreakEntry) c r' :
  end_scan now type rbs = Some (c, r') ->
  exists pre it post,
    rbs = pre ++ it :: post /\ is_open_of type it = true
    /\ existsb (is_open_of type) pre = false
    /\ c = mkBreak (brk_type it) (brk_start it) now
    /\ r' = pre ++ c :: post.
Proof.
  revert c r'. induction rbs as [|b r IH]; simpl; intros c r'; [discriminate|].
  destruct (Str.eqb (brk_type b) type && (brk_end b =? 0)) eqn:E.
  - intros [= <- <-]. exists [], b, r. simpl. auto.
  - destruct (end_scan now type r) as [[c0 r0]|] eqn:S; [|discriminate].
    intros [= <- <-].
    destruct (IH _ _ eq_refl) as (pre & it & post & -> & Ho & Hp & -> & ->).
    exists (b :: pre), it, post. simpl. unfold is_open_of at 2. rewrite E.
    auto.
Qed.

(** C4: two [start_break "Coffee"] and one [end_last_break_of_type "Coffee"]
    close the second, most recently started entry and leave the first one
    open (the clock does not read 0, the value that marks an open entry);
    and in a state [w'] without an open entry of the category the call leaves
    the breaks as they are and appends a BREAK_WARN event: the function
    returns a state, there is no error result. *)
Theorem break_pairing_and_warning
  (w w' : World) (n1 n2 n3 now : Z) (type : str) :
  n3 <> 0 ->
  has_open type (breaks w') = false ->
  (let coffee := lit "Coffee" in
   breaks (end_last_break_of_type env n3 coffee
             (start_break env n2 coffee (start_break env n1 coffee w)))
   = breaks w ++ [mkBreak coffee n1 0; mkBreak coffee n2 n3]
   /\ is_open_of coffee (mkBreak coffee n1 0) = true
   /\ is_open_of coffee (mkBreak coffee n2 n3) = false)
  /\ breaks (end_last_break_of_type env now type w') = breaks w'
  /\ dailyLogs (end_last_break_of_type env now type w')
     = dailyLogs w'
       ++ [mkLog now (lit "BREAK_WARN")
             (lit "Tried to end break but none active: " ++ type)].
Proof.
  intros Hn3 Hno. split; [|split].
  - cbv zeta. split; [|split].
    + unfold end_last_break_of_type.
      rewrite !breaks_start_break, <- app_assoc. simpl app.
      rewrite rev_app_distr. simpl.
      rewrite breaks_append_daily_log. simpl.
      rewrite rev_involutive, <- app_assoc. reflexivity.
    + reflexivity.
    + unfold is_open_of. simpl. apply Z.eqb_neq in Hn3. now rewrite Hn3.
  - unfold end_last_break_of_type.
    rewrite end_scan_none by now rewrite has_open_rev.
    apply breaks_append_daily_log.
  - unfold end_last_break_of_type.
    rewrite end_scan_none by now rewrite has_open_rev.
    apply dailyLogs_append_daily_log.
Qed.

End Breaks.

Lemma break_pairing_and_warning_witness :
  breaks (end_last_break_of_type env_utc 1704153603 (lit "Coffee")
            (start_break env_utc 1704153602 (lit "Coffee")
               (start_break env_utc 1704153601 (lit "Coffee") world_empty)))
  = [mkBreak (lit "Coffee") 1704153601 0;
     mkBreak (lit "Coffee") 1704153602 1704153603]
  /\ breaks (end_last_break_of_type env_utc 1704153604 (lit "Lunch")
               world_empty) = [].
Proof.
  pose proof (break_pairing_and_warning env_utc world_empty world_empty
                1704153601 1704153602 1704153603 1704153604 (lit "Lunch")) as H.
  destruct H as [[H1 _] [H2 _]]; [lia | reflexivity |].
  split; [exact H1 | exact H2].
Defined.

(** ** The invariant of the break list *)

Section BreakInvariant.

Variable env : Env.

Lemma breaks_inv_mono (t t' : Z) (bs : list BreakEntry) :
  t <= t' -> breaks_inv t bs -> breaks_inv t' bs.
Proof.
  intros Ht H. unfold breaks_inv in *.
  eapply Forall_impl; [|exact H]. simpl. intros b [Hs Hb]. split; [lia|exact Hb].
Qed.

Lemma breaks_inv_end (t now : Z) (type : str) (w : World) :
  t <= now -> breaks_inv t (breaks w) ->
  breaks_inv now (breaks (end_last_break_of_type env now type w)).
Proof.
  intros Ht H. unfold end_last_break_of_type.
  destruct (end_scan now type (rev (breaks w))) as [[c r']|] eqn:E.
  - rewrite breaks_append_daily_log. simpl.
    apply end_scan_some in E as (pre & it & post & Hrev & _ & _ & -> & ->).
    assert (Hall : breaks_inv t (pre ++ it :: post)).
    { rewrite <- Hrev. unfold breaks_inv. apply Forall_rev. exact H. }
    unfold breaks_inv in *. apply Forall_rev.
    apply Forall_app in Hall as [Hpre Hpost].
    apply Forall_app. split.
    + eapply Forall_impl; [|exact Hpre]. simpl. intros b [Hs Hb].
      split; [lia|exact Hb].
    + inversion Hpost as [|? ? [Hs _] Hpost']; subst. constructor.
      * unfold break_ok. simpl. split; [lia|right; lia].
      * eapply Forall_impl; [|exact Hpost']. simpl. intros b [Hs' Hb].
        split; [lia|exact Hb].
  - rewrite breaks_append_daily_log. eapply breaks_inv_mono; eassumption.
Qed.

Lemma breaks_inv_step (t now : Z) (op : BreakOp) (w : World) :
  t <= now -> break_op_wf op -> breaks_inv t (breaks w) ->
  breaks_inv now (breaks (run_break_op env now op w)).
Proof.
  intros Ht Hwf H. destruct op as [type|type|dtype dmin]; simpl.
  - rewrite breaks_start_break. apply Forall_app. split.
    + eapply breaks_inv_mono; eassumption.
    + constructor; [|constructor]. unfold break_ok. simpl. split; [lia|now left].
  - eapply breaks_inv_end; eassumption.
  - rewrite breaks_add_random_break. apply Forall_app. split.
    + eapply breaks_inv_mono; eassumption.
    + constructor; [|constructor]. unfold break_ok. simpl. simpl in Hwf.
      split; [lia|right; lia].
Qed.

Lemma breaks_inv_run (ops : list (Z * BreakOp)) (t : Z) (w : World) :
  clock_monotone t (map fst ops) ->
  Forall (fun o => break_op_wf (snd o)) ops ->
  breaks_inv t (breaks w) ->
  Forall break_ok (breaks (run_break_ops env ops w)).
Proof.
  revert t w. induction ops as [|[now op] ops IH]; intros t w Hc Hwf H; simpl.
  - eapply Forall_impl; [|exact H]. simpl. now intros b [_ Hb].
  - simpl in Hc. destruct Hc as [Ht Hc]. inversion Hwf as [|? ? Hop Hwf']; subst.
    eapply IH; [exact Hc | exact Hwf' |].
    eapply breaks_inv_step; eassumption.
Qed.

(** C9: starting with no breaks (the program start, or Clear-All), after any
    run of [start_break], [end_last_break_of_type] and [add_random_break]
    whose clock readings never decrease, every entry of [breaks] is open
    ([end = 0]) or has [start <= end]. *)
Theorem break_entries_end_after_start
  (ops : list (Z * BreakOp)) (t0 : Z) (w : World) :
  breaks w = [] ->
  clock_monotone t0 (map fst ops) ->
  Forall (fun o => break_op_wf (snd o)) ops ->
  Forall break_ok (breaks (run_break_ops env ops w)).
Proof.
  intros Hw Hc Hwf. eapply breaks_inv_run; [exact Hc | exact Hwf |].
  rewrite Hw. constructor.
Qed.

End BreakInvariant.

Lemma break_entries_end_after_start_witness :
  Forall break_ok
    (breaks (run_break_ops env_utc
               [(1704153601, StartBreak (lit "Coffee"));
                (1704153601, RandomBreak 2 20);
                (1704153700, EndMostRecentOpen (lit "Coffee"))]
               world_empty)).
Proof.
  apply (break_entries_end_after_start env_utc _ 1704153600).
  - reflexivity.
  - simpl. lia.
  - repeat constructor; simpl; lia.
Defined.

(** ** Calendar arithmetic *)

Lemma all_from_spec (fuel : nat) (i : Z) (p : Z -> bool) :
  all_from fuel i p = true ->
  forall k, i <= k < i + Z.of_nat fuel -> p k = true.
Proof.
  revert i. induction fuel as [|f IH]; intros i H k Hk; [lia|].
  simpl in H. destruct (p i) eqn:Hp; [|discriminate].
  destruct (Z.eq_dec k i) as [->|Hne]; [exact Hp|].
  apply (IH (i + 1) H). lia.
Qed.

Lemma civil_of_doe_checked :
  all_from (Z.to_nat 146097) 0 civil_of_doe_check = true.
Proof. vm_cast_no_check (eq_refl true). Qed.

Lemma civil_of_doe_era (era doe : Z) :
  civil_of_doe era doe
  = let '(y, m, d) := civil_of_doe 0 doe in (y + era * 400, m, d).
Proof.
  unfold civil_of_doe. cbv zeta.
  rewrite Z.mul_0_l, Z.add_0_r.
  match goal with |- context [if ?b then _ else _] => destruct b end;
    f_equal; f_equal; lia.
Qed.

Lemma days_from_civil_era (y m d era : Z) :
  days_from_civil (y + era * 400) m d = days_from_civil y m d + era * 146097.
Proof.
  unfold days_from_civil. cbv zeta.
  assert (E : forall u, u + era * 400 - (u + era * 400) / 400 * 400
                       = u - u / 400 * 400).
  { intros u. rewrite Z.div_add by lia. lia. }
  destruct (m <=? 2).
  - replace (y + era * 400 - 1) with (y - 1 + era * 400) by lia.
    rewrite E, Z.div_add by lia. lia.
  - rewrite E, Z.div_add by lia. lia.
Qed.

Lemma days_from_civil_day (y m d : Z) :
  days_from_civil y m 1 + (d - 1) = days_from_civil y m d.
Proof. unfold days_from_civil. cbv zeta. lia. Qed.

(** The date of a day number determines the day number, and has a month in
    1..12 and a day in 1..31. *)
Lemma civil_from_days_inv (z : Z) :
  let '(y, m, d) := civil_from_days z in
  days_from_civil y m d = z /\ 1 <= m <= 12 /\ 1 <= d <= 31.
Proof.
  unfold civil_from_days. cbv zeta.
  set (z' := z + 719468).
  rewrite civil_of_doe_era.
  assert (Hr : 0 <= z' mod 146097 < 146097) by (apply Z.mod_pos_bound; lia).
  pose proof (all_from_spec _ _ _ civil_of_doe_checked (z' mod 146097)) as H.
  rewrite Z2Nat.id in H by lia. specialize (H ltac:(lia)).
  unfold civil_of_doe_check in H.
  destruct (civil_of_doe 0 (z' mod 146097)) as [[y m] d].
  repeat (apply andb_true_iff in H as [H ?]).
  rewrite days_from_civil_era.
  pose proof (Z.div_mod z' 146097 ltac:(lia)).
  split; [|lia]. apply Z.eqb_eq in H. subst z'. lia.
Qed.

Lemma civil_from_days_inj (a b : Z) :
  civil_from_days a = civil_from_days b -> a = b.
Proof.
  intros H. pose proof (civil_from_days_inv a) as Ha.
  pose proof (civil_from_days_inv b) as Hb. rewrite H in Ha.
  destruct (civil_from_days b) as [[y m] d]. lia.
Qed.

Lemma mktime_zone (tz : Z) (b : tm) : mktime tz b = mktime 0 b - tz.
Proof. unfold mktime. lia. Qed.

Lemma localtime_mktime (tz : Z) (b : tm) :
  localtime_r tz (mktime tz b) = gmtime_r (mktime 0 b).
Proof. unfold localtime_r, mktime. f_equal. lia. Qed.

(** ** Exports *)

Section Exports.

Variable env : Env.

Lemma hourly_fold (now : Z) (logs : list DailyLog) (acc : str) :
  fold_left (hourly_step env now) logs acc
  = acc ++ List.concat (map (export_line env now) (hourly_selected env now logs)).
Proof.
  revert acc. induction logs as [|d logs IH]; intros acc; simpl.
  - now rewrite app_nil_r.
  - rewrite IH. unfold hourly_step, is_hourly.
    destruct (Str.eqb (log_type d) HOURLY
              && is_same_local_day env now (log_ts d)); simpl.
    + unfold export_line. now rewrite <- !app_assoc.
    + reflexivity.
Qed.

Lemma weekly_fold (now : Z) (logs : list DailyLog) (acc : str * str) :
  fold_left (weekly_step env now (now - week_seconds)) logs acc
  = (fst acc ++ List.concat (map (export_line env now) (weekly_selected now logs)),
     snd acc
     ++ List.concat (map jsonl_line (filter is_hourly (weekly_selected now logs)))).
Proof.
  revert acc. induction logs as [|d logs IH]; intros [h j].
  - cbn. now rewrite !app_nil_r.
  - cbn [fold_left]. rewrite IH. unfold weekly_selected at 3 4.
    cbn [filter]. fold (weekly_selected now logs).
    unfold weekly_step. change week_seconds with 604800.
    change (7 * 24 * 60 * 60) with 604800.
    rewrite (Z.leb_antisym (log_ts d)).
    destruct (log_ts d <? now - 604800); cbn [negb]; [reflexivity|].
    cbn [filter]. unfold is_hourly at 2.
    destruct (Str.eqb (log_type d) HOURLY);
      cbn [fst snd map List.concat]; unfold export_line, jsonl_line;
      now rewrite <- !app_assoc.
Qed.

Lemma weekly_selected_app (now : Z) (a b : list DailyLog) :
  weekly_selected now (a ++ b) = weekly_selected now a ++ weekly_selected now b.
Proof. apply filter_app. Qed.

Lemma same_local_day_fields (a b : Z) :
  is_same_local_day env a b = true
  <-> tm_year (localtime_r (env_tz env) a) = tm_year (localtime_r (env_tz env) b)
      /\ tm_mon (localtime_r (env_tz env) a) = tm_mon (localtime_r (env_tz env) b)
      /\ tm_mday (localtime_r (env_tz env) a)
         = tm_mday (localtime_r (env_tz env) b).
Proof.
  unfold is_same_local_day. rewrite !andb_true_iff, !Z.eqb_eq. tauto.
Qed.

(** Two instants of one local calendar day have the same local day number. *)
Lemma same_local_day_number (a b : Z) :
  is_same_local_day env a b = true ->
  (a + env_tz env) / 86400 = (b + env_tz env) / 86400.
Proof.
  intros H. apply same_local_day_fields in H. revert H.
  unfold localtime_r, gmtime_r.
  destruct (civil_from_days ((a + env_tz env) / 86400)) as [[y m] d] eqn:Ea.
  destruct (civil_from_days ((b + env_tz env) / 86400)) as [[y' m'] d'] eqn:Eb.
  simpl. intros (Hy & Hm & Hd).
  apply civil_from_days_inj. rewrite Ea, Eb. f_equal; [f_equal|]; lia.
Qed.

Lemma before_midnight_other_day (text : str) :
  is_same_local_day env (noon_after env) (log_ts (before_midnight env text))
  = false.
Proof.
  unfold is_same_local_day, noon_after, before_midnight, log_ts.
  rewrite !localtime_mktime. reflexivity.
Qed.

Lemma after_midnight_same_day (text : str) :
  is_same_local_day env (noon_after env) (log_ts (after_midnight env text))
  = true.
Proof.
  unfold is_same_local_day, noon_after, after_midnight, log_ts.
  rewrite !localtime_mktime. reflexivity.
Qed.

Lemma export_hourly_nothing (now : Z) (w : World) :
  hourly_selected env now (dailyLogs w) = [] ->
  export_hourly_logs_today env now w = ([], w).
Proof.
  intros H. unfold export_hourly_logs_today.
  destruct (is_empty (dailyLogs w)); [reflexivity|].
  rewrite (hourly_fold _ _ []), H. reflexivity.
Qed.

(** C7: on an empty event log both exports return the empty path and leave
    the world, so also its files, as it is; so does the hourly export on a
    log without an HOURLY event of today.  The buttons that call them then
    log no EXPORT event and change nothing: to the callers the empty path
    means that there was nothing to export. *)
Theorem exports_with_nothing_to_export (now : Z) (w1 w2 : World) :
  dailyLogs w1 = [] ->
  hourly_selected env now (dailyLogs w2) = [] ->
  (export_hourly_logs_today env now w1 = ([], w1)
   /\ export_weekly_logs_file env now w1 = ([], w1)
   /\ on_export_hourly_today env now w1 = w1
   /\ on_export_weekly_logs env now w1 = w1)
  /\ export_hourly_logs_today env now w2 = ([], w2)
  /\ on_export_hourly_today env now w2 = w2.
Proof.
  intros H1 H2.
  assert (A : export_hourly_logs_today env now w1 = ([], w1)).
  { unfold export_hourly_logs_today. now rewrite H1. }
  assert (B : export_weekly_logs_file env now w1 = ([], w1)).
  { unfold export_weekly_logs_file. now rewrite H1. }
  pose proof (export_hourly_nothing now w2 H2) as C.
  unfold on_export_hourly_today, on_export_weekly_logs.
  rewrite A, B, C. simpl. auto.
Qed.

End Exports.

Lemma exports_with_nothing_to_export_witness :
  export_hourly_logs_today env_utc 1704196800 world_empty = ([], world_empty)
  /\ export_hourly_logs_today env_utc 1704196800 world_with_files
     = ([], world_with_files).
Proof.
  pose proof (exports_with_nothing_to_export env_utc 1704196800 world_empty
                world_with_files) as H.
  destruct H as [[H1 _] [H2 _]]; [reflexivity | vm_compute; reflexivity |].
  split; [exact H1 | exact H2].
Defined.

(** ** Digits and padding *)

Lemma digit_char_val (a : Z) :
  0 <= a <= 9 -> digit_val (digit_char a) = Some a.
Proof.
  intros H.
  assert (C : a = 0 \/ a = 1 \/ a = 2 \/ a = 3 \/ a = 4 \/ a = 5 \/ a = 6
              \/ a = 7 \/ a = 8 \/ a = 9) by lia.
  repeat (destruct C as [->|C]; [reflexivity|]). now subst.
Qed.

Lemma digit_char_is_digit (a : Z) :
  0 <= a <= 9 -> is_digit (digit_char a) = true.
Proof. intros H. unfold is_digit. now rewrite digit_char_val. Qed.

(** What a digit is not. *)
Lemma is_digit_not (c : ascii) :
  is_digit c = true ->
  isspace c = false /\ Ascii.eqb c "-" = false /\ Ascii.eqb c "+" = false
  /\ Ascii.eqb c NL = false /\ Ascii.eqb c NUL = false
  /\ Ascii.eqb c ":" = false /\ Ascii.eqb c " " = false
  /\ Ascii.eqb c "(" = false.
Proof.
  destruct c as [b0 b1 b2 b3 b4 b5 b6 b7].
  destruct b0, b1, b2, b3, b4, b5, b6, b7; intros H;
    try discriminate H; repeat split.
Qed.

Lemma forallb_impl {A} (p q : A -> bool) (l : list A) :
  (forall x, p x = true -> q x = true) ->
  forallb p l = true -> forallb q l = true.
Proof.
  intros Hpq. induction l as [|x l IH]; simpl; [reflexivity|].
  intros H. apply andb_true_iff in H as [H1 H2].
  now rewrite (Hpq _ H1), (IH H2).
Qed.

Lemma dec_digits_forall (p : ascii -> bool) (f : nat) (n : Z) (acc : str) :
  (forall a, 0 <= a <= 9 -> p (digit_char a) = true) ->
  forallb p acc = true -> forallb p (dec_digits f n acc) = true.
Proof.
  intros Hp. revert n acc. induction f as [|f IH]; intros n acc Hacc; simpl.
  - exact Hacc.
  - assert (Hd : forallb p (digit_char (n mod 10) :: acc) = true).
    { simpl. rewrite Hacc, Hp; [reflexivity|].
      pose proof (Z.mod_pos_bound n 10). lia. }
    destruct (n / 10 =? 0); [exact Hd|]. now apply IH.
Qed.

Lemma zero_pad_forall (p : ascii -> bool) (w : nat) (s : str) :
  p "0"%char = true -> forallb p s = true -> forallb p (zero_pad w s) = true.
Proof.
  intros H0 Hs. unfold zero_pad. rewrite forallb_app, Hs, andb_true_r.
  induction (w - List.length s)%nat as [|k IH]; cbn; [reflexivity|].
  now rewrite H0, IH.
Qed.

Lemma pad_num_forall (p : ascii -> bool) (w : nat) (n : Z) :
  (forall a, 0 <= a <= 9 -> p (digit_char a) = true) ->
  p "-"%char = true ->
  forallb p (pad_num w n) = true.
Proof.
  intros Hp Hm. unfold pad_num, dec_of_nonneg.
  assert (H0 : p "0"%char = true) by (apply (Hp 0); lia).
  destruct (n <? 0).
  - cbn [forallb]. rewrite Hm. cbn [andb].
    apply zero_pad_forall; [exact H0|]. now apply dec_digits_forall.
  - apply zero_pad_forall; [exact H0|]. now apply dec_digits_forall.
Qed.

Lemma pad_num_no_nul (w : nat) (n : Z) : no_nul (pad_num w n) = true.
Proof.
  apply pad_num_forall; [|reflexivity].
  intros a Ha.
  now rewrite (proj1 (proj2 (proj2 (proj2 (proj2
                 (is_digit_not _ (digit_char_is_digit a Ha))))))).
Qed.

Lemma no_nul_app (a b : str) : no_nul (a ++ b) = no_nul a && no_nul b.
Proof. apply forallb_app. Qed.

Lemma c_str_no_nul (s : str) : no_nul s = true -> Str.c_str s = s.
Proof.
  induction s as [|c s IH]; simpl; [reflexivity|].
  intros H. apply andb_true_iff in H as [H1 H2].
  apply negb_true_iff in H1. rewrite H1. now rewrite IH.
Qed.

Lemma strftime_local_no_nul (b : tm) : no_nul (strftime_local b) = true.
Proof.
  unfold strftime_local. rewrite !no_nul_app, !pad_num_no_nul. reflexivity.
Qed.

(** ** The weekly export of a log that is older than a week *)

Section OldLog.

Variable env : Env.

Lemma format_time_local_no_nul (t : Z) :
  no_nul (format_time_local env t) = true.
Proof.
  unfold format_time_local.
  destruct (t =? 0); [reflexivity | apply strftime_local_no_nul].
Qed.

Lemma weekly_frame_no_nul (now : Z) :
  no_nul (weekly_header env now ++ JSONL_DELIMITER ++ [] ++ END_DELIMITER)
  = true.
Proof.
  unfold weekly_header. rewrite !no_nul_app, format_time_local_no_nul.
  reflexivity.
Qed.

Lemma path_in_data_nonempty (filename : str) :
  filename <> [] -> path_in_data env filename <> [].
Proof.
  intros H. unfold path_in_data.
  destruct (negb (ensure_dir_exists env (user_data_dir env))); [exact H|].
  intros E. apply app_eq_nil in E as [_ E]. discriminate E.
Qed.

Lemma old_events_not_selected (now : Z) (logs : list DailyLog) :
  Forall (fun d => log_ts d < now - 7 * 24 * 3600) logs ->
  weekly_selected now logs = [] /\ hourly_selected env now logs = [].
Proof.
  induction 1 as [|d logs Hd _ [IHw IHh]]; [split; reflexivity|].
  unfold weekly_selected, hourly_selected in *. cbn [filter].
  rewrite IHw, IHh.
  replace (now - 7 * 24 * 60 * 60 <=? log_ts d) with false
    by (symmetry; apply Z.leb_gt; lia).
  destruct (is_same_local_day env now (log_ts d)) eqn:E.
  - apply same_local_day_number in E. exfalso.
    pose proof (Z.div_le_mono (log_ts d + env_tz env)
                  (now + env_tz env - 7 * 86400) 86400 ltac:(lia) ltac:(lia))
      as Hle.
    replace (now + env_tz env - 7 * 86400)
      with (now + env_tz env + (- 7) * 86400) in Hle by lia.
    rewrite Z.div_add in Hle by lia. lia.
  - rewrite andb_false_r. split; reflexivity.
Qed.

(** C10: when the log is not empty and every event is older than
    [now - 7*24h], and the export file can be opened, [export_weekly_logs_file]
    returns the non-empty path of the file and writes the header, the JSONL
    delimiter and the end delimiter with nothing between them, while
    [export_hourly_logs_today] returns the empty path and writes nothing. *)
Theorem weekly_export_of_old_events (now : Z) (w : World) :
  dailyLogs w <> [] ->
  Forall (fun d => log_ts d < now - 7 * 24 * 3600) (dailyLogs w) ->
  env_can_write env (export_path env now (lit "weekly_logs_export")) = true ->
  export_weekly_logs_file env now w
  = (export_path env now (lit "weekly_logs_export"),
     set_files w
       (fs_write (export_path env now (lit "weekly_logs_export"))
          (weekly_header env now ++ JSONL_DELIMITER ++ END_DELIMITER ++ [NL])
          (files w)))
  /\ export_path env now (lit "weekly_logs_export") <> []
  /\ export_hourly_logs_today env now w = ([], w).
Proof.
  intros Hne Hold Hopen.
  destruct (old_events_not_selected now _ Hold) as [Hw Hh].
  split; [|split].
  - unfold export_weekly_logs_file.
    destruct (dailyLogs w) as [|d0 logs] eqn:El; [now elim Hne|].
    cbn [is_empty]. unfold weekly_content, weekly_sections.
    rewrite weekly_fold, Hw. cbn [fst snd map filter List.concat].
    rewrite !app_nil_r.
    rewrite (c_str_no_nul _ (weekly_frame_no_nul now)).
    unfold export_text_to_file. fold (export_path env now (lit "weekly_logs_export")).
    rewrite Hopen. cbn [negb app]. now rewrite <- !app_assoc.
  - apply path_in_data_nonempty. discriminate.
  - now apply export_hourly_nothing.
Qed.

End OldLog.

Lemma weekly_export_of_old_events_witness :
  fst (export_weekly_logs_file env_utc 1704844800 world_with_files)
  = lit "/home/user/.productivity_tracker/weekly_logs_export_20240110_000000.txt".
Proof.
  pose proof (weekly_export_of_old_events env_utc 1704844800 world_with_files)
    as H.
  destruct H as [H _].
  - discriminate.
  - repeat constructor.
  - reflexivity.
  - rewrite H. reflexivity.
Defined.

(** ** What the exports write *)

Lemma c_str_has_no_nul (s : str) : no_nul (Str.c_str s) = true.
Proof.
  induction s as [|c s IH]; [reflexivity|]. cbn [Str.c_str].
  destruct (Ascii.eqb c NUL) eqn:E; [reflexivity|].
  cbn [no_nul forallb]. rewrite E. exact IH.
Qed.

Lemma json_escape_no_nul (s : str) :
  no_nul s = true -> no_nul (json_escape s) = true.
Proof.
  induction s as [|c s IH]; [reflexivity|].
  cbn [no_nul forallb]. intros H. apply andb_true_iff in H as [Hc Hs].
  rewrite json_escape_cons, no_nul_app, (IH Hs), andb_true_r.
  unfold json_escape, json_escape_char. cbn [fold_left app].
  destruct (Ascii.eqb c BACKSLASH); [reflexivity|].
  destruct (Ascii.eqb c DQUOTE); [reflexivity|].
  destruct (Ascii.eqb c NL); [reflexivity|].
  destruct (Ascii.eqb c CR); [reflexivity|].
  destruct (Ascii.eqb c TAB); [reflexivity|].
  cbn [no_nul forallb]. now rewrite Hc.
Qed.

Lemma format_iso_time_no_nul (t : Z) : no_nul (format_iso_time t) = true.
Proof.
  unfold format_iso_time. destruct (t =? 0); [reflexivity|].
  unfold strftime_iso. rewrite !no_nul_app, !pad_num_no_nul. reflexivity.
Qed.

Lemma no_nul_concat {A : Type} (f : A -> str) (l : list A) :
  Forall (fun x => no_nul (f x) = true) l ->
  no_nul (List.concat (map f l)) = true.
Proof.
  induction 1 as [|x l Hx _ IH]; [reflexivity|].
  cbn [map List.concat]. now rewrite no_nul_app, Hx, IH.
Qed.

Section ExportFiles.

Variable env : Env.

Lemma export_line_no_nul (now : Z) (d : DailyLog) :
  no_nul (log_text d) = true -> no_nul (export_line env now d) = true.
Proof.
  intros H. unfold export_line, human_log_line.
  now rewrite !no_nul_app, format_time_local_no_nul, c_str_has_no_nul, H.
Qed.

Lemma jsonl_line_no_nul (d : DailyLog) :
  no_nul (log_text d) = true -> no_nul (jsonl_line d) = true.
Proof.
  intros H. unfold jsonl_line, jsonl_entry.
  rewrite !no_nul_app, (json_escape_no_nul _ H),
    (json_escape_no_nul _ (format_iso_time_no_nul _)).
  reflexivity.
Qed.

Lemma texts_no_nul_filter (f : DailyLog -> bool) (logs : list DailyLog) :
  texts_no_nul logs -> texts_no_nul (filter f logs).
Proof.
  unfold texts_no_nul. rewrite !Forall_forall. intros H d Hd.
  apply filter_In in Hd. now apply H.
Qed.

(** The weekly export of a log that is not empty, when the file can be
    opened and no text that is written has a NUL character. *)
Lemma export_weekly_file (now : Z) (w : World) :
  env_can_write env (export_path env now (lit "weekly_logs_export")) = true ->
  dailyLogs w <> [] ->
  texts_no_nul (weekly_selected now (dailyLogs w)) ->
  export_weekly_logs_file env now w
  = (export_path env now (lit "weekly_logs_export"),
     set_files w
       (fs_write (export_path env now (lit "weekly_logs_export"))
          (weekly_file env now (weekly_selected now (dailyLogs w)))
          (files w))).
Proof.
  intros Hopen Hne Hn. unfold export_weekly_logs_file.
  destruct (dailyLogs w) as [|d0 logs] eqn:El; [now elim Hne|].
  cbn [is_empty]. unfold weekly_content, weekly_sections.
  rewrite weekly_fold. cbn [fst snd app].
  set (kept := weekly_selected now (d0 :: logs)) in *.
  rewrite c_str_no_nul.
  - unfold export_text_to_file.
    fold (export_path env now (lit "weekly_logs_export")).
    rewrite Hopen. cbn [negb]. unfold weekly_file.
    now rewrite <- !app_assoc.
  - rewrite !no_nul_app.
    rewrite (no_nul_concat (export_line env now) kept),
      (no_nul_concat jsonl_line (filter is_hourly kept)).
    + unfold weekly_header. rewrite !no_nul_app, format_time_local_no_nul.
      reflexivity.
    + generalize (texts_no_nul_filter is_hourly _ Hn). apply Forall_impl.
      intros d. apply jsonl_line_no_nul.
    + revert Hn. apply Forall_impl. intros d. apply export_line_no_nul.
Qed.

(** C5, as the code has it: when the file can be opened and no text that is
    written has a NUL character, the file that [export_weekly_logs_file]
    writes holds, after the header, the lines of the events with
    [ts >= now - 7*24*60*60] in store order and, in the JSONL section, the
    objects of the HOURLY ones among them.  An event stamped exactly
    [now - 7*24h] has its line in the file, wherever it stands in the log;
    an event stamped a second earlier adds nothing to the file, which then
    holds the lines of the other events kept. *)
Theorem weekly_filter_boundary
  (now : Z) (w : World) (pre post : list DailyLog) (kind text : str) :
  env_can_write env (export_path env now (lit "weekly_logs_export")) = true ->
  texts_no_nul (weekly_selected now (pre ++ post)) ->
  no_nul text = true ->
  let at_cutoff := mkLog (now - 7 * 24 * 3600) kind text in
  let older := mkLog (now - 7 * 24 * 3600 - 1) kind text in
  let path := export_path env now (lit "weekly_logs_export") in
  export_weekly_logs_file env now (set_logs w (pre ++ at_cutoff :: post))
  = (path,
     set_files (set_logs w (pre ++ at_cutoff :: post))
       (fs_write path
          (weekly_file env now
             (weekly_selected now pre ++ at_cutoff :: weekly_selected now post))
          (files w)))
  /\ export_weekly_logs_file env now (set_logs w (pre ++ older :: post))
     = (path,
        set_files (set_logs w (pre ++ older :: post))
          (fs_write path
             (weekly_file env now
                (weekly_selected now pre ++ weekly_selected now post))
             (files w))).
Proof.
  intros Hopen Hn Ht at_cutoff older path.
  rewrite weekly_selected_app in Hn. apply Forall_app in Hn as [Hpre Hpost].
  assert (Ein : weekly_selected now (pre ++ at_cutoff :: post)
                = weekly_selected now pre
                  ++ at_cutoff :: weekly_selected now post).
  { rewrite weekly_selected_app. f_equal. unfold weekly_selected.
    cbn [filter at_cutoff log_ts].
    replace (now - 7 * 24 * 60 * 60 <=? now - 7 * 24 * 3600) with true
      by (symmetry; apply Z.leb_le; lia).
    reflexivity. }
  assert (Eout : weekly_selected now (pre ++ older :: post)
                 = weekly_selected now pre ++ weekly_selected now post).
  { rewrite weekly_selected_app. f_equal. unfold weekly_selected.
    cbn [filter older log_ts].
    replace (now - 7 * 24 * 60 * 60 <=? now - 7 * 24 * 3600 - 1) with false
      by (symmetry; apply Z.leb_gt; lia).
    reflexivity. }
  split.
  - rewrite <- Ein. apply (export_weekly_file now (set_logs w _) Hopen).
    + cbn [dailyLogs set_logs]. now destruct pre.
    + cbn [dailyLogs set_logs]. rewrite Ein. unfold texts_no_nul.
      apply Forall_app. split; [exact Hpre|]. now constructor.
  - rewrite <- Eout. apply (export_weekly_file now (set_logs w _) Hopen).
    + cbn [dailyLogs set_logs]. now destruct pre.
    + cbn [dailyLogs set_logs]. rewrite Eout. unfold texts_no_nul.
      apply Forall_app. now split.
Qed.

(** The hourly export when the file can be opened and no text that is
    written has a NUL character. *)
Lemma export_hourly_file (now : Z) (w : World) :
  env_can_write env (export_path env now (lit "hourly_logs_today")) = true ->
  texts_no_nul (hourly_selected env now (dailyLogs w)) ->
  export_hourly_logs_today env now w
  = (if is_empty (hourly_selected env now (dailyLogs w)) then ([], w)
     else
       (export_path env now (lit "hourly_logs_today"),
        set_files w
          (fs_write (export_path env now (lit "hourly_logs_today"))
             (hourly_file env now (hourly_selected env now (dailyLogs w)))
             (files w)))).
Proof.
  intros Hopen Hn. unfold export_hourly_logs_today.
  rewrite (hourly_fold _ _ _ []). cbn [app].
  destruct (dailyLogs w) as [|d0 logs]; [reflexivity|]. cbn [is_empty].
  set (kept := hourly_selected env now (d0 :: logs)) in *.
  assert (Hc : no_nul (List.concat (map (export_line env now) kept)) = true).
  { apply no_nul_concat. revert Hn. apply Forall_impl.
    intros d. apply export_line_no_nul. }
  rewrite (c_str_no_nul _ Hc).
  destruct kept as [|d1 sel]; [reflexivity|].
  replace (is_empty (List.concat (map (export_line env now) (d1 :: sel))))
    with false
    by (cbn [map List.concat]; unfold export_line at 1, human_log_line;
        now destruct (format_time_local env _)).
  cbn [is_empty]. unfold export_text_to_file.
  fold (export_path env now (lit "hourly_logs_today")).
  rewrite Hopen. reflexivity.
Qed.

(** C6, as the code has it: when the file can be opened and no text that is
    written has a NUL character, the file that [export_hourly_logs_today]
    writes holds exactly the lines of the HOURLY events whose local year,
    month and day of the month are those of [now], in store order, and
    nothing is written when there is none.  With events at
    2024-01-01 23:59:59 and 2024-01-02 00:00:01 local time and
    now = 2024-01-02 12:00:00 the file holds the line of the second one
    only, although the first one is less than 24 hours old. *)
Theorem hourly_export_same_calendar_day
  (now a b : Z) (w : World) (t1 t2 : str) :
  env_can_write env (export_path env now (lit "hourly_logs_today")) = true ->
  env_can_write env
    (export_path env (noon_after env) (lit "hourly_logs_today")) = true ->
  texts_no_nul (hourly_selected env now (dailyLogs w)) ->
  no_nul t2 = true ->
  export_hourly_logs_today env now w
  = (if is_empty (hourly_selected env now (dailyLogs w)) then ([], w)
     else
       (export_path env now (lit "hourly_logs_today"),
        set_files w
          (fs_write (export_path env now (lit "hourly_logs_today"))
             (hourly_file env now (hourly_selected env now (dailyLogs w)))
             (files w))))
  /\ (is_same_local_day env a b = true
      <-> tm_year (localtime_r (env_tz env) a)
          = tm_year (localtime_r (env_tz env) b)
          /\ tm_mon (localtime_r (env_tz env) a)
             = tm_mon (localtime_r (env_tz env) b)
          /\ tm_mday (localtime_r (env_tz env) a)
             = tm_mday (localtime_r (env_tz env) b))
  /\ (let w2 := set_logs w [before_midnight env t1; after_midnight env t2] in
      export_hourly_logs_today env (noon_after env) w2
      = (export_path env (noon_after env) (lit "hourly_logs_today"),
         set_files w2
           (fs_write
              (export_path env (noon_after env) (lit "hourly_logs_today"))
              (export_line env (noon_after env) (after_midnight env t2)
               ++ [NL])
              (files w))))
  /\ noon_after env - log_ts (before_midnight env t1) < 24 * 3600.
Proof.
  intros Hopen Hnoon Hn Ht2.
  assert (Esel : hourly_selected env (noon_after env)
                   [before_midnight env t1; after_midnight env t2]
                 = [after_midnight env t2]).
  { unfold hourly_selected. cbn [filter].
    rewrite before_midnight_other_day, after_midnight_same_day.
    reflexivity. }
  split; [|split; [|split]].
  - now apply export_hourly_file.
  - apply same_local_day_fields.
  - intros w2. rewrite (export_hourly_file (noon_after env) w2 Hnoon).
    + subst w2. cbn [dailyLogs set_logs]. rewrite Esel. cbn [is_empty].
      unfold hourly_file. cbn [map List.concat]. now rewrite app_nil_r.
    + subst w2. cbn [dailyLogs set_logs]. rewrite Esel.
      now repeat constructor.
  - unfold noon_after, before_midnight, log_ts.
    rewrite !(mktime_zone (env_tz env)).
    change (mktime 0 (mk_tm 124 0 2 12 0 0)) with 1704196800.
    change (mktime 0 (mk_tm 124 0 1 23 59 59)) with 1704153599.
    lia.
Qed.

End ExportFiles.

Lemma weekly_filter_boundary_witness :
  let now := 1704790800 in
  let note := mkLog 1704700000 (lit "TASK") (lit "Added task: report") in
  let at_cutoff := mkLog (now - 7 * 24 * 3600) HOURLY (lit "read mail") in
  files
    (snd (export_weekly_logs_file env_utc now
            (set_logs world_empty [at_cutoff; note])))
    (export_path env_utc now (lit "weekly_logs_export"))
  = Some (weekly_file env_utc now [at_cutoff; note]).
Proof.
  cbv zeta.
  destruct (weekly_filter_boundary env_utc 1704790800 world_empty []
              [mkLog 1704700000 (lit "TASK") (lit "Added task: report")]
              HOURLY (lit "read mail") eq_refl) as [H _].
  - unfold texts_no_nul. vm_compute. repeat constructor.
  - reflexivity.
  - cbn [app] in H. rewrite H. vm_compute. reflexivity.
Defined.

(** C5 as it is stated fails for a log that was loaded from a file with a
    NUL character in a text: the content goes to [export_text_to_file] as a
    C string, so the file ends in the text with the NUL, and the event after
    it, stamped exactly [now - 7*24h], has no line in the file although the
    loop has kept it. *)
Lemma weekly_filter_boundary_counterexample :
  let now := 1704186000 + 7 * 24 * 3600 in
  let at_cutoff := mkLog (now - 7 * 24 * 3600) HOURLY (lit "x") in
  let r := export_weekly_logs_file env_utc now world_with_nul in
  dailyLogs world_with_nul
  = [mkLog 1704186000 HOURLY (lit "a" ++ [NUL] ++ lit "b"); at_cutoff]
  /\ weekly_selected now (dailyLogs world_with_nul) = dailyLogs world_with_nul
  /\ fst r
     = lit "/home/user/.productivity_tracker/weekly_logs_export_20240109_090000.txt"
  /\ files (snd r) (fst r)
     = Some (weekly_header env_utc now
             ++ lit "2024-01-02 09:00:00 - HOURLY - a" ++ [NL])
  /\ Str.find (export_line env_utc now at_cutoff)
       (fs_content (files (snd r)) (fst r)) = None.
Proof.
  cbv zeta. repeat split; vm_compute; reflexivity.
Qed.

Lemma hourly_export_same_calendar_day_witness :
  let w2 :=
    set_logs world_empty
      [before_midnight env_utc (lit "late"); after_midnight env_utc (lit "early")] in
  files (snd (export_hourly_logs_today env_utc (noon_after env_utc) w2))
    (export_path env_utc (noon_after env_utc) (lit "hourly_logs_today"))
  = Some (lit "2024-01-02 00:00:01 - HOURLY - early" ++ [NL; NL]).
Proof.
  cbv zeta.
  destruct (hourly_export_same_calendar_day env_utc (noon_after env_utc) 0 0
              world_empty (lit "late") (lit "early") eq_refl eq_refl)
    as (_ & _ & H & _).
  - constructor.
  - reflexivity.
  - cbv zeta in H. rewrite H. vm_compute. reflexivity.
Defined.

(** C6 as it is stated fails for a log that was loaded from a file with a
    NUL character in a text: both events are HOURLY events of the local day
    of [now], and the file holds the line of the first one up to the NUL and
    nothing of the second. *)
Lemma hourly_export_same_calendar_day_counterexample :
  let now := 1704196800 in
  let second := mkLog 1704186000 HOURLY (lit "x") in
  let r := export_hourly_logs_today env_utc now world_with_nul in
  hourly_selected env_utc now (dailyLogs world_with_nul)
  = [mkLog 1704186000 HOURLY (lit "a" ++ [NUL] ++ lit "b"); second]
  /\ fst r
     = lit "/home/user/.productivity_tracker/hourly_logs_today_20240102_120000.txt"
  /\ files (snd r) (fst r)
     = Some (lit "2024-01-02 09:00:00 - HOURLY - a" ++ [NL])
  /\ Str.find (export_line env_utc now second)
       (fs_content (files (snd r)) (fst r)) = None.
Proof.
  cbv zeta. repeat split; vm_compute; reflexivity.
Qed.

(** ** Clear-All *)

(** C1 (the program does not do this): [clearAllData], which is all the
    confirmation button runs, empties the three lists in memory and leaves
    every file as it is: the four core files are still there and no
    [cleared_marker.txt] is written. *)
Theorem clear_all_keeps_the_files :
  let w := on_confirm_clear_all world_with_files in
  dailyLogs w = [] /\ breaks w = [] /\ tasks w = []
  /\ (forall w0, files (on_confirm_clear_all w0) = files w0)
  /\ files w (path_in_data env_utc (lit "daily_logs.txt")) <> None
  /\ files w (path_in_data env_utc (lit "tasks.txt")) <> None
  /\ files w (path_in_data env_utc (lit "daily_status.txt")) <> None
  /\ files w (path_in_data env_utc (lit "weekly_status.txt")) <> None
  /\ files w (path_in_data env_utc (lit "cleared_marker.txt")) = None.
Proof.
  cbv zeta. repeat split; try reflexivity; vm_compute; discriminate.
Qed.

(** ** Searching in strings *)

Lemma find_char_first (c : ascii) (a b : str) :
  forallb (fun x => negb (Ascii.eqb c x)) a = true ->
  Str.find [c] (a ++ c :: b) = Some (List.length a).
Proof.
  induction a as [|x a IH]; intros H.
  - cbn. now rewrite Ascii.eqb_refl.
  - cbn in H. apply andb_true_iff in H as [H1 H2].
    apply negb_true_iff in H1. cbn. rewrite H1. cbn.
    now rewrite (IH H2).
Qed.

Lemma find_none_rfind (pat s : str) :
  Str.find pat s = None -> Str.rfind pat s = None.
Proof.
  induction s as [|c s IH]; cbn.
  - now destruct (Str.starts_with pat []).
  - destruct (Str.starts_with pat (c :: s)); [discriminate|].
    destruct (Str.find pat s); [discriminate|]. now rewrite IH.
Qed.

Lemma rfind_app (pat a t : str) (i : nat) :
  Str.rfind pat t = Some i ->
  Str.rfind pat (a ++ t) = Some (List.length a + i)%nat.
Proof.
  intros H. induction a as [|c a IH]; cbn; [exact H|]. now rewrite IH.
Qed.

Lemma rfind_without_first (c : ascii) (pat s : str) :
  forallb (fun x => negb (Ascii.eqb c x)) s = true ->
  Str.rfind (c :: pat) s = None.
Proof.
  induction s as [|x s IH]; cbn; [reflexivity|].
  intros H. apply andb_true_iff in H as [H1 H2].
  apply negb_true_iff in H1. now rewrite (IH H2), H1.
Qed.

Lemma skipn_app_exact {A} (a b : list A) (k : nat) :
  skipn (List.length a + k) (a ++ b) = skipn k b.
Proof. induction a as [|x a IH]; cbn; [reflexivity|exact IH]. Qed.

Lemma firstn_app_exact {A} (a b : list A) :
  firstn (List.length a) (a ++ b) = a.
Proof. induction a as [|x a IH]; cbn; [reflexivity|now rewrite IH]. Qed.

Lemma getlines_from_line (cur body rest : str) :
  no_nl body = true ->
  Str.getlines_from cur (body ++ NL :: rest)
  = (rev cur ++ body) :: Str.getlines rest.
Proof.
  revert cur. induction body as [|c body IH]; intros cur H.
  - cbn. now rewrite app_nil_r.
  - cbn in H. apply andb_true_iff in H as [H1 H2].
    apply negb_true_iff in H1. cbn [app Str.getlines_from]. rewrite H1.
    rewrite (IH _ H2). cbn [rev]. now rewrite <- app_assoc.
Qed.

(** ** Printing and reading integers *)

Lemma read_dec_digits (f : nat) (n : Z) (acc rest : str) :
  0 <= n < 2 ^ Z.of_nat f ->
  read_digits (dec_digits f n acc ++ rest) 0 = read_digits (acc ++ rest) n.
Proof.
  revert n acc. induction f as [|f IH]; intros n acc Hn.
  - cbn in Hn. cbn. replace n with 0 by lia. reflexivity.
  - rewrite Nat2Z.inj_succ, Z.pow_succ_r in Hn by lia.
    pose proof (Z.mod_pos_bound n 10 ltac:(lia)) as Hm.
    pose proof (Z.div_mod n 10 ltac:(lia)) as Hdm.
    cbn [dec_digits]. destruct (n / 10 =? 0) eqn:E.
    + apply Z.eqb_eq in E. cbn [app read_digits].
      rewrite digit_char_val by lia. f_equal. lia.
    + apply Z.eqb_neq in E. rewrite IH by lia.
      cbn [app read_digits]. rewrite digit_char_val by lia. f_equal. lia.
Qed.

Lemma dec_fuel_enough (n : Z) : 0 <= n -> n < 2 ^ Z.of_nat (dec_fuel n).
Proof.
  intros H. unfold dec_fuel. rewrite Nat2Z.inj_succ, Z2Nat.id
    by apply Z.log2_nonneg.
  destruct (Z.eq_dec n 0) as [->|Hn]; [reflexivity|].
  apply Z.log2_spec. lia.
Qed.

Lemma read_dec_of_nonneg (n : Z) (rest : str) :
  0 <= n -> read_digits (dec_of_nonneg n ++ rest) 0 = read_digits rest n.
Proof.
  intros H. unfold dec_of_nonneg.
  rewrite read_dec_digits by (split; [exact H | now apply dec_fuel_enough]).
  reflexivity.
Qed.

Lemma dec_of_nonneg_digits (n : Z) : forallb is_digit (dec_of_nonneg n) = true.
Proof.
  unfold dec_of_nonneg. apply dec_digits_forall; [|reflexivity].
  apply digit_char_is_digit.
Qed.

Lemma dec_digits_cons (f : nat) (n : Z) (acc : str) :
  acc <> [] -> dec_digits f n acc <> [].
Proof.
  revert n acc. induction f as [|f IH]; intros n acc H; cbn; [exact H|].
  destruct (n / 10 =? 0); [discriminate|]. apply IH. discriminate.
Qed.

Lemma dec_of_nonneg_cons (n : Z) :
  exists d r, dec_of_nonneg n = d :: r /\ is_digit d = true
              /\ forallb is_digit r = true.
Proof.
  pose proof (dec_of_nonneg_digits n) as H.
  destruct (dec_of_nonneg n) as [|d r] eqn:E.
  - exfalso. unfold dec_of_nonneg, dec_fuel in E. cbn [dec_digits] in E.
    destruct (n / 10 =? 0); [discriminate|].
    revert E. apply dec_digits_cons. discriminate.
  - cbn in H. apply andb_true_iff in H as [H1 H2]. now exists d, r.
Qed.

(** [std::stoi] reads back what [operator<<] prints for an [int]. *)
Lemma stoi_dec_of_Z (z : Z) : is_int z -> stoi (dec_of_Z z) = Some z.
Proof.
  unfold is_int, INT_MIN, INT_MAX. intros Hz. unfold stoi, dec_of_Z.
  destruct (z <? 0) eqn:Ez.
  - apply Z.ltb_lt in Ez.
    destruct (dec_of_nonneg_cons (- z)) as (d & r & E & Hd & Hr).
    cbn [Str.drop_while]. change (isspace "-"%char) with false.
    cbn [read_sign]. change (Ascii.eqb "-" "-")%char with true. cbv iota.
    pose proof (read_dec_of_nonneg (- z) [] ltac:(lia)) as R.
    rewrite app_nil_r in R. rewrite E in *.
    unfold is_digit in Hd. destruct (digit_val d); [|discriminate].
    rewrite R. cbn [fst read_digits]. unfold INT_MIN, INT_MAX.
    replace (- - z) with z by lia.
    destruct (Z.leb_spec (-2147483648) z); [|lia].
    destruct (Z.leb_spec z 2147483647); [|lia]. reflexivity.
  - apply Z.ltb_ge in Ez.
    destruct (dec_of_nonneg_cons z) as (d & r & E & Hd & Hr).
    pose proof (read_dec_of_nonneg z [] ltac:(lia)) as R.
    rewrite app_nil_r in R. rewrite E in *.
    destruct (is_digit_not d Hd) as (Hs & Hminus & Hplus & _).
    cbn [Str.drop_while]. rewrite Hs. cbn [read_sign].
    rewrite Hminus, Hplus.
    unfold is_digit in Hd. destruct (digit_val d); [|discriminate].
    rewrite R. cbn [fst read_digits]. unfold INT_MIN, INT_MAX.
    destruct (Z.leb_spec (-2147483648) z); [|lia].
    destruct (Z.leb_spec z 2147483647); [|lia]. reflexivity.
Qed.

(** ** One line of tasks.txt *)

Lemma dec_of_Z_nat (i : nat) :
  dec_of_Z (Z.of_nat i) = dec_of_nonneg (Z.of_nat i).
Proof.
  unfold dec_of_Z. destruct (Z.ltb_spec (Z.of_nat i) 0); [lia|reflexivity].
Qed.

Lemma dec_of_Z_chars (p : ascii -> bool) (z : Z) :
  (forall c, is_digit c = true -> p c = true) -> p "-"%char = true ->
  forallb p (dec_of_Z z) = true.
Proof.
  intros Hd Hm. unfold dec_of_Z. destruct (z <? 0).
  - cbn [forallb]. rewrite Hm. cbn [andb].
    eapply forallb_impl; [exact Hd|apply dec_of_nonneg_digits].
  - eapply forallb_impl; [exact Hd|apply dec_of_nonneg_digits].
Qed.

Lemma after_colon_index (i : nat) (tail : str) :
  after_colon (dec_of_Z (Z.of_nat i) ++ ":"%char :: tail) = tail.
Proof.
  rewrite dec_of_Z_nat. unfold after_colon. change (lit ":") with [":"%char].
  rewrite find_char_first.
  - unfold Str.substr_from. rewrite skipn_app_exact. reflexivity.
  - eapply forallb_impl; [|apply dec_of_nonneg_digits].
    intros x Hx. destruct (is_digit_not x Hx) as (_ & _ & _ & _ & _ & Hc & _).
    rewrite Ascii.eqb_sym. now rewrite Hc.
Qed.

Lemma read_done_marker_line (done : bool) (tail : str) :
  read_done_marker
    ("["%char :: (if done then lit "x" else lit " ") ++ lit "] " ++ tail)
  = (done, skip_blanks (" "%char :: tail)).
Proof. destruct done; reflexivity. Qed.

Lemma skip_blanks_name (c : ascii) (tail : str) :
  Str.mem c [" "%char; TAB] = false ->
  skip_blanks (" "%char :: c :: tail) = c :: tail.
Proof.
  intros Hc. unfold skip_blanks. cbn [Str.find_first_not_of].
  change (Str.mem " " [" "%char; TAB]) with true. cbv iota.
  rewrite Hc. reflexivity.
Qed.

Lemma read_parent_suffix_root (name : str) :
  has_parent_suffix name = false -> read_parent_suffix name = (-1, name).
Proof.
  unfold has_parent_suffix, read_parent_suffix. fold PARENT_TAG.
  destruct (Str.rfind PARENT_TAG name) as [ppos|]; [|reflexivity].
  destruct (Str.find_from (lit ")") name ppos); [discriminate|reflexivity].
Qed.

Lemma read_parent_suffix_child (A : str) (parent : Z) :
  is_int parent ->
  read_parent_suffix (A ++ PARENT_TAG ++ dec_of_Z parent ++ lit ")")
  = (parent, Str.pop_back_while isspace A).
Proof.
  intros Hint. unfold read_parent_suffix.
  set (P := dec_of_Z parent).
  assert (HP1 : forallb (fun x => negb (Ascii.eqb "(" x)) (P ++ lit ")") = true).
  { rewrite forallb_app.
    rewrite (dec_of_Z_chars _ parent); [reflexivity| |reflexivity].
    intros c Hc. destruct (is_digit_not c Hc) as (_ & _ & _ & _ & _ & _ & _ & Hp).
    rewrite Ascii.eqb_sym. now rewrite Hp. }
  assert (HP2 : forallb (fun x => negb (Ascii.eqb ")" x)) P = true).
  { apply dec_of_Z_chars; [|reflexivity].
    intros [b0 b1 b2 b3 b4 b5 b6 b7].
    destruct b0, b1, b2, b3, b4, b5, b6, b7; intros Hc; try discriminate Hc;
      reflexivity. }
  assert (R : Str.rfind (lit "(parent=") (PARENT_TAG ++ P ++ lit ")")
              = Some 0%nat).
  { change (PARENT_TAG ++ P ++ lit ")")
      with ("("%char :: lit "parent=" ++ (P ++ lit ")")).
    cbn [Str.rfind].
    change (lit "(parent=") with ("("%char :: lit "parent=").
    rewrite rfind_without_first; [reflexivity|].
    rewrite forallb_app, HP1. reflexivity. }
  rewrite (rfind_app _ _ _ _ R).
  unfold Str.find_from. rewrite skipn_app_exact, skipn_O.
  assert (L : (List.length (A ++ PARENT_TAG ++ P ++ lit ")")
               <? List.length A + 0)%nat = false).
  { apply Nat.ltb_ge. rewrite (length_app A). lia. }
  rewrite L.
  assert (F : Str.find (lit ")") (PARENT_TAG ++ P ++ lit ")")
              = Some (8 + List.length P)%nat).
  { transitivity (Str.find [")"%char] ((PARENT_TAG ++ P) ++ ")"%char :: []));
      [now rewrite <- app_assoc|].
    rewrite find_char_first; [now rewrite length_app|].
    rewrite forallb_app, HP2. reflexivity. }
  rewrite F. cbn [option_map]. unfold Str.substr.
  replace (List.length A + 0 + (8 + List.length P) - (List.length A + 0 + 8))%nat
    with (List.length P) by lia.
  replace (List.length A + 0 + 8)%nat with (List.length A + 8)%nat by lia.
  rewrite Nat.add_0_r, skipn_app_exact, skipn_O.
  change (skipn 8 (PARENT_TAG ++ P ++ lit ")")) with (P ++ lit ")").
  rewrite !firstn_app_exact. subst P. now rewrite (stoi_dec_of_Z _ Hint).
Qed.

Lemma pop_back_while_blank (n : str) :
  ends_with_space n = false ->
  Str.pop_back_while isspace (n ++ lit " ") = n.
Proof.
  unfold ends_with_space, Str.pop_back_while. intros H.
  rewrite rev_app_distr. cbn [lit list_ascii_of_string rev app Str.drop_while].
  change (isspace " ") with true. cbv iota.
  destruct (rev n) as [|c r] eqn:E.
  - apply (f_equal (@rev ascii)) in E. rewrite rev_involutive in E.
    now subst n.
  - cbn [Str.drop_while]. rewrite H, <- E. apply rev_involutive.
Qed.

(** [load_tasks] reads one line of [save_tasks] back as the task. *)
Lemma parse_task_body (i : nat) (t : Task) :
  task_ok t -> parse_task_line (task_body i t) = t.
Proof.
  destruct t as [name parent done]. unfold task_ok. cbn [task_name task_parent].
  intros [Hname Hint]. unfold name_ok in Hname.
  apply andb_true_iff in Hname as [Hname Hcase].
  apply andb_true_iff in Hname as [_ Hfirst].
  apply negb_true_iff in Hfirst.
  unfold parse_task_line, task_body. cbn [task_name task_parent task_done].
  change (lit ": [" ++ ?x) with (":"%char :: " "%char :: "["%char :: x).
  rewrite after_colon_index.
  change (skip_blanks (" "%char :: "["%char :: ?x)) with ("["%char :: x).
  rewrite read_done_marker_line.
  destruct (parent =? -1) eqn:Ep; cbn [negb].
  - apply Z.eqb_eq in Ep. subst parent. rewrite app_nil_r.
    apply andb_true_iff in Hcase as [Hne Hsuf].
    apply negb_true_iff in Hsuf.
    destruct name as [|c name']; [discriminate|].
    cbn [starts_with_blank] in Hfirst. rewrite (skip_blanks_name _ _ Hfirst).
    now rewrite read_parent_suffix_root.
  - apply negb_true_iff in Hcase.
    destruct name as [|c name'].
    + change (skip_blanks (" "%char :: [] ++ lit " (parent=" ++ ?x))
        with ([] ++ PARENT_TAG ++ x).
      now rewrite read_parent_suffix_child.
    + cbn [starts_with_blank] in Hfirst. rewrite <- app_comm_cons.
      rewrite (skip_blanks_name _ _ Hfirst).
      change (c :: name' ++ lit " (parent=" ++ ?x)
        with ((c :: name') ++ lit " " ++ PARENT_TAG ++ x).
      rewrite app_assoc, read_parent_suffix_child by assumption.
      now rewrite pop_back_while_blank.
Qed.

(** ** tasks.txt as a whole *)

Section TaskFile.

Variable env : Env.

Lemma task_line_body (i : nat) (t : Task) :
  task_line i t = task_body i t ++ [NL].
Proof. unfold task_line, task_body. now rewrite <- !app_assoc. Qed.

Lemma task_body_no_nl (i : nat) (t : Task) :
  task_ok t -> no_nl (task_body i t) = true.
Proof.
  intros [Hname _]. unfold name_ok in Hname.
  apply andb_true_iff in Hname as [Hname _].
  apply andb_true_iff in Hname as [Hnl _].
  assert (Hdec : forall z, no_nl (dec_of_Z z) = true).
  { intros z. apply dec_of_Z_chars; [|reflexivity].
    intros c Hc. destruct (is_digit_not c Hc) as (_ & _ & _ & Hn & _).
    now rewrite Hn. }
  unfold task_body, no_nl. rewrite !forallb_app.
  fold (no_nl (dec_of_Z (Z.of_nat i))). fold (no_nl (task_name t)).
  rewrite Hdec, Hnl.
  destruct (task_done t); destruct (negb (task_parent t =? -1));
    rewrite ?forallb_app; fold (no_nl (dec_of_Z (task_parent t)));
    rewrite ?Hdec; reflexivity.
Qed.

Lemma task_body_not_empty (i : nat) (t : Task) :
  is_empty (task_body i t) = false.
Proof.
  unfold task_body.
  destruct (dec_of_Z (Z.of_nat i)) as [|d r]; reflexivity.
Qed.

Lemma save_tasks_loop_text (ts : list Task) (i : nat) (f : str) :
  save_tasks_loop i ts f = f ++ tasks_text i ts.
Proof.
  revert i f. induction ts as [|t ts IH]; intros i f; cbn.
  - now rewrite app_nil_r.
  - now rewrite IH, <- app_assoc.
Qed.

Lemma load_tasks_text (ts : list Task) (i : nat) (acc : list Task) :
  Forall task_ok ts ->
  fold_left load_tasks_step (Str.getlines (tasks_text i ts)) acc = acc ++ ts.
Proof.
  intros H. revert i acc.
  induction H as [|t ts Ht _ IH]; intros i acc; cbn [tasks_text].
  - cbn. now rewrite app_nil_r.
  - rewrite task_line_body, <- app_assoc. cbn [app].
    unfold Str.getlines at 1.
    rewrite getlines_from_line by now apply task_body_no_nl.
    cbn [rev app fold_left]. unfold load_tasks_step at 2.
    rewrite task_body_not_empty, (parse_task_body i t Ht), IH.
    now rewrite <- app_assoc.
Qed.

Lemma fs_write_read (p c : str) (fs : FileSystem) : fs_write p c fs p = Some c.
Proof. unfold fs_write. now rewrite str_eqb_refl. Qed.

Lemma load_after_save (w : World) :
  env_can_write env (path_in_data env (lit "tasks.txt")) = true ->
  Forall task_ok (tasks w) ->
  tasks (load_tasks env (save_tasks env w)) = tasks w.
Proof.
  intros Hopen Hok. unfold save_tasks, load_tasks. rewrite Hopen.
  cbn [negb set_tasks set_files files tasks]. rewrite fs_write_read.
  cbn [tasks]. rewrite save_tasks_loop_text. cbn [app].
  now rewrite (load_tasks_text _ _ [] Hok).
Qed.

Lemma tasks_save_tasks (w : World) : tasks (save_tasks env w) = tasks w.
Proof.
  unfold save_tasks.
  now destruct (negb (env_can_write env (path_in_data env (lit "tasks.txt")))).
Qed.

Lemma tasks_add_task (now : Z) (name : str) (parent_idx : Z) (w : World) :
  tasks (add_task env now name parent_idx w)
  = tasks w ++ [mkTask name parent_idx false].
Proof.
  unfold add_task. now rewrite tasks_append_daily_log, tasks_save_tasks.
Qed.

Lemma set_done_ok (idx : nat) (done : bool) (ts : list Task) :
  Forall task_ok ts -> Forall task_ok (set_done idx done ts).
Proof.
  intros H. revert idx. induction H as [|t ts Ht Hts IH]; intros idx.
  - destruct idx; constructor.
  - destruct idx as [|idx]; cbn; constructor; auto.
Qed.

Lemma run_task_op_ok (now : Z) (op : TaskOp) (w : World) :
  task_op_ok op -> Forall task_ok (tasks w) ->
  Forall task_ok (tasks (run_task_op env now op w)).
Proof.
  intros Hop H. destruct op as [name parentIndex|index done]; cbn.
  - rewrite tasks_add_task. apply Forall_app. split; [exact H|].
    constructor; [exact Hop|constructor].
  - unfold toggle_task.
    destruct ((index <? 0) || (Z.of_nat (List.length (tasks w)) <=? index));
      [exact H|].
    rewrite tasks_save_tasks. cbn [tasks set_tasks]. now apply set_done_ok.
Qed.

Lemma run_task_ops_ok (ops : list (Z * TaskOp)) (w : World) :
  Forall (fun o => task_op_ok (snd o)) ops -> Forall task_ok (tasks w) ->
  Forall task_ok (tasks (run_task_ops env ops w)).
Proof.
  intros Hops. revert w.
  induction Hops as [|[now op] ops Hop _ IH]; intros w H; cbn; [exact H|].
  apply IH. now apply run_task_op_ok.
Qed.

(** C2, as the code has it: after any run of [add_task] and checkbox toggles
    from an empty task list, where the parents are any [int] (in particular
    those of a forest) and every name is on one line, does not start with a
    blank or a tab, and is, for a root, non-empty and without a parent suffix
    of its own and, for a child, not ending with white space, [save_tasks]
    followed by [load_tasks] gives back the same (name, parent, done) tuples
    in the same order, when [tasks.txt] can be written. *)
Theorem task_round_trip (ops : list (Z * TaskOp)) (w0 : World) :
  tasks w0 = [] ->
  Forall (fun o => task_op_ok (snd o)) ops ->
  env_can_write env (path_in_data env (lit "tasks.txt")) = true ->
  task_tuples (load_tasks env (save_tasks env (run_task_ops env ops w0)))
  = task_tuples (run_task_ops env ops w0).
Proof.
  intros H0 Hops Hopen. unfold task_tuples. f_equal.
  apply load_after_save; [exact Hopen|].
  apply run_task_ops_ok; [exact Hops|]. rewrite H0. constructor.
Qed.

End TaskFile.

Lemma task_round_trip_witness :
  task_tuples
    (load_tasks env_utc
       (save_tasks env_utc
          (run_task_ops env_utc
             [(1704153601, Append (lit "write report") (-1));
              (1704153602, Append (lit "collect (raw) data") 0);
              (1704153603, Toggle 1 true)]
             world_empty)))
  = [(lit "write report", -1, false); (lit "collect (raw) data", 0, true)].
Proof.
  rewrite (task_round_trip env_utc _ world_empty).
  - reflexivity.
  - reflexivity.
  - repeat constructor; vm_compute; try reflexivity; discriminate.
  - reflexivity.
Defined.

(** C2 as it is stated fails for arbitrary names: one root task named
    [ plan], with a leading blank, is a forest, and after [save_tasks] and
    [load_tasks] its name is [plan].  Likewise a root named
    [draft (parent=7)] is loaded as the child [draft] of task 7; a name with
    a newline makes two tasks; the white space that ends the name of a child
    is lost; an empty root name is loaded as a blank. *)
Lemma task_round_trip_counterexample :
  let round ops :=
    let w := run_task_ops env_utc ops world_empty in
    (is_forest (tasks w),
     task_tuples (load_tasks env_utc (save_tasks env_utc w)),
     task_tuples w) in
  (let w := run_task_ops env_utc [(1704153601, Append (lit " plan") (-1))]
              world_empty in
   is_forest (tasks w) = true
   /\ task_tuples (load_tasks env_utc (save_tasks env_utc w))
      <> task_tuples w)
  /\ round [(1704153601, Append (lit " plan") (-1))]
     = (true, [(lit "plan", -1, false)], [(lit " plan", -1, false)])
  /\ round [(1704153601, Append (lit "draft (parent=7)") (-1))]
     = (true, [(lit "draft", 7, false)],
        [(lit "draft (parent=7)", -1, false)])
  /\ round [(1704153601, Append (lit "a" ++ [NL] ++ lit "b") (-1))]
     = (true, [(lit "a", -1, false); (lit "b", -1, false)],
        [(lit "a" ++ [NL] ++ lit "b", -1, false)])
  /\ round [(1704153601, Append (lit "root") (-1));
            (1704153602, Append (lit "child ") 0)]
     = (true, [(lit "root", -1, false); (lit "child", 0, false)],
        [(lit "root", -1, false); (lit "child ", 0, false)])
  /\ round [(1704153601, Append [] (-1))]
     = (true, [(lit " ", -1, false)], [([], -1, false)]).
Proof.
  cbv zeta. split; [split|].
  - vm_compute. reflexivity.
  - vm_compute. discriminate.
  - repeat split; vm_compute; reflexivity.
Qed.

(** ** Timestamps in text *)

Lemma field2_checked : all_from 100 0 (field_check 2) = true.
Proof. vm_cast_no_check (eq_refl true). Qed.

Lemma field4_checked : all_from (Z.to_nat 10000) 0 (field_check 4) = true.
Proof. vm_cast_no_check (eq_refl true). Qed.

Lemma field_check_2 (n : Z) : 0 <= n < 100 -> field_check 2 n = true.
Proof. intros H. apply (all_from_spec _ _ _ field2_checked). cbn. lia. Qed.

Lemma field_check_4 (n : Z) : 0 <= n < 10000 -> field_check 4 n = true.
Proof.
  intros H. apply (all_from_spec _ _ _ field4_checked).
  rewrite Z2Nat.id; lia.
Qed.

Lemma scan_digits_app (s rest : str) (acc : Z) (k : nat) :
  forallb is_digit s = true ->
  scan_digits (List.length s) (s ++ rest) acc k
  = (fst (fst (scan_digits (List.length s) s acc k)),
     (k + List.length s)%nat, rest).
Proof.
  revert acc k. induction s as [|c s IH]; intros acc k H.
  - cbn. rewrite Nat.add_0_r. now destruct rest.
  - cbn in H. apply andb_true_iff in H as [Hc Hs]. unfold is_digit in Hc.
    cbn [List.length app scan_digits].
    destruct (digit_val c) as [d|]; [|discriminate].
    rewrite (IH _ _ Hs). f_equal. f_equal. lia.
Qed.

(** A field of a timestamp: [w] digits that [%<w>d] reads back, whatever
    follows. *)
Lemma field_facts (w : nat) (n : Z) :
  field_check (S w) n = true ->
  (exists d r, pad_num (S w) n = d :: r /\ is_digit d = true
               /\ forallb is_digit r = true)
  /\ forall rest, scan_d (S w) (pad_num (S w) n ++ rest) = Some (n, rest).
Proof.
  unfold field_check. intros H.
  apply andb_true_iff in H as [H Hcount].
  apply andb_true_iff in H as [H Hval].
  apply andb_true_iff in H as [Hlen Hdig].
  apply Nat.eqb_eq in Hlen. apply Z.eqb_eq in Hval.
  destruct (pad_num (S w) n) as [|d r] eqn:E; [discriminate|].
  pose proof Hdig as Hdig'. cbn in Hdig'.
  apply andb_true_iff in Hdig' as [Hd Hr].
  split; [now exists d, r|]. intros rest.
  destruct (is_digit_not d Hd) as (Hs & Hminus & Hplus & _).
  unfold scan_d. cbn [app Str.drop_while]. rewrite Hs.
  cbn [read_sign has_sign]. rewrite Hminus, Hplus. cbn [orb].
  rewrite <- Hlen at 1. rewrite app_comm_cons, scan_digits_app by exact Hdig.
  rewrite Hlen, Hval. reflexivity.
Qed.

Lemma scan_d_field (w : nat) (n : Z) (rest : str) :
  field_check (S w) n = true ->
  scan_d (S w) (pad_num (S w) n ++ rest) = Some (n, rest).
Proof. intros H. apply (proj2 (field_facts w n H)). Qed.

Lemma drop_space_field (w : nat) (n : Z) (rest : str) :
  field_check (S w) n = true ->
  Str.drop_while isspace (pad_num (S w) n ++ rest) = pad_num (S w) n ++ rest.
Proof.
  intros H. destruct (proj1 (field_facts w n H)) as (d & r & E & Hd & _).
  rewrite E. cbn. now rewrite (proj1 (is_digit_not d Hd)).
Qed.

Ltac scan_step :=
  cbn [bind lit list_ascii_of_string app expect Str.drop_while];
  rewrite ?Ascii.eqb_refl; cbn [bind].

(** The six numbers of a printed timestamp are read back. *)
Lemma sscanf_strftime_local (b : tm) :
  0 <= tm_year b + 1900 < 10000 -> 0 <= tm_mon b + 1 < 100 ->
  0 <= tm_mday b < 100 -> 0 <= tm_hour b < 100 -> 0 <= tm_min b < 100 ->
  0 <= tm_sec b < 100 ->
  sscanf_timestamp (strftime_local b)
  = Some (tm_year b + 1900, tm_mon b + 1, tm_mday b, tm_hour b, tm_min b,
          tm_sec b).
Proof.
  intros Hy Hm Hd Hh Hmi Hs.
  unfold sscanf_timestamp, strftime_local.
  rewrite (scan_d_field 3) by now apply field_check_4.
  scan_step. rewrite (scan_d_field 1) by now apply field_check_2.
  scan_step. rewrite (scan_d_field 1) by now apply field_check_2.
  scan_step. change (isspace " ") with true. cbv iota.
  rewrite (drop_space_field 1) by now apply field_check_2.
  rewrite (scan_d_field 1) by now apply field_check_2.
  scan_step. rewrite (scan_d_field 1) by now apply field_check_2.
  scan_step. rewrite <- (app_nil_r (pad_num 2 (tm_sec b))).
  rewrite (scan_d_field 1) by now apply field_check_2.
  reflexivity.
Qed.

Lemma localtime_fields (tz t : Z) :
  let b := localtime_r tz t in
  0 <= tm_mon b + 1 < 100 /\ 0 <= tm_mday b < 100 /\ 0 <= tm_hour b < 100
  /\ 0 <= tm_min b < 100 /\ 0 <= tm_sec b < 100
  /\ mktime tz (mk_tm (tm_year b + 1900 - 1900) (tm_mon b + 1 - 1) (tm_mday b)
                  (tm_hour b) (tm_min b) (tm_sec b)) = t.
Proof.
  unfold localtime_r, gmtime_r.
  pose proof (civil_from_days_inv ((t + tz) / 86400)) as H.
  destruct (civil_from_days ((t + tz) / 86400)) as [[y m] d].
  destruct H as (Hdays & Hm & Hd).
  pose proof (Z.mod_pos_bound (t + tz) 86400 ltac:(lia)) as Hr.
  pose proof (Z.div_mod (t + tz) 86400 ltac:(lia)) as Hdm.
  set (r := (t + tz) mod 86400) in *.
  cbn [tm_year tm_mon tm_mday tm_hour tm_min tm_sec].
  repeat split; try lia.
  - apply Z.div_pos; lia.
  - apply Z.div_lt_upper_bound; lia.
  - apply Z.div_pos; [|lia]. apply Z.mod_pos_bound. lia.
  - apply Z.div_lt_upper_bound; [lia|].
    pose proof (Z.mod_pos_bound r 3600). lia.
  - apply Z.mod_pos_bound. lia.
  - pose proof (Z.mod_pos_bound r 60). lia.
  - unfold mktime. cbn [tm_year tm_mon tm_mday tm_hour tm_min tm_sec].
    replace (m - 1 + 1 - 1) with (m - 1) by lia.
    rewrite (Z.div_small (m - 1) 12) by lia.
    rewrite (Z.mod_small (m - 1) 12) by lia.
    replace (y - 1900 + 1900 - 1900 + 1900 + 0) with y by lia.
    replace (m - 1 + 1) with m by lia.
    rewrite days_from_civil_day, Hdays.
    pose proof (Z.div_mod r 3600 ltac:(lia)).
    pose proof (Z.div_mod (r mod 3600) 60 ltac:(lia)).
    pose proof (Z.mod_mod_divide r 3600 60 ltac:(exists 60; lia)) as Hmm.
    pose proof (Z.div_mod r 60 ltac:(lia)).
    pose proof (Z.div_mod (r mod 3600) 60 ltac:(lia)).
    lia.
Qed.

(** ** One line of daily_logs.txt *)

Lemma starts_with_longer (pat x b : str) :
  (List.length pat <= List.length x)%nat ->
  Str.starts_with pat (x ++ b) = Str.starts_with pat x.
Proof.
  revert x. induction pat as [|p pat IH]; intros x H; [reflexivity|].
  destruct x as [|c x]; cbn in H; [lia|].
  cbn. now rewrite IH by lia.
Qed.

Lemma find_sep_app (a b : str) :
  sep_clear a = true -> Str.find SEP (a ++ SEP ++ b) = Some (List.length a).
Proof.
  induction a as [|c a IH]; intros H.
  - reflexivity.
  - cbn [sep_clear] in H. apply andb_true_iff in H as [H1 H2].
    apply negb_true_iff in H1.
    cbn [app Str.find List.length].
    change (c :: a ++ SEP ++ b) with ((c :: a) ++ SEP ++ b).
    rewrite app_assoc, starts_with_longer, H1.
    + rewrite (IH H2). reflexivity.
    + rewrite length_app. cbn. lia.
Qed.

Lemma sep_clear_nonspace (c : ascii) (r : str) :
  Ascii.eqb c " " = false -> sep_clear (c :: r) = sep_clear r.
Proof.
  intros H. cbn [sep_clear]. change SEP with (" "%char :: lit "- ").
  cbn [app Str.starts_with]. rewrite Ascii.eqb_sym, H. reflexivity.
Qed.

Lemma sep_clear_digits (ds r : str) :
  forallb is_digit ds = true -> sep_clear (ds ++ r) = sep_clear r.
Proof.
  induction ds as [|d ds IH]; intros H; [reflexivity|].
  cbn in H. apply andb_true_iff in H as [Hd Hds].
  cbn [app]. rewrite sep_clear_nonspace; [now apply IH|].
  now destruct (is_digit_not d Hd) as (_ & _ & _ & _ & _ & _ & Hsp & _).
Qed.

Lemma field_digits (w : nat) (n : Z) :
  field_check (S w) n = true -> forallb is_digit (pad_num (S w) n) = true.
Proof.
  intros H. destruct (proj1 (field_facts w n H)) as (d & r & E & Hd & Hr).
  rewrite E. cbn. now rewrite Hd, Hr.
Qed.

Lemma sep_clear_strftime_local (b : tm) :
  0 <= tm_year b + 1900 < 10000 -> 0 <= tm_mon b + 1 < 100 ->
  0 <= tm_mday b < 100 -> 0 <= tm_hour b < 100 -> 0 <= tm_min b < 100 ->
  0 <= tm_sec b < 100 ->
  sep_clear (strftime_local b) = true.
Proof.
  intros Hy Hm Hd Hh Hmi Hs. unfold strftime_local.
  cbn [lit list_ascii_of_string app].
  rewrite sep_clear_digits by now apply field_digits, field_check_4.
  rewrite sep_clear_nonspace by reflexivity.
  rewrite sep_clear_digits by now apply field_digits, field_check_2.
  rewrite sep_clear_nonspace by reflexivity.
  rewrite sep_clear_digits by now apply field_digits, field_check_2.
  destruct (proj1 (field_facts 1 (tm_hour b) (field_check_2 _ Hh)))
    as (d & r & E & Hdd & Hr).
  assert (Hdig : forallb is_digit (pad_num 2 (tm_hour b)) = true)
    by now apply field_digits, field_check_2.
  cbn [sep_clear]. rewrite sep_clear_digits by exact Hdig.
  rewrite E. change SEP with (" "%char :: "-"%char :: lit " ").
  cbn [app Str.starts_with].
  destruct (is_digit_not d Hdd) as (_ & Hminus & _).
  rewrite (Ascii.eqb_sym "-" d), Hminus. cbn [andb negb].
  rewrite sep_clear_nonspace by reflexivity.
  rewrite sep_clear_digits by now apply field_digits, field_check_2.
  rewrite sep_clear_nonspace by reflexivity.
  rewrite <- (app_nil_r (pad_num 2 (tm_sec b))).
  rewrite sep_clear_digits by now apply field_digits, field_check_2.
  reflexivity.
Qed.

Section LogLine.

Variable env : Env.

Lemma parse_log_line_line (now' : Z) (T kind text : str) :
  sep_clear T = true -> sep_clear kind = true ->
  parse_log_line env now' (T ++ SEP ++ kind ++ SEP ++ text)
  = mkLog (parse_timestamp env now' T) kind text.
Proof.
  intros HT Hk. unfold parse_log_line.
  rewrite (find_sep_app T _ HT).
  unfold Str.find_from.
  assert (L : (List.length (T ++ SEP ++ kind ++ SEP ++ text)
               <? List.length T + 3)%nat = false).
  { apply Nat.ltb_ge. rewrite !length_app. cbn. lia. }
  rewrite L, skipn_app_exact.
  change (skipn 3 (SEP ++ ?x)) with x.
  rewrite (find_sep_app kind _ Hk). cbn [option_map].
  unfold Str.substr, Str.substr_from. rewrite skipn_O, firstn_app_exact.
  rewrite skipn_app_exact. change (skipn 3 (SEP ++ ?x)) with x.
  replace (List.length T + 3 + List.length kind - (List.length T + 3))%nat
    with (List.length kind) by lia.
  rewrite firstn_app_exact.
  f_equal.
  replace (List.length T + 3 + List.length kind + 3)%nat
    with (List.length T + (3 + (List.length kind + 3)))%nat by lia.
  rewrite skipn_app_exact.
  change (skipn (3 + ?k) (SEP ++ ?x)) with (skipn k x).
  rewrite skipn_app_exact. change (skipn 3 (SEP ++ ?x)) with x.
  destruct text as [|c text]; [|].
  - match goal with |- (if ?c then _ else _) = _ => destruct c end;
      reflexivity.
  - replace (_ <? _)%nat with true; [reflexivity|].
    symmetry. apply Nat.ltb_lt. rewrite !length_app. cbn. lia.
Qed.

End LogLine.

(** ** daily_logs.txt as a whole *)

Lemma getlines_app_complete (c r cur : str) :
  complete_lines c = true -> (c = [] -> cur = []) ->
  Str.getlines_from cur (c ++ r) = Str.getlines_from cur c ++ Str.getlines r.
Proof.
  revert cur. induction c as [|x c IH]; intros cur H Hcur.
  - rewrite (Hcur eq_refl). reflexivity.
  - cbn [complete_lines] in H. cbn [app Str.getlines_from].
    destruct c as [|y c'].
    + rewrite H. reflexivity.
    + destruct (Ascii.eqb x NL).
      * rewrite (IH [] H) by discriminate. reflexivity.
      * rewrite (IH (x :: cur) H) by discriminate. reflexivity.
Qed.

Lemma pad_num_no_nl (w : nat) (n : Z) : no_nl (pad_num w n) = true.
Proof.
  apply pad_num_forall; [|reflexivity].
  intros a Ha.
  now rewrite (proj1 (proj2 (proj2 (proj2
                 (is_digit_not _ (digit_char_is_digit a Ha)))))).
Qed.

Lemma no_nl_app (a b : str) : no_nl (a ++ b) = no_nl a && no_nl b.
Proof. apply forallb_app. Qed.

Lemma strftime_local_no_nl (b : tm) : no_nl (strftime_local b) = true.
Proof.
  unfold strftime_local. rewrite !no_nl_app, !pad_num_no_nl. reflexivity.
Qed.

Section LogFile.

Variable env : Env.

Lemma dailyLogs_load_daily_logs (now' : Z) (w : World) :
  dailyLogs (load_daily_logs env now' w)
  = logs_of_content env now' (fs_content (files w) (daily_logs_path env)).
Proof.
  unfold load_daily_logs, logs_of_content, fs_content, daily_logs_path.
  cbn [set_logs files dailyLogs].
  now destruct (files w (path_in_data env (lit "daily_logs.txt"))).
Qed.

Lemma files_append_daily_log (now : Z) (kind text : str) (w : World) :
  env_can_write env (daily_logs_path env) = true ->
  fs_content (files (append_daily_log env now kind text w))
    (daily_logs_path env)
  = fs_content (files w) (daily_logs_path env)
    ++ human_log_line env now (Str.c_str kind) text now ++ [NL].
Proof.
  intros Hopen. unfold append_daily_log, append_line_to_file.
  fold (daily_logs_path env). rewrite Hopen.
  cbn [negb snd set_files set_logs files log_ts]. unfold fs_content at 1.
  now rewrite fs_write_read.
Qed.


Lemma parse_timestamp_strftime (now now' : Z) :
  now <> -1 -> four_digit_year env now ->
  parse_timestamp env now' (strftime_local (localtime_r (env_tz env) now))
  = now.
Proof.
  intros H1 Hy. unfold four_digit_year in Hy.
  destruct (localtime_fields (env_tz env) now)
    as (Hm & Hd & Hh & Hmi & Hs & Hmk).
  unfold parse_timestamp.
  rewrite sscanf_strftime_local by (assumption || lia).
  rewrite Hmk. apply Z.eqb_neq in H1. now rewrite H1.
Qed.


End LogFile.



(** * Further properties *)

(** ** Paths *)

Lemma str_eqb_true (a b : str) : Str.eqb a b = true -> a = b.
Proof.
  revert b; induction a as [|x a IH]; intros [|y b]; simpl; try discriminate;
    [reflexivity|].
  intros H. apply andb_true_iff in H as [H1 H2].
  apply Ascii.eqb_eq in H1. apply IH in H2. now subst.
Qed.

Lemma str_eqb_false (a b : str) : a <> b -> Str.eqb a b = false.
Proof.
  intros H. destruct (Str.eqb a b) eqn:E; [|reflexivity].
  now apply str_eqb_true in E.
Qed.

Lemma str_eqb_app (p a b : str) : Str.eqb (p ++ a) (p ++ b) = Str.eqb a b.
Proof.
  induction p as [|c p IH]; [reflexivity|].
  cbn. now rewrite Ascii.eqb_refl, IH.
Qed.

(** X1: two file names give the same path in the data directory exactly when
    they are the same name, whether the directory is there or the bare name
    is used: the core files never share a file. *)
Theorem data_paths_do_not_collide (env : Env) (f1 f2 : str) :
  Str.eqb (path_in_data env f1) (path_in_data env f2) = Str.eqb f1 f2.
Proof.
  unfold path_in_data.
  destruct (negb (ensure_dir_exists env (user_data_dir env)));
    [reflexivity|].
  now rewrite !str_eqb_app.
Qed.

Lemma path_in_data_neq (env : Env) (f1 f2 : str) :
  Str.eqb f1 f2 = false ->
  Str.eqb (path_in_data env f1) (path_in_data env f2) = false.
Proof.
  intros H. unfold path_in_data.
  destruct (negb (ensure_dir_exists env (user_data_dir env))); [exact H|].
  now rewrite !str_eqb_app.
Qed.

Lemma path_in_data_inj (env : Env) (f1 f2 : str) :
  path_in_data env f1 = path_in_data env f2 -> f1 = f2.
Proof.
  unfold path_in_data.
  destruct (negb (ensure_dir_exists env (user_data_dir env))); [auto|].
  intros H. apply app_inv_head in H. now apply app_inv_head in H.
Qed.

(** ** JSON *)

Lemma json_escape_all_plain (s : str) :
  forallb (fun c => negb (is_json_special c)) s = true -> json_escape s = s.
Proof.
  induction s as [|c s IH]; [reflexivity|].
  cbn [forallb]. intros H. apply andb_true_iff in H as [Hc Hs].
  apply negb_true_iff in Hc.
  rewrite json_escape_cons, (json_escape_plain _ Hc), (IH Hs). reflexivity.
Qed.

Lemma digit_not_special (c : ascii) :
  is_digit c = true -> negb (is_json_special c) = true.
Proof.
  destruct c as [b0 b1 b2 b3 b4 b5 b6 b7].
  destruct b0, b1, b2, b3, b4, b5, b6, b7; intros H;
    try discriminate H; reflexivity.
Qed.

(** X2: the ISO timestamp of an event has no character that [json_escape]
    changes, so it stands in the JSONL line as [format_iso_time] printed
    it. *)
Theorem iso_timestamp_unchanged_by_escape (t : Z) :
  json_escape (format_iso_time t) = format_iso_time t.
Proof.
  apply json_escape_all_plain. unfold format_iso_time.
  destruct (t =? 0); [reflexivity|].
  assert (P : forall w n,
             forallb (fun c => negb (is_json_special c)) (pad_num w n) = true).
  { intros w n. apply pad_num_forall; [|reflexivity].
    intros a Ha. apply digit_not_special. now apply digit_char_is_digit. }
  unfold strftime_iso. rewrite !forallb_app, !P. reflexivity.
Qed.

Lemma json_escape_app (a b : str) :
  json_escape (a ++ b) = json_escape a ++ json_escape b.
Proof.
  induction a as [|c a IH]; [reflexivity|].
  cbn [app]. rewrite (json_escape_cons c (a ++ b)), (json_escape_cons c a), IH.
  now rewrite app_assoc.
Qed.

Lemma json_escape_one (c : ascii) :
  json_escape [c]
  = if Ascii.eqb c BACKSLASH then [BACKSLASH; BACKSLASH]
    else if Ascii.eqb c DQUOTE then [BACKSLASH; DQUOTE]
    else if Ascii.eqb c NL then [BACKSLASH; "n"%char]
    else if Ascii.eqb c CR then [BACKSLASH; "r"%char]
    else if Ascii.eqb c TAB then [BACKSLASH; "t"%char]
    else [c].
Proof. reflexivity. Qed.

Lemma json_escape_no_nl (s : str) : no_nl (json_escape s) = true.
Proof.
  induction s as [|c s IH]; [reflexivity|].
  rewrite json_escape_cons, no_nl_app, IH, andb_true_r, json_escape_one.
  destruct (Ascii.eqb c BACKSLASH); [reflexivity|].
  destruct (Ascii.eqb c DQUOTE); [reflexivity|].
  destruct (Ascii.eqb c NL) eqn:E; [reflexivity|].
  destruct (Ascii.eqb c CR); [reflexivity|].
  destruct (Ascii.eqb c TAB); [reflexivity|].
  cbn. now rewrite E.
Qed.

(** X3: whatever the text of an event, its JSONL entry has no newline in it:
    the section keeps one JSON object per line. *)
Theorem jsonl_entry_is_one_line (d : DailyLog) : no_nl (jsonl_entry d) = true.
Proof.
  unfold jsonl_entry. rewrite !no_nl_app, !json_escape_no_nl. reflexivity.
Qed.

Lemma json_unescape_escape_cons (c : ascii) (s : str) :
  json_unescape (json_escape [c] ++ s) = c :: json_unescape s.
Proof.
  rewrite json_escape_one.
  destruct (Ascii.eqb c BACKSLASH) eqn:E1.
  { apply Ascii.eqb_eq in E1. subst c. reflexivity. }
  destruct (Ascii.eqb c DQUOTE) eqn:E2.
  { apply Ascii.eqb_eq in E2. subst c. reflexivity. }
  destruct (Ascii.eqb c NL) eqn:E3.
  { apply Ascii.eqb_eq in E3. subst c. reflexivity. }
  destruct (Ascii.eqb c CR) eqn:E4.
  { apply Ascii.eqb_eq in E4. subst c. reflexivity. }
  destruct (Ascii.eqb c TAB) eqn:E5.
  { apply Ascii.eqb_eq in E5. subst c. reflexivity. }
  cbn [app json_unescape]. now rewrite E1.
Qed.

Lemma json_unescape_escape (s : str) : json_unescape (json_escape s) = s.
Proof.
  induction s as [|c s IH]; [reflexivity|].
  now rewrite json_escape_cons, json_unescape_escape_cons, IH.
Qed.

(** X4: [json_escape] loses nothing: different texts have different escaped
    forms. *)
Theorem json_escape_injective (s1 s2 : str) :
  s1 <> s2 -> json_escape s1 <> json_escape s2.
Proof.
  intros Hne H. apply Hne. apply (f_equal json_unescape) in H.
  now rewrite !json_unescape_escape in H.
Qed.

Lemma json_escape_injective_witness :
  json_escape [NL] <> json_escape [BACKSLASH; "n"%char].
Proof. apply json_escape_injective. discriminate. Defined.

(** ** Exports *)

Section ExportEffects.

Variable env : Env.

Lemma export_text_to_file_effects (now : Z) (prefix content : str) (w : World) :
  let r := export_text_to_file env now prefix content w in
  dailyLogs (snd r) = dailyLogs w /\ breaks (snd r) = breaks w
  /\ tasks (snd r) = tasks w
  /\ forall q, Str.eqb q (fst r) = false -> files (snd r) q = files w q.
Proof.
  unfold export_text_to_file.
  destruct (negb (env_can_write env _)); cbn; repeat split; auto.
  intros q Hq. unfold fs_write. now rewrite Hq.
Qed.

Lemma export_hourly_effects (now : Z) (w : World) :
  let r := export_hourly_logs_today env now w in
  dailyLogs (snd r) = dailyLogs w /\ breaks (snd r) = breaks w
  /\ tasks (snd r) = tasks w
  /\ forall q, Str.eqb q (fst r) = false -> files (snd r) q = files w q.
Proof.
  unfold export_hourly_logs_today.
  destruct (is_empty (dailyLogs w)); [cbn; auto|].
  destruct (is_empty _); [cbn; auto|].
  apply export_text_to_file_effects.
Qed.

Lemma export_weekly_effects (now : Z) (w : World) :
  let r := export_weekly_logs_file env now w in
  dailyLogs (snd r) = dailyLogs w /\ breaks (snd r) = breaks w
  /\ tasks (snd r) = tasks w
  /\ forall q, Str.eqb q (fst r) = false -> files (snd r) q = files w q.
Proof.
  unfold export_weekly_logs_file.
  destruct (is_empty (dailyLogs w)); [cbn; auto|].
  apply export_text_to_file_effects.
Qed.

(** X5: the exports are snapshots: [export_hourly_logs_today],
    [export_weekly_logs_file] and [export_text_to_file] leave the events, the
    breaks and the tasks in memory as they are, and no file other than the
    one whose path they return is changed. *)
Theorem exports_change_nothing_else
  (now : Z) (prefix content : str) (w : World) :
  Forall
    (fun r : str * World =>
       dailyLogs (snd r) = dailyLogs w /\ breaks (snd r) = breaks w
       /\ tasks (snd r) = tasks w
       /\ forall q, Str.eqb q (fst r) = false -> files (snd r) q = files w q)
    [export_hourly_logs_today env now w;
     export_weekly_logs_file env now w;
     export_text_to_file env now prefix content w].
Proof.
  constructor; [apply export_hourly_effects|].
  constructor; [apply export_weekly_effects|].
  constructor; [apply export_text_to_file_effects|constructor].
Qed.

(** X6: two exports with one prefix within one second of the clock go to the
    same file, and the second replaces the first: only the later content is
    left. *)
Theorem export_in_the_same_second_overwrites
  (now : Z) (prefix c1 c2 : str) (w : World) :
  env_can_write env (export_path env now prefix) = true ->
  let r1 := export_text_to_file env now prefix c1 w in
  let r2 := export_text_to_file env now prefix c2 (snd r1) in
  fst r1 = export_path env now prefix
  /\ fst r2 = fst r1
  /\ files (snd r1) (fst r1) = Some (c1 ++ [NL])
  /\ files (snd r2) (fst r1) = Some (c2 ++ [NL]).
Proof.
  intros Hopen. unfold export_text_to_file.
  fold (export_path env now prefix). rewrite Hopen.
  cbn [negb fst snd files set_files]. now rewrite !fs_write_read.
Qed.

End ExportEffects.

Lemma exports_change_nothing_else_witness :
  files (snd (export_weekly_logs_file env_utc 1704844800 world_with_files))
    (path_in_data env_utc (lit "tasks.txt"))
  = files world_with_files (path_in_data env_utc (lit "tasks.txt")).
Proof.
  pose proof (exports_change_nothing_else env_utc 1704844800 [] []
                world_with_files) as H.
  apply Forall_inv_tail, Forall_inv in H.
  destruct H as (_ & _ & _ & Hf). apply Hf. reflexivity.
Defined.

Lemma export_in_the_same_second_overwrites_witness :
  files
    (snd (export_text_to_file env_utc 1704844800 (lit "daily_status_export")
            (lit "second")
            (snd (export_text_to_file env_utc 1704844800
                    (lit "daily_status_export") (lit "first") world_empty))))
    (export_path env_utc 1704844800 (lit "daily_status_export"))
  = Some (lit "second" ++ [NL]).
Proof.
  pose proof (export_in_the_same_second_overwrites env_utc 1704844800
                (lit "daily_status_export") (lit "first") (lit "second")
                world_empty eq_refl) as H.
  cbv zeta in H. destruct H as (H1 & _ & _ & H4).
  rewrite <- H1. exact H4.
Defined.

(** ** Names of export files *)

Lemma app_inj_length {A} (a a' b b' : list A) :
  List.length a = List.length a' -> a ++ b = a' ++ b' -> a = a' /\ b = b'.
Proof.
  revert a'. induction a as [|x a IH]; intros [|y a'] Hl H;
    try discriminate Hl.
  - now split.
  - cbn in H. injection H as -> H. cbn in Hl.
    destruct (IH a' ltac:(lia) H) as [-> ->]. now split.
Qed.

Lemma field_length (w : nat) (n : Z) :
  field_check (S w) n = true -> List.length (pad_num (S w) n) = S w.
Proof.
  unfold field_check. intros H.
  apply andb_true_iff in H as [H _]. apply andb_true_iff in H as [H _].
  apply andb_true_iff in H as [H _]. now apply Nat.eqb_eq in H.
Qed.

Lemma field_inj (w : nat) (n m : Z) :
  field_check (S w) n = true -> field_check (S w) m = true ->
  pad_num (S w) n = pad_num (S w) m -> n = m.
Proof.
  intros Hn Hm E.
  pose proof (scan_d_field w n [] Hn) as Sn.
  pose proof (scan_d_field w m [] Hm) as Sm.
  rewrite E, Sm in Sn. now injection Sn.
Qed.

Lemma field_app_inj (w : nat) (n m : Z) (r r' : str) :
  field_check (S w) n = true -> field_check (S w) m = true ->
  pad_num (S w) n ++ r = pad_num (S w) m ++ r' -> n = m /\ r = r'.
Proof.
  intros Hn Hm E.
  apply app_inj_length in E as [E1 E2];
    [|now rewrite !field_length].
  split; [now apply (field_inj w)|exact E2].
Qed.

Lemma strftime_compact_inj (b1 b2 : tm) :
  (forall b, b = b1 \/ b = b2 ->
     0 <= tm_year b + 1900 < 10000 /\ 0 <= tm_mon b + 1 < 100
     /\ 0 <= tm_mday b < 100 /\ 0 <= tm_hour b < 100
     /\ 0 <= tm_min b < 100 /\ 0 <= tm_sec b < 100) ->
  strftime_compact b1 = strftime_compact b2 -> b1 = b2.
Proof.
  intros Hb E.
  destruct (Hb b1 (or_introl eq_refl)) as (Hy1 & Hm1 & Hd1 & Hh1 & Hi1 & Hs1).
  destruct (Hb b2 (or_intror eq_refl)) as (Hy2 & Hm2 & Hd2 & Hh2 & Hi2 & Hs2).
  unfold strftime_compact in E.
  apply field_app_inj in E as [Ey E]; try now apply field_check_4.
  apply field_app_inj in E as [Em E]; try now apply field_check_2.
  apply field_app_inj in E as [Ed E]; try now apply field_check_2.
  cbn [lit list_ascii_of_string app] in E. injection E as E.
  apply field_app_inj in E as [Eh E]; try now apply field_check_2.
  apply field_app_inj in E as [Ei E]; try now apply field_check_2.
  rewrite <- (app_nil_r (pad_num 2 (tm_sec b1))) in E.
  rewrite <- (app_nil_r (pad_num 2 (tm_sec b2))) in E.
  apply field_app_inj in E as [Es _]; try now apply field_check_2.
  destruct b1, b2. cbn in *. f_equal; lia.
Qed.

Lemma localtime_inj (tz t1 t2 : Z) :
  localtime_r tz t1 = localtime_r tz t2 -> t1 = t2.
Proof.
  intros E.
  destruct (localtime_fields tz t1) as (_ & _ & _ & _ & _ & H1).
  destruct (localtime_fields tz t2) as (_ & _ & _ & _ & _ & H2).
  rewrite E in H1. congruence.
Qed.

(** X7: in a time zone with a fixed offset from UTC, exports with one prefix
    made in different seconds of the clock (local years of at most four
    digits) have different file names, in the data directory or as bare
    names: an export replaces an earlier one only within the same second.
    (The name holds the local time without its zone.) *)
Theorem export_paths_differ_by_second
  (env : Env) (prefix : str) (n1 n2 : Z) :
  four_digit_year env n1 -> four_digit_year env n2 -> n1 <> n2 ->
  export_path env n1 prefix <> export_path env n2 prefix.
Proof.
  unfold four_digit_year. intros Hy1 Hy2 Hne E. apply Hne.
  unfold export_path in E. apply path_in_data_inj in E.
  apply app_inv_head in E. apply app_inv_head in E. apply app_inv_tail in E.
  apply (localtime_inj (env_tz env)).
  apply strftime_compact_inj; [|exact E].
  intros b [->| ->].
  - destruct (localtime_fields (env_tz env) n1) as (A & B & C & D & F & _).
    repeat split; lia.
  - destruct (localtime_fields (env_tz env) n2) as (A & B & C & D & F & _).
    repeat split; lia.
Qed.

Lemma export_paths_differ_by_second_witness :
  export_path env_utc 1704844800 (lit "weekly_logs_export")
  <> export_path env_utc 1704844801 (lit "weekly_logs_export").
Proof.
  apply export_paths_differ_by_second.
  - unfold four_digit_year. vm_compute. split; discriminate.
  - unfold four_digit_year. vm_compute. split; discriminate.
  - discriminate.
Defined.

(** ** Timestamps *)

Lemma sscanf_strftime_local_rest (b : tm) (rest : str) :
  0 <= tm_year b + 1900 < 10000 -> 0 <= tm_mon b + 1 < 100 ->
  0 <= tm_mday b < 100 -> 0 <= tm_hour b < 100 -> 0 <= tm_min b < 100 ->
  0 <= tm_sec b < 100 ->
  sscanf_timestamp (strftime_local b ++ rest)
  = Some (tm_year b + 1900, tm_mon b + 1, tm_mday b, tm_hour b, tm_min b,
          tm_sec b).
Proof.
  intros Hy Hm Hd Hh Hmi Hs.
  unfold sscanf_timestamp, strftime_local. rewrite <- !app_assoc.
  rewrite (scan_d_field 3) by now apply field_check_4.
  scan_step. rewrite (scan_d_field 1) by now apply field_check_2.
  scan_step. rewrite (scan_d_field 1) by now apply field_check_2.
  scan_step. change (isspace " ") with true. cbv iota.
  rewrite (drop_space_field 1) by now apply field_check_2.
  rewrite (scan_d_field 1) by now apply field_check_2.
  scan_step. rewrite (scan_d_field 1) by now apply field_check_2.
  scan_step. rewrite (scan_d_field 1) by now apply field_check_2.
  reflexivity.
Qed.

(** X8: [parse_timestamp] reads back the instant that [format_time_local]
    printed, whatever follows the seconds in the string, for every instant
    other than 0 and -1 whose local year has at most four digits; the time
    of the call is not used. *)
Theorem timestamp_round_trip (env : Env) (t now' : Z) (rest : str) :
  clock_ok env t ->
  parse_timestamp env now' (format_time_local env t ++ rest) = t.
Proof.
  intros (H0 & H1 & Hy). unfold four_digit_year in Hy.
  destruct (localtime_fields (env_tz env) t)
    as (Hm & Hd & Hh & Hmi & Hs & Hmk).
  unfold format_time_local. apply Z.eqb_neq in H0. rewrite H0.
  unfold parse_timestamp.
  rewrite sscanf_strftime_local_rest by (assumption || lia).
  rewrite Hmk. apply Z.eqb_neq in H1. now rewrite H1.
Qed.

Lemma timestamp_round_trip_witness :
  parse_timestamp env_utc 5
    (format_time_local env_utc 1704153601 ++ lit " and more")
  = 1704153601.
Proof.
  apply timestamp_round_trip. unfold clock_ok, four_digit_year.
  split; [discriminate|]. split; [discriminate|].
  vm_compute. split; discriminate.
Defined.

(** ** Reading daily_logs.txt *)

Section LogReload.

Variable env : Env.

Lemma load_daily_logs_fold (now' : Z) (lines : list str)
  (acc : list DailyLog) :
  fold_left (load_daily_logs_step env now') lines acc
  = acc ++ map (parse_log_line env now')
             (filter (fun l => negb (is_empty l)) lines).
Proof.
  revert acc. induction lines as [|l lines IH]; intros acc; cbn [fold_left].
  - cbn. now rewrite app_nil_r.
  - rewrite IH. unfold load_daily_logs_step. cbn [filter].
    destruct (is_empty l); cbn [negb map]; [reflexivity|].
    now rewrite <- app_assoc.
Qed.

Lemma load_daily_logs_frame (now' : Z) (w : World) :
  breaks (load_daily_logs env now' w) = breaks w
  /\ tasks (load_daily_logs env now' w) = tasks w
  /\ files (load_daily_logs env now' w) = files w.
Proof.
  unfold load_daily_logs. cbn [set_logs files].
  destruct (files w (path_in_data env (lit "daily_logs.txt"))); cbn; auto.
Qed.

(** X9: [load_daily_logs] never gives up on a file: it makes exactly one
    event of every non-empty line, in the order of the file, throws away
    what was in memory, and leaves the log empty when the file cannot be
    opened; breaks, tasks and files are not touched. *)
Theorem load_daily_logs_reads_every_line (now' : Z) (w : World) :
  dailyLogs (load_daily_logs env now' w)
  = match files w (daily_logs_path env) with
    | Some content =>
        map (parse_log_line env now')
          (filter (fun l => negb (is_empty l)) (Str.getlines content))
    | None => []
    end
  /\ breaks (load_daily_logs env now' w) = breaks w
  /\ tasks (load_daily_logs env now' w) = tasks w
  /\ files (load_daily_logs env now' w) = files w.
Proof.
  unfold load_daily_logs, daily_logs_path. cbn [set_logs files dailyLogs].
  destruct (files w (path_in_data env (lit "daily_logs.txt"))); cbn.
  - rewrite load_daily_logs_fold. auto.
  - auto.
Qed.

Lemma complete_lines_nl (a : str) : complete_lines (a ++ [NL]) = true.
Proof.
  induction a as [|x a IH]; [reflexivity|].
  cbn [app complete_lines]. destruct (a ++ [NL]) eqn:E; [|exact IH].
  now destruct a.
Qed.

Lemma log_file_line_of_event (now : Z) (d : DailyLog) :
  log_ts d <> 0 ->
  human_log_line env now (log_type d) (log_text d) (log_ts d) ++ [NL]
  = log_file_line env d.
Proof.
  intros H. unfold human_log_line, format_time_local, log_file_line.
  apply Z.eqb_neq in H. rewrite H. cbn [negb]. rewrite H.
  now rewrite <- !app_assoc.
Qed.

Lemma logs_of_content_line (now' : Z) (c : str) (d : DailyLog) :
  complete_lines c = true -> event_ok env d ->
  logs_of_content env now' (c ++ log_file_line env d)
  = logs_of_content env now' c ++ [d]
  /\ complete_lines (c ++ log_file_line env d) = true.
Proof.
  intros Hc (Hkind & Htext & H0 & H1 & Hy). split.
  - unfold kind_ok in Hkind.
    apply andb_true_iff in Hkind as [Hkind Hsep].
    apply andb_true_iff in Hkind as [Hknl Hknul].
    destruct (localtime_fields (env_tz env) (log_ts d))
      as (Hm & Hd & Hh & Hmi & Hs & _).
    set (T := strftime_local (localtime_r (env_tz env) (log_ts d))).
    assert (HT : sep_clear T = true)
      by (unfold four_digit_year in Hy; apply sep_clear_strftime_local;
          assumption || lia).
    unfold logs_of_content, Str.getlines, log_file_line. fold T.
    rewrite getlines_app_complete by (exact Hc || reflexivity).
    replace (T ++ SEP ++ log_type d ++ SEP ++ log_text d ++ [NL])
      with ((T ++ SEP ++ log_type d ++ SEP ++ log_text d) ++ [NL])
      by now rewrite <- !app_assoc.
    unfold Str.getlines at 1. rewrite getlines_from_line.
    + cbn [rev app]. rewrite fold_left_app.
      change (Str.getlines []) with (@nil str). cbn [fold_left].
      unfold load_daily_logs_step at 1.
      replace (is_empty (T ++ SEP ++ log_type d ++ SEP ++ log_text d))
        with false by now destruct T.
      rewrite parse_log_line_line by assumption.
      subst T. rewrite parse_timestamp_strftime by assumption.
      now destruct d.
    + rewrite !no_nl_app. subst T.
      now rewrite strftime_local_no_nl, Hknl, Htext.
  - unfold log_file_line.
    replace (c ++ strftime_local (localtime_r (env_tz env) (log_ts d)) ++ SEP
             ++ log_type d ++ SEP ++ log_text d ++ [NL])
      with ((c ++ strftime_local (localtime_r (env_tz env) (log_ts d)) ++ SEP
             ++ log_type d ++ SEP ++ log_text d) ++ [NL])
      by now rewrite <- !app_assoc.
    apply complete_lines_nl.
Qed.

Lemma logs_of_content_lines (now' : Z) (ds : list DailyLog) (c : str) :
  complete_lines c = true -> Forall (event_ok env) ds ->
  logs_of_content env now' (c ++ List.concat (map (log_file_line env) ds))
  = logs_of_content env now' c ++ ds
  /\ complete_lines (c ++ List.concat (map (log_file_line env) ds)) = true.
Proof.
  intros Hc H. revert c Hc.
  induction H as [|d ds Hd _ IH]; intros c Hc; cbn [map List.concat].
  - now rewrite !app_nil_r.
  - destruct (logs_of_content_line now' c d Hc Hd) as [E1 E2].
    rewrite app_assoc.
    destruct (IH _ E2) as [E3 E4]. rewrite E3, E1, <- app_assoc. now split.
Qed.

End LogReload.

(** ** Memory and files stay in step *)

Lemma export_name_not_core (f0 prefix ts : str) :
  In f0 core_files -> In prefix export_prefixes ->
  Str.eqb f0 (prefix ++ lit "_" ++ ts ++ lit ".txt") = false.
Proof.
  intros H0 Hp. cbn in H0, Hp.
  repeat (destruct H0 as [<-|H0]; [|]);
    try contradiction;
    repeat (destruct Hp as [<-|Hp]; [reflexivity|]); contradiction.
Qed.

Section Session.

Variable env : Env.

Lemma append_line_to_file_other (path line q : str) (w : World) :
  Str.eqb q path = false ->
  files (snd (append_line_to_file env path line w)) q = files w q.
Proof.
  intros H. unfold append_line_to_file.
  destruct (negb (env_can_write env path)); [reflexivity|].
  cbn. unfold fs_write. now rewrite H.
Qed.

Lemma append_daily_log_other (now : Z) (kind text q : str) (w : World) :
  Str.eqb q (daily_logs_path env) = false ->
  files (append_daily_log env now kind text w) q = files w q.
Proof.
  intros H. unfold append_daily_log.
  now rewrite append_line_to_file_other.
Qed.

Lemma path_nonempty_eqb (f : str) :
  f <> [] -> Str.eqb (path_in_data env f) [] = false.
Proof.
  intros H. pose proof (path_in_data_nonempty env f H) as Hp.
  now destruct (path_in_data env f).
Qed.

Lemma export_path_not_core (now : Z) (prefix content f0 : str) (w : World) :
  In f0 core_files -> In prefix export_prefixes ->
  Str.eqb (path_in_data env f0)
    (fst (export_text_to_file env now prefix content w)) = false.
Proof.
  intros H0 Hp. unfold export_text_to_file.
  destruct (negb (env_can_write env _)); cbn [fst].
  - apply path_nonempty_eqb. cbn in H0.
    destruct H0 as [<-|[<-|[]]]; discriminate.
  - apply path_in_data_neq. now apply export_name_not_core.
Qed.

(** *** The event log *)

Lemma log_synced_change (w w' : World) :
  dailyLogs w' = dailyLogs w ->
  files w' (daily_logs_path env) = files w (daily_logs_path env) ->
  log_synced env w -> log_synced env w'.
Proof.
  intros Hl Hf (Hopen & Hc & Hload). unfold log_synced.
  split; [exact Hopen|]. unfold fs_content. rewrite Hf. split; [exact Hc|].
  intros now'. rewrite dailyLogs_load_daily_logs, Hl, <- (Hload now').
  rewrite dailyLogs_load_daily_logs. unfold fs_content. now rewrite Hf.
Qed.

Lemma log_synced_append (now : Z) (kind text : str) (w : World) :
  kind_ok kind = true -> no_nl text = true -> clock_ok env now ->
  log_synced env w -> log_synced env (append_daily_log env now kind text w).
Proof.
  intros Hk Ht (H0 & H1 & Hy) (Hopen & Hc & Hload).
  assert (Hnul : Str.c_str kind = kind).
  { apply c_str_no_nul. unfold kind_ok in Hk.
    apply andb_true_iff in Hk as [Hk _]. now apply andb_true_iff in Hk. }
  assert (Hd : event_ok env (mkLog now kind text))
    by exact (conj Hk (conj Ht (conj H0 (conj H1 Hy)))).
  pose proof (files_append_daily_log env now kind text w Hopen) as Hf.
  rewrite Hnul in Hf.
  change (human_log_line env now kind text now)
    with (human_log_line env now (log_type (mkLog now kind text))
            (log_text (mkLog now kind text)) (log_ts (mkLog now kind text)))
    in Hf.
  rewrite log_file_line_of_event in Hf by exact H0.
  unfold log_synced. split; [exact Hopen|]. rewrite Hf. split.
  - now apply logs_of_content_line.
  - intros now'. rewrite dailyLogs_load_daily_logs, Hf.
    rewrite (proj1 (logs_of_content_line env now' _ _ Hc Hd)).
    rewrite dailyLogs_append_daily_log, Hnul, <- (Hload now').
    now rewrite dailyLogs_load_daily_logs.
Qed.

Lemma no_nl_path (f : str) :
  home_ok env -> no_nl f = true -> no_nl (path_in_data env f) = true.
Proof.
  intros Hh Hf. unfold path_in_data.
  destruct (negb (ensure_dir_exists env (user_data_dir env))); [exact Hf|].
  unfold user_data_dir, home_ok in *. rewrite !no_nl_app, Hf.
  destruct (env_HOME env) as [h|]; [|reflexivity].
  now rewrite !no_nl_app, Hh.
Qed.

Lemma strftime_compact_no_nl (b : tm) : no_nl (strftime_compact b) = true.
Proof.
  unfold strftime_compact. rewrite !no_nl_app, !pad_num_no_nl. reflexivity.
Qed.

Lemma no_nl_export_path (now : Z) (prefix content : str) (w : World) :
  home_ok env -> no_nl prefix = true ->
  no_nl (fst (export_text_to_file env now prefix content w)) = true.
Proof.
  intros Hh Hp. unfold export_text_to_file.
  destruct (negb (env_can_write env _)); [reflexivity|]. cbn [fst].
  apply no_nl_path; [exact Hh|].
  now rewrite !no_nl_app, Hp, strftime_compact_no_nl.
Qed.

Lemma no_nl_prefix (prefix : str) :
  In prefix export_prefixes -> no_nl prefix = true.
Proof.
  intros H. cbn in H.
  repeat (destruct H as [<-|H]; [reflexivity|]). contradiction.
Qed.

Lemma log_synced_export (now : Z) (prefix content : str) (w : World) :
  In prefix export_prefixes -> log_synced env w ->
  log_synced env (snd (export_text_to_file env now prefix content w)).
Proof.
  intros Hp H.
  destruct (export_text_to_file_effects env now prefix content w)
    as (Hl & _ & _ & Hf).
  apply (log_synced_change w); [exact Hl| |exact H].
  apply Hf. apply export_path_not_core; [now left|exact Hp].
Qed.

Lemma log_synced_export_and_log (now : Z) (prefix what content : str)
  (w : World) :
  home_ok env -> clock_ok env now -> In prefix export_prefixes ->
  no_nl what = true -> log_synced env w ->
  log_synced env
    (export_and_log env now what (export_text_to_file env now prefix content w)).
Proof.
  intros Hh Hclock Hp Hwhat H. unfold export_and_log.
  pose proof (log_synced_export now prefix content w Hp H) as H'.
  destruct (negb (is_empty _)); [|exact H'].
  apply log_synced_append; try assumption; [reflexivity|].
  rewrite no_nl_app, Hwhat.
  now rewrite no_nl_export_path by (assumption || now apply no_nl_prefix).
Qed.

Lemma log_synced_nothing (now : Z) (what : str) (w : World) :
  log_synced env w -> log_synced env (export_and_log env now what ([], w)).
Proof. intros H. exact H. Qed.

Lemma log_synced_other_file (f line : str) (w : World) :
  Str.eqb (lit "daily_logs.txt") f = false -> log_synced env w ->
  log_synced env (snd (append_line_to_file env (path_in_data env f) line w)).
Proof.
  intros Hf H. apply (log_synced_change w); [| |exact H].
  - apply (append_line_to_file_mem env).
  - apply append_line_to_file_other. now apply path_in_data_neq.
Qed.

Lemma log_synced_save_tasks (w : World) :
  log_synced env w -> log_synced env (save_tasks env w).
Proof.
  intros H. unfold save_tasks.
  destruct (negb (env_can_write env _)); [exact H|].
  apply (log_synced_change w); [reflexivity| |exact H].
  cbn [set_files files]. unfold fs_write, daily_logs_path.
  now rewrite (path_in_data_neq env (lit "daily_logs.txt") (lit "tasks.txt")).
Qed.

Lemma format_time_local_no_nl (t : Z) : no_nl (format_time_local env t) = true.
Proof.
  unfold format_time_local.
  destruct (t =? 0); [reflexivity | apply strftime_local_no_nl].
Qed.

End Session.

Section SessionLog.

Variable env : Env.
Hypothesis Hhome : home_ok env.

Lemma types_append_daily_log (now : Z) (kind text : str) (w : World) :
  break_types_one_line w ->
  break_types_one_line (append_daily_log env now kind text w).
Proof. unfold break_types_one_line. now rewrite breaks_append_daily_log. Qed.

Lemma log_start_break (now : Z) (type : str) (w : World) :
  clock_ok env now -> no_nl type = true ->
  log_synced env w /\ break_types_one_line w ->
  log_synced env (start_break env now type w)
  /\ break_types_one_line (start_break env now type w).
Proof.
  intros Hc Ht [Hs Hb]. split.
  - unfold start_break.
    apply log_synced_append; [reflexivity|exact Ht|exact Hc|].
    now apply (log_synced_change env w).
  - unfold break_types_one_line. rewrite breaks_start_break.
    apply Forall_app. split; [exact Hb|]. now constructor.
Qed.

Lemma log_end_last_break (now : Z) (type : str) (w : World) :
  clock_ok env now -> no_nl type = true ->
  log_synced env w /\ break_types_one_line w ->
  log_synced env (end_last_break_of_type env now type w)
  /\ break_types_one_line (end_last_break_of_type env now type w).
Proof.
  intros Hc Ht [Hs Hb]. unfold end_last_break_of_type.
  destruct (end_scan now type (rev (breaks w))) as [[it rbs]|] eqn:E.
  - apply end_scan_some in E as (pre & it0 & post & Hrev & Ho & _ & -> & ->).
    unfold is_open_of in Ho. apply andb_true_iff in Ho as [Ho _].
    apply str_eqb_true in Ho. split.
    + apply log_synced_append; [reflexivity| |exact Hc|].
      * cbn [brk_type brk_start brk_end].
        now rewrite !no_nl_app, !format_time_local_no_nl, Ho, Ht.
      * now apply (log_synced_change env w).
    + apply types_append_daily_log. unfold break_types_one_line in *.
      cbn [breaks set_breaks]. apply Forall_rev.
      apply Forall_rev in Hb. rewrite Hrev in Hb.
      apply Forall_app in Hb as [Hpre Hpost].
      apply Forall_app. split; [exact Hpre|].
      inversion Hpost; subst. now constructor.
  - split.
    + apply log_synced_append; [reflexivity|exact Ht|exact Hc|exact Hs].
    + now apply types_append_daily_log.
Qed.

Lemma no_nl_preset (dtype : nat) : no_nl (nth dtype kBreakTypes []) = true.
Proof. do 6 (destruct dtype as [|dtype]; [reflexivity|]). reflexivity. Qed.

Lemma log_add_random_break (now : Z) (dtype : nat) (dmin : Z) (w : World) :
  clock_ok env now ->
  log_synced env w /\ break_types_one_line w ->
  log_synced env (add_random_break env now dtype dmin w)
  /\ break_types_one_line (add_random_break env now dtype dmin w).
Proof.
  intros Hc [Hs Hb]. split.
  - unfold add_random_break.
    apply log_synced_append; [reflexivity| |exact Hc|].
    + cbn [brk_type brk_start brk_end].
      now rewrite !no_nl_app, !format_time_local_no_nl, no_nl_preset.
    + now apply (log_synced_change env w).
  - unfold break_types_one_line. rewrite breaks_add_random_break.
    apply Forall_app. split; [exact Hb|].
    constructor; [apply no_nl_preset|constructor].
Qed.

Lemma set_end_types (i : nat) (now : Z) (bs : list BreakEntry) :
  Forall (fun b => no_nl (brk_type b) = true) bs ->
  Forall (fun b => no_nl (brk_type b) = true) (set_end i now bs).
Proof.
  intros H. revert i. induction H as [|b bs Hb Hbs IH]; intros i.
  - destruct i; constructor.
  - destruct i; cbn; constructor; auto.
Qed.

Lemma nth_error_type (i : nat) (b : BreakEntry) (w : World) :
  break_types_one_line w -> nth_error (breaks w) i = Some b ->
  no_nl (brk_type b) = true.
Proof.
  intros H E. apply nth_error_In in E.
  unfold break_types_one_line in H. rewrite Forall_forall in H. now apply H.
Qed.

Lemma log_on_end_row (now : Z) (i : nat) (w : World) :
  clock_ok env now ->
  log_synced env w /\ break_types_one_line w ->
  log_synced env (on_end_row env now i w)
  /\ break_types_one_line (on_end_row env now i w).
Proof.
  intros Hc [Hs Hb]. unfold on_end_row.
  destruct (nth_error (breaks w) i) as [b|] eqn:E; [|now split].
  destruct (brk_end b =? 0); [|now split].
  pose proof (nth_error_type i b w Hb E) as Ht. split.
  - apply log_synced_append; [reflexivity|exact Ht|exact Hc|].
    now apply (log_synced_change env w).
  - apply types_append_daily_log. unfold break_types_one_line.
    cbn [breaks set_breaks]. now apply set_end_types.
Qed.

Lemma breaks_save_tasks (w : World) : breaks (save_tasks env w) = breaks w.
Proof.
  unfold save_tasks. now destruct (negb (env_can_write env _)).
Qed.

Lemma log_add_task (now : Z) (name : str) (parent_idx : Z) (w : World) :
  clock_ok env now -> no_nl name = true ->
  log_synced env w /\ break_types_one_line w ->
  log_synced env (add_task env now name parent_idx w)
  /\ break_types_one_line (add_task env now name parent_idx w).
Proof.
  intros Hc Hn [Hs Hb]. unfold add_task. split.
  - apply log_synced_append; [reflexivity|exact Hn|exact Hc|].
    apply log_synced_save_tasks. now apply (log_synced_change env w).
  - apply types_append_daily_log. unfold break_types_one_line.
    now rewrite breaks_save_tasks.
Qed.

Lemma log_toggle_task (idx : Z) (done : bool) (w : World) :
  log_synced env w /\ break_types_one_line w ->
  log_synced env (toggle_task env idx done w)
  /\ break_types_one_line (toggle_task env idx done w).
Proof.
  intros [Hs Hb]. unfold toggle_task.
  destruct ((idx <? 0) || _); [now split|]. split.
  - apply log_synced_save_tasks. now apply (log_synced_change env w).
  - unfold break_types_one_line. now rewrite breaks_save_tasks.
Qed.

Lemma types_export_and_log (now : Z) (what : str) (r : str * World)
  (w : World) :
  breaks (snd r) = breaks w -> break_types_one_line w ->
  break_types_one_line (export_and_log env now what r).
Proof.
  intros E Hb. unfold export_and_log.
  destruct (negb (is_empty (fst r))).
  - apply types_append_daily_log. unfold break_types_one_line. now rewrite E.
  - unfold break_types_one_line. now rewrite E.
Qed.

Lemma log_export_button (now : Z) (prefix what content : str) (w : World) :
  clock_ok env now -> In prefix export_prefixes -> no_nl what = true ->
  log_synced env w /\ break_types_one_line w ->
  log_synced env
    (export_and_log env now what
       (export_text_to_file env now prefix content w))
  /\ break_types_one_line
       (export_and_log env now what
          (export_text_to_file env now prefix content w)).
Proof.
  intros Hc Hp Hw [Hs Hb]. split.
  - now apply log_synced_export_and_log.
  - apply (types_export_and_log _ _ _ w); [|exact Hb].
    apply export_text_to_file_effects.
Qed.

Lemma on_export_status_pattern (now : Z) (prefix what buffer : str)
  (w : World) :
  on_export_status env now prefix what buffer w
  = export_and_log env now what
      (export_text_to_file env now prefix (Str.c_str buffer) w).
Proof.
  unfold on_export_status, export_and_log.
  now destruct (export_text_to_file env now prefix (Str.c_str buffer) w).
Qed.

Lemma on_export_weekly_logs_pattern (now : Z) (w : World) :
  on_export_weekly_logs env now w
  = export_and_log env now (lit "Exported weekly logs to ")
      (export_weekly_logs_file env now w).
Proof.
  unfold on_export_weekly_logs, export_and_log.
  now destruct (export_weekly_logs_file env now w).
Qed.

Lemma on_export_hourly_today_pattern (now : Z) (w : World) :
  on_export_hourly_today env now w
  = export_and_log env now (lit "Exported hourly logs (today) to ")
      (export_hourly_logs_today env now w).
Proof.
  unfold on_export_hourly_today, export_and_log.
  now destruct (export_hourly_logs_today env now w).
Qed.

Lemma save_daily_status_pattern (now : Z) (text : str) (w : World) :
  save_daily_status_to_disk_and_log env now text w
  = export_and_log env now (lit "Exported daily status to ")
      (export_text_to_file env now (lit "daily_status_saved")
         (Str.c_str text)
         (append_daily_log env now (lit "DAILY_STATUS") text
            (snd (append_line_to_file env
                    (path_in_data env (lit "daily_status.txt"))
                    (human_log_line env now (lit "DAILY_STATUS") text 0)
                    w)))).
Proof.
  unfold save_daily_status_to_disk_and_log, export_and_log.
  now destruct (export_text_to_file env now (lit "daily_status_saved") _ _).
Qed.

Lemma save_weekly_status_pattern (now : Z) (text : str) (w : World) :
  save_weekly_status_to_disk_and_log env now text w
  = export_and_log env now (lit "Exported weekly status to ")
      (export_text_to_file env now (lit "weekly_status_saved")
         (Str.c_str text)
         (append_daily_log env now (lit "WEEKLY_STATUS") text
            (snd (append_line_to_file env
                    (path_in_data env (lit "weekly_status.txt"))
                    (human_log_line env now (lit "WEEKLY_STATUS") text 0)
                    w)))).
Proof.
  unfold save_weekly_status_to_disk_and_log, export_and_log.
  now destruct (export_text_to_file env now (lit "weekly_status_saved") _ _).
Qed.

Lemma log_save_status (now : Z) (f kind prefix what text : str) (w : World) :
  clock_ok env now -> no_nl text = true ->
  Str.eqb (lit "daily_logs.txt") f = false -> kind_ok kind = true ->
  In prefix export_prefixes -> no_nl what = true ->
  log_synced env w /\ break_types_one_line w ->
  let w1 := append_daily_log env now kind text
              (snd (append_line_to_file env (path_in_data env f)
                      (human_log_line env now kind text 0) w)) in
  log_synced env
    (export_and_log env now what
       (export_text_to_file env now prefix (Str.c_str text) w1))
  /\ break_types_one_line
       (export_and_log env now what
          (export_text_to_file env now prefix (Str.c_str text) w1)).
Proof.
  intros Hc Ht Hf Hk Hp Hw [Hs Hb] w1.
  apply log_export_button; try assumption. split.
  - apply log_synced_append; [exact Hk|exact Ht|exact Hc|].
    now apply log_synced_other_file.
  - apply types_append_daily_log. unfold break_types_one_line.
    now rewrite (proj1 (proj2 (append_line_to_file_mem env _ _ w))).
Qed.

Lemma action_keeps_log (now : Z) (a : Action) (w : World) :
  clock_ok env now -> action_one_line a ->
  log_synced env w /\ break_types_one_line w ->
  log_synced env (run_action env now a w)
  /\ break_types_one_line (run_action env now a w).
Proof.
  intros Hc Ha H. destruct a; cbn [run_action action_one_line] in *.
  - unfold on_log_now. destruct (negb (is_empty _)); [|exact H].
    destruct H as [Hs Hb]. split.
    + apply log_synced_append; [reflexivity|exact Ha|exact Hc|exact Hs].
    + now apply types_append_daily_log.
  - now apply log_start_break.
  - now apply log_end_last_break.
  - now apply log_add_random_break.
  - now apply log_on_end_row.
  - now apply log_add_task.
  - now apply log_toggle_task.
  - destruct H as [Hs Hb]. split; [now apply log_synced_save_tasks|].
    unfold break_types_one_line. now rewrite breaks_save_tasks.
  - unfold on_save_daily_status. destruct (negb (is_empty _)); [|exact H].
    rewrite save_daily_status_pattern.
    apply (log_save_status now (lit "daily_status.txt")); try assumption;
      try reflexivity. cbn; auto 10.
  - unfold on_save_weekly_status. destruct (negb (is_empty _)); [|exact H].
    rewrite save_weekly_status_pattern.
    apply (log_save_status now (lit "weekly_status.txt")); try assumption;
      try reflexivity. cbn; auto 10.
  - rewrite on_export_status_pattern.
    apply log_export_button; try assumption; [cbn; auto 10|reflexivity].
  - rewrite on_export_status_pattern.
    apply log_export_button; try assumption; [cbn; auto 10|reflexivity].
  - rewrite on_export_weekly_logs_pattern. unfold export_weekly_logs_file.
    destruct (is_empty (dailyLogs w)); [exact H|].
    apply log_export_button; try assumption; [cbn; auto 10|reflexivity].
  - rewrite on_export_hourly_today_pattern. unfold export_hourly_logs_today.
    destruct (is_empty (dailyLogs w)); [exact H|].
    destruct (is_empty _); [exact H|].
    apply log_export_button; try assumption; [cbn; auto 10|reflexivity].
Qed.

(** X10: in a time zone with a fixed offset from UTC, while the user logs
    notes, starts and ends breaks (by category or with the button "End i"),
    adds and toggles tasks, saves statuses and exports, at clock readings
    that a timestamp keeps and with free text on one line, [daily_logs.txt]
    and the events in memory stay in step: a reload of the file at any time
    gives exactly the events in memory, those that contain [" - "]
    included.  Clear-All, "Save Daily Logs" and "Start i" are not among the
    actions. *)
Theorem session_keeps_the_log_in_step (acts : list (Z * Action)) (w : World) :
  log_synced env w -> break_types_one_line w ->
  Forall (fun x => clock_ok env (fst x) /\ action_one_line (snd x)) acts ->
  log_synced env (run_actions env acts w).
Proof.
  intros Hs Hb Hacts. revert w Hs Hb.
  induction Hacts as [|[now a] acts [Hc Ha] _ IH]; intros w Hs Hb;
    [exact Hs|].
  cbn [run_actions].
  destruct (action_keeps_log now a w Hc Ha (conj Hs Hb)) as [Hs' Hb'].
  now apply IH.
Qed.

End SessionLog.

(** *** The task file *)

Section SessionTasks.

Variable env : Env.

Lemma tasks_kept_refl (w : World) : tasks_kept env w w.
Proof. now split. Qed.

Lemma tasks_kept_trans (w1 w2 w3 : World) :
  tasks_kept env w1 w2 -> tasks_kept env w2 w3 -> tasks_kept env w1 w3.
Proof. intros [A B] [C D]. split; congruence. Qed.

Lemma tasks_kept_append_line (f line : str) (w : World) :
  Str.eqb (lit "tasks.txt") f = false ->
  tasks_kept env w (snd (append_line_to_file env (path_in_data env f) line w)).
Proof.
  intros Hf. split.
  - apply (append_line_to_file_mem env).
  - apply append_line_to_file_other. now apply path_in_data_neq.
Qed.

Lemma tasks_kept_append_daily_log (now : Z) (kind text : str) (w : World) :
  tasks_kept env w (append_daily_log env now kind text w).
Proof.
  split; [apply tasks_append_daily_log|].
  apply append_daily_log_other. now apply path_in_data_neq.
Qed.

Lemma tasks_kept_breaks (w : World) (bs : list BreakEntry) :
  tasks_kept env w (set_breaks w bs).
Proof. now split. Qed.

Lemma tasks_kept_export (now : Z) (prefix content : str) (w : World) :
  In prefix export_prefixes ->
  tasks_kept env w (snd (export_text_to_file env now prefix content w)).
Proof.
  intros Hp.
  destruct (export_text_to_file_effects env now prefix content w)
    as (_ & _ & Ht & Hf).
  split; [exact Ht|]. apply Hf.
  apply export_path_not_core; [right; now left|exact Hp].
Qed.

Lemma tasks_kept_export_and_log (now : Z) (what : str) (r : str * World)
  (w : World) :
  tasks_kept env w (snd r) -> tasks_kept env w (export_and_log env now what r).
Proof.
  intros H. unfold export_and_log.
  destruct (negb (is_empty (fst r))); [|exact H].
  eapply tasks_kept_trans; [exact H|apply tasks_kept_append_daily_log].
Qed.

Lemma tasks_kept_start_break (now : Z) (type : str) (w : World) :
  tasks_kept env w (start_break env now type w).
Proof.
  unfold start_break.
  eapply tasks_kept_trans;
    [apply tasks_kept_breaks|apply tasks_kept_append_daily_log].
Qed.

Lemma tasks_kept_save_status (now : Z) (f kind prefix what text : str)
  (w : World) :
  Str.eqb (lit "tasks.txt") f = false -> In prefix export_prefixes ->
  tasks_kept env w
    (export_and_log env now what
       (export_text_to_file env now prefix (Str.c_str text)
          (append_daily_log env now kind text
             (snd (append_line_to_file env (path_in_data env f)
                     (human_log_line env now kind text 0) w))))).
Proof.
  intros Hf Hp. apply tasks_kept_export_and_log.
  eapply tasks_kept_trans; [|apply tasks_kept_export; exact Hp].
  eapply tasks_kept_trans;
    [apply tasks_kept_append_line; exact Hf
    |apply tasks_kept_append_daily_log].
Qed.

Lemma tasks_synced_kept (w w' : World) :
  tasks_kept env w w' -> tasks_synced env w -> tasks_synced env w'.
Proof.
  intros [Ht Hf] [Hopen Hc]. split; [exact Hopen|].
  unfold fs_content in *. now rewrite Hf, Ht.
Qed.

Lemma tasks_synced_save (w : World) :
  env_can_write env (tasks_path env) = true ->
  tasks_synced env (save_tasks env w).
Proof.
  intros Hopen. split; [exact Hopen|].
  rewrite tasks_save_tasks. unfold save_tasks. fold (tasks_path env).
  rewrite Hopen. cbn [negb set_files files]. unfold fs_content.
  now rewrite fs_write_read, save_tasks_loop_text.
Qed.

Lemma action_keeps_tasks (now : Z) (a : Action) (w : World) :
  tasks_synced env w -> tasks_synced env (run_action env now a w).
Proof.
  intros H. pose proof (proj1 H) as Hopen.
  destruct a; cbn [run_action].
  - unfold on_log_now. destruct (negb (is_empty _)); [|exact H].
    eapply tasks_synced_kept; [apply tasks_kept_append_daily_log|exact H].
  - eapply tasks_synced_kept; [apply tasks_kept_start_break|exact H].
  - unfold end_last_break_of_type.
    destruct (end_scan now type (rev (breaks w))) as [[it rbs]|].
    + eapply tasks_synced_kept; [|exact H].
      eapply tasks_kept_trans;
        [apply tasks_kept_breaks|apply tasks_kept_append_daily_log].
    + eapply tasks_synced_kept; [apply tasks_kept_append_daily_log|exact H].
  - unfold add_random_break. eapply tasks_synced_kept; [|exact H].
    eapply tasks_kept_trans;
      [apply tasks_kept_breaks|apply tasks_kept_append_daily_log].
  - unfold on_end_row. destruct (nth_error (breaks w) i) as [b|]; [|exact H].
    destruct (brk_end b =? 0); [|exact H].
    eapply tasks_synced_kept; [|exact H].
    eapply tasks_kept_trans;
      [apply tasks_kept_breaks|apply tasks_kept_append_daily_log].
  - unfold add_task.
    eapply tasks_synced_kept; [apply tasks_kept_append_daily_log|].
    now apply tasks_synced_save.
  - unfold toggle_task. destruct ((idx <? 0) || _); [exact H|].
    now apply tasks_synced_save.
  - now apply tasks_synced_save.
  - unfold on_save_daily_status. destruct (negb (is_empty _)); [|exact H].
    rewrite save_daily_status_pattern.
    eapply tasks_synced_kept; [|exact H].
    apply tasks_kept_save_status; [reflexivity|cbn; auto 10].
  - unfold on_save_weekly_status. destruct (negb (is_empty _)); [|exact H].
    rewrite save_weekly_status_pattern.
    eapply tasks_synced_kept; [|exact H].
    apply tasks_kept_save_status; [reflexivity|cbn; auto 10].
  - rewrite on_export_status_pattern.
    eapply tasks_synced_kept; [|exact H].
    apply tasks_kept_export_and_log, tasks_kept_export. cbn; auto 10.
  - rewrite on_export_status_pattern.
    eapply tasks_synced_kept; [|exact H].
    apply tasks_kept_export_and_log, tasks_kept_export. cbn; auto 10.
  - rewrite on_export_weekly_logs_pattern.
    eapply tasks_synced_kept; [|exact H].
    apply tasks_kept_export_and_log. unfold export_weekly_logs_file.
    destruct (is_empty (dailyLogs w)); [apply tasks_kept_refl|].
    apply tasks_kept_export. cbn; auto 10.
  - rewrite on_export_hourly_today_pattern.
    eapply tasks_synced_kept; [|exact H].
    apply tasks_kept_export_and_log. unfold export_hourly_logs_today.
    destruct (is_empty (dailyLogs w)); [apply tasks_kept_refl|].
    destruct (is_empty _); [apply tasks_kept_refl|].
    apply tasks_kept_export. cbn; auto 10.
Qed.

(** X11: once [tasks.txt] holds the tasks in memory it keeps doing so through
    every sequence of the actions of [Action], whatever their texts.
    Clear-All is not among them: it empties the task list and leaves the
    file. *)
Theorem session_keeps_the_tasks_in_step
  (acts : list (Z * Action)) (w : World) :
  tasks_synced env w -> tasks_synced env (run_actions env acts w).
Proof.
  revert w. induction acts as [|[now a] acts IH]; intros w H; [exact H|].
  cbn [run_actions]. apply IH. now apply action_keeps_tasks.
Qed.

Lemma tasks_text_nil (i : nat) (ts : list Task) :
  tasks_text i ts = [] -> ts = [].
Proof.
  destruct ts as [|t ts]; [reflexivity|]. cbn [tasks_text].
  rewrite task_line_body. intros H.
  apply app_eq_nil in H as [H _]. apply app_eq_nil in H as [_ H].
  discriminate H.
Qed.

Lemma load_tasks_synced (w w0 : World) :
  files w0 = files w -> tasks_synced env w -> Forall task_ok (tasks w) ->
  tasks (load_tasks env w0) = tasks w.
Proof.
  intros Hf [_ Hc] Hok. unfold load_tasks. cbn [set_tasks files tasks].
  fold (tasks_path env). unfold fs_content in Hc. rewrite Hf.
  destruct (files w (tasks_path env)) as [c|].
  - cbn [tasks]. rewrite Hc. now rewrite (load_tasks_text _ _ [] Hok).
  - cbn [tasks]. symmetry. now apply (tasks_text_nil 0).
Qed.

(** X12: Clear-All empties the memory only, so what [main] runs at its start
    ([load_tasks], then [load_daily_logs]) right after it, or after a
    restart, brings every event and every task back from the files that
    were in step with the memory; the breaks, which no file holds, are
    gone. *)
Theorem startup_after_clear_all_restores (now' : Z) (w : World) :
  log_synced env w -> tasks_synced env w -> Forall task_ok (tasks w) ->
  let w' := startup env now' (clearAllData w) in
  dailyLogs w' = dailyLogs w /\ tasks w' = tasks w /\ breaks w' = []
  /\ files w' = files w.
Proof.
  intros (_ & _ & Hload) Ht Hok. cbv zeta. unfold startup.
  destruct (load_daily_logs_frame env now'
              (load_tasks env (clearAllData w))) as (Hb & Htk & Hf).
  assert (Hfl : files (load_tasks env (clearAllData w)) = files w).
  { unfold load_tasks. cbn [set_tasks files clearAllData].
    now destruct (files w (path_in_data env (lit "tasks.txt"))). }
  repeat split.
  - rewrite <- (Hload now'), !dailyLogs_load_daily_logs. now rewrite Hfl.
  - rewrite Htk. now apply load_tasks_synced.
  - rewrite Hb. unfold load_tasks. cbn [set_tasks files clearAllData].
    now destruct (files w (path_in_data env (lit "tasks.txt"))).
  - now rewrite Hf.
Qed.

(** *** The menu item "Save Daily Logs" *)

Lemma save_daily_logs_fold (now : Z) (ds : list DailyLog) (w : World) :
  env_can_write env (daily_logs_path env) = true ->
  Forall (event_ok env) ds ->
  let w' :=
    fold_left
      (fun w d =>
         snd (append_line_to_file env (path_in_data env (lit "daily_logs.txt"))
                (human_log_line env now (Str.c_str (log_type d)) (log_text d)
                   (log_ts d)) w))
      ds w in
  dailyLogs w' = dailyLogs w
  /\ fs_content (files w') (daily_logs_path env)
     = fs_content (files w) (daily_logs_path env)
       ++ List.concat (map (log_file_line env) ds).
Proof.
  intros Hopen H. revert w.
  induction H as [|d ds Hd _ IH]; intros w; cbn [fold_left map List.concat].
  - now rewrite app_nil_r.
  - destruct (IH (snd (append_line_to_file env
                         (path_in_data env (lit "daily_logs.txt"))
                         (human_log_line env now (Str.c_str (log_type d))
                            (log_text d) (log_ts d)) w))) as [E1 E2].
    split.
    + rewrite E1. apply (append_line_to_file_mem env).
    + rewrite E2. unfold append_line_to_file at 1.
      fold (daily_logs_path env). rewrite Hopen.
      cbn [negb snd set_files files]. unfold fs_content at 1.
      rewrite fs_write_read.
      destruct Hd as (Hk & _ & H0 & _).
      unfold kind_ok in Hk. apply andb_true_iff in Hk as [Hk _].
      apply andb_true_iff in Hk as [_ Hnul].
      rewrite (c_str_no_nul _ Hnul), <- !app_assoc.
      f_equal. rewrite app_assoc. f_equal.
      now apply log_file_line_of_event.
Qed.

(** X13: the menu item "Save Daily Logs" appends every event in memory to
    [daily_logs.txt] once more: when file and memory were in step, a reload
    afterwards gives every event twice. *)
Theorem save_daily_logs_doubles_the_file (now now' : Z) (w : World) :
  log_synced env w -> Forall (event_ok env) (dailyLogs w) ->
  dailyLogs (on_save_daily_logs env now w) = dailyLogs w
  /\ dailyLogs (load_daily_logs env now' (on_save_daily_logs env now w))
     = dailyLogs w ++ dailyLogs w.
Proof.
  intros (Hopen & Hc & Hload) Hok.
  destruct (save_daily_logs_fold now (dailyLogs w) w Hopen Hok) as [E1 E2].
  fold (on_save_daily_logs env now w) in E1, E2.
  split; [exact E1|].
  rewrite dailyLogs_load_daily_logs, E2.
  rewrite (proj1 (logs_of_content_lines env now' _ _ Hc Hok)).
  now rewrite <- dailyLogs_load_daily_logs, Hload.
Qed.

End SessionTasks.

(** *** The properties of a session on a concrete run *)

Ltac concrete_clock :=
  unfold clock_ok, four_digit_year;
  split; [discriminate|]; split; [discriminate|];
  vm_compute; split; discriminate.

Lemma world_empty_log_synced : log_synced env_utc world_empty.
Proof. repeat split. Qed.

Lemma world_with_files_log_synced : log_synced env_utc world_with_files.
Proof. repeat split. Qed.

Lemma session_keeps_the_log_in_step_witness :
  log_synced env_utc
    (run_actions env_utc
       [(1704153601, ALogNow (lit "read mail - then the report"));
        (1704153700, AStartBreak (lit "Coffee"));
        (1704153800, ARandomBreak 1 5);
        (1704154000, AEndBreak (lit "Coffee"));
        (1704154100, AAddTask (lit "report") (-1));
        (1704154200, AExportWeeklyLogs)]
       world_empty).
Proof.
  apply session_keeps_the_log_in_step.
  - reflexivity.
  - exact world_empty_log_synced.
  - constructor.
  - repeat (apply Forall_cons;
            [split; [concrete_clock|try reflexivity; exact I]|]).
    apply Forall_nil.
Defined.

Lemma session_keeps_the_tasks_in_step_witness :
  tasks_synced env_utc
    (run_actions env_utc
       [(1704154100, AAddTask (lit " a name with (parent=x)") 3);
        (1704154200, AToggle 0 true);
        (1704154300, ASaveDailyStatus (lit "tasks.txt"))]
       world_empty).
Proof.
  apply session_keeps_the_tasks_in_step. split; reflexivity.
Defined.

Lemma startup_after_clear_all_restores_witness :
  dailyLogs (startup env_utc 1704200000 (clearAllData world_with_files))
  = dailyLogs world_with_files
  /\ tasks (startup env_utc 1704200000 (clearAllData world_with_files))
     = tasks world_with_files.
Proof.
  pose proof (startup_after_clear_all_restores env_utc 1704200000
                world_with_files) as H.
  cbv zeta in H. destruct H as (H1 & H2 & _).
  - exact world_with_files_log_synced.
  - split; reflexivity.
  - apply Forall_cons; [|apply Forall_nil].
    split; [reflexivity|]. unfold is_int, INT_MIN, INT_MAX. cbn. lia.
  - split; [exact H1|exact H2].
Defined.

Lemma save_daily_logs_doubles_the_file_witness :
  dailyLogs (load_daily_logs env_utc 1704200000
               (on_save_daily_logs env_utc 1704190000 world_with_files))
  = dailyLogs world_with_files ++ dailyLogs world_with_files.
Proof.
  apply save_daily_logs_doubles_the_file.
  - exact world_with_files_log_synced.
  - apply Forall_cons; [|apply Forall_nil].
    split; [reflexivity|]. split; [reflexivity|]. concrete_clock.
Defined.

(** ** More on breaks *)

Section MoreBreaks.

Variable env : Env.

Lemma end_scan_finds (now : Z) (type : str) (rbs : list BreakEntry) :
  existsb (is_open_of type) rbs = true ->
  exists c r', end_scan now type rbs = Some (c, r').
Proof.
  induction rbs as [|b r IH]; cbn; [discriminate|].
  unfold is_open_of at 1.
  destruct (Str.eqb (brk_type b) type && (brk_end b =? 0)); cbn.
  - intros _. eauto.
  - intros H. destruct (IH H) as (c & r' & ->). eauto.
Qed.

(** X14: when the category has an open entry, [end_last_break_of_type] sets
    the end of the last open entry of that category to the clock reading,
    leaves every other entry as it is, and logs one BREAK_END event with the
    category and the two formatted times. *)
Theorem end_closes_the_last_open_entry (now : Z) (type : str) (w : World) :
  has_open type (breaks w) = true ->
  exists pre it post,
    breaks w = pre ++ it :: post
    /\ is_open_of type it = true
    /\ has_open type post = false
    /\ breaks (end_last_break_of_type env now type w)
       = pre ++ mkBreak type (brk_start it) now :: post
    /\ dailyLogs (end_last_break_of_type env now type w)
       = dailyLogs w
         ++ [mkLog now (lit "BREAK_END")
               (lit "Ended break: " ++ type ++ lit " (start "
                ++ format_time_local env (brk_start it) ++ lit ", end "
                ++ format_time_local env now ++ lit ")")].
Proof.
  intros H. rewrite <- has_open_rev in H.
  destruct (end_scan_finds now type _ H) as (c & r' & E).
  destruct (end_scan_some _ _ _ _ _ E)
    as (pre & it & post & Hrev & Ho & Hpre & -> & ->).
  assert (Ht : brk_type it = type).
  { unfold is_open_of in Ho. apply andb_true_iff in Ho as [Ho _].
    now apply str_eqb_true. }
  exists (rev post), it, (rev pre).
  assert (Hb : breaks w = rev post ++ it :: rev pre).
  { rewrite <- (rev_involutive (breaks w)), Hrev, rev_app_distr. cbn.
    now rewrite <- app_assoc. }
  split; [exact Hb|]. split; [exact Ho|].
  split; [now rewrite <- has_open_rev, rev_involutive|].
  unfold end_last_break_of_type. rewrite E. split.
  - rewrite breaks_append_daily_log. cbn [breaks set_breaks].
    rewrite rev_app_distr. cbn. now rewrite <- app_assoc, Ht.
  - rewrite dailyLogs_append_daily_log. cbn [brk_type brk_start brk_end].
    now rewrite Ht.
Qed.

(** *** Break entries are only ever added or closed *)

Lemma break_later_refl (b : BreakEntry) : break_later b b.
Proof. repeat split. Qed.

Lemma Forall2_break_refl (bs : list BreakEntry) : Forall2 break_later bs bs.
Proof. induction bs; constructor; auto using break_later_refl. Qed.

Lemma breaks_continue_refl (bs : list BreakEntry) : breaks_continue bs bs.
Proof.
  exists bs, []. split; [now rewrite app_nil_r|apply Forall2_break_refl].
Qed.

Lemma breaks_continue_add (bs : list BreakEntry) (b : BreakEntry) :
  breaks_continue bs (bs ++ [b]).
Proof. exists bs, [b]. split; [reflexivity|apply Forall2_break_refl]. Qed.

Lemma Forall2_break_trans (a b c : list BreakEntry) :
  Forall2 break_later a b -> Forall2 break_later b c ->
  Forall2 break_later a c.
Proof.
  intros H. revert c. induction H as [|x y a b Hxy _ IH]; intros c Hc.
  - inversion Hc. constructor.
  - inversion Hc as [|? z ? c' Hyz Hbc]; subst. constructor; [|now apply IH].
    destruct Hxy as (A1 & A2 & A3), Hyz as (B1 & B2 & B3).
    repeat split; try congruence.
    intros Hx. rewrite B3; [now apply A3|]. rewrite (A3 Hx). exact Hx.
Qed.

Lemma breaks_continue_trans (a b c : list BreakEntry) :
  breaks_continue a b -> breaks_continue b c -> breaks_continue a c.
Proof.
  intros (old1 & new1 & -> & H1) (old2 & new2 & -> & H2).
  apply Forall2_app_inv_l in H2 as (o1 & o2 & Ho1 & Ho2 & ->).
  exists o1, (o2 ++ new2). split; [now rewrite <- app_assoc|].
  now apply (Forall2_break_trans _ old1).
Qed.

Lemma breaks_continue_set_end (i : nat) (now : Z) (bs : list BreakEntry)
  (b : BreakEntry) :
  nth_error bs i = Some b -> brk_end b = 0 ->
  breaks_continue bs (set_end i now bs).
Proof.
  intros Hn He. exists (set_end i now bs), []. split; [now rewrite app_nil_r|].
  revert i Hn. induction bs as [|x bs IH]; intros i Hn.
  - destruct i; discriminate.
  - destruct i as [|i]; cbn in *.
    + injection Hn as ->. constructor; [|apply Forall2_break_refl].
      repeat split. cbn. intros Hx. now elim Hx.
    + constructor; [apply break_later_refl|now apply IH].
Qed.

Lemma Forall2_break_rev (a b : list BreakEntry) :
  Forall2 break_later a b -> Forall2 break_later (rev a) (rev b).
Proof.
  induction 1 as [|x y a b Hxy _ IH]; [constructor|].
  cbn. apply Forall2_app; [exact IH|]. now constructor.
Qed.

Lemma breaks_continue_end (now : Z) (type : str) (w : World) :
  breaks_continue (breaks w)
    (breaks (end_last_break_of_type env now type w)).
Proof.
  unfold end_last_break_of_type.
  destruct (end_scan now type (rev (breaks w))) as [[c r']|] eqn:E.
  - rewrite breaks_append_daily_log. cbn [breaks set_breaks].
    destruct (end_scan_some _ _ _ _ _ E)
      as (pre & it & post & Hrev & Ho & _ & -> & ->).
    exists (rev (pre ++ mkBreak (brk_type it) (brk_start it) now :: post)), [].
    split; [now rewrite app_nil_r|].
    rewrite <- (rev_involutive (breaks w)), Hrev.
    apply Forall2_break_rev. apply Forall2_app; [apply Forall2_break_refl|].
    constructor; [|apply Forall2_break_refl].
    unfold is_open_of in Ho. apply andb_true_iff in Ho as [_ Ho].
    apply Z.eqb_eq in Ho. repeat split. cbn. intros Hx. now elim Hx.
  - rewrite breaks_append_daily_log. apply breaks_continue_refl.
Qed.

Lemma breaks_export_and_log (now : Z) (what : str) (r : str * World) :
  breaks (export_and_log env now what r) = breaks (snd r).
Proof.
  unfold export_and_log. destruct (negb (is_empty (fst r))); [|reflexivity].
  apply breaks_append_daily_log.
Qed.

Lemma breaks_export_text (now : Z) (prefix content : str) (w : World) :
  breaks (snd (export_text_to_file env now prefix content w)) = breaks w.
Proof. apply export_text_to_file_effects. Qed.

(** The actions that are not about breaks leave the break list alone. *)
Lemma breaks_other_action (now : Z) (a : Action) (w : World) :
  match a with
  | AStartBreak _ | AEndBreak _ | ARandomBreak _ _ | AEndRow _ => True
  | _ => breaks (run_action env now a w) = breaks w
  end.
Proof.
  destruct a; cbn [run_action]; try exact I.
  - unfold on_log_now. destruct (negb (is_empty _)); [|reflexivity].
    apply breaks_append_daily_log.
  - unfold add_task. now rewrite breaks_append_daily_log, breaks_save_tasks.
  - unfold toggle_task. destruct ((idx <? 0) || _); [reflexivity|].
    now rewrite breaks_save_tasks.
  - apply breaks_save_tasks.
  - unfold on_save_daily_status. destruct (negb (is_empty _)); [|reflexivity].
    rewrite save_daily_status_pattern, breaks_export_and_log,
      breaks_export_text, breaks_append_daily_log.
    apply (append_line_to_file_mem env).
  - unfold on_save_weekly_status. destruct (negb (is_empty _)); [|reflexivity].
    rewrite save_weekly_status_pattern, breaks_export_and_log,
      breaks_export_text, breaks_append_daily_log.
    apply (append_line_to_file_mem env).
  - now rewrite on_export_status_pattern, breaks_export_and_log,
      breaks_export_text.
  - now rewrite on_export_status_pattern, breaks_export_and_log,
      breaks_export_text.
  - rewrite on_export_weekly_logs_pattern, breaks_export_and_log.
    apply export_weekly_effects.
  - rewrite on_export_hourly_today_pattern, breaks_export_and_log.
    apply export_hourly_effects.
Qed.

Lemma breaks_continue_action (now : Z) (a : Action) (w : World) :
  breaks_continue (breaks w) (breaks (run_action env now a w)).
Proof.
  pose proof (breaks_other_action now a w) as H.
  destruct a; try (rewrite H; apply breaks_continue_refl); cbn [run_action].
  - rewrite breaks_start_break. apply breaks_continue_add.
  - apply breaks_continue_end.
  - rewrite breaks_add_random_break. apply breaks_continue_add.
  - unfold on_end_row.
    destruct (nth_error (breaks w) i) as [b|] eqn:E;
      [|apply breaks_continue_refl].
    destruct (brk_end b =? 0) eqn:Ee; [|apply breaks_continue_refl].
    rewrite breaks_append_daily_log. cbn [breaks set_breaks].
    apply Z.eqb_eq in Ee. now apply (breaks_continue_set_end i now _ b).
Qed.

(** X15: through the actions of [Action] (so Clear-All and the button
    "Start i" apart) the break list only grows at its end: every entry keeps
    its place, its category and its start, and an entry that has an end
    keeps that end; only the end of an open entry is ever set. *)
Theorem break_history_is_kept (acts : list (Z * Action)) (w : World) :
  breaks_continue (breaks w) (breaks (run_actions env acts w)).
Proof.
  revert w. induction acts as [|[now a] acts IH]; intros w.
  - apply breaks_continue_refl.
  - cbn [run_actions].
    eapply breaks_continue_trans; [apply breaks_continue_action|apply IH].
Qed.

(** *** The invariant of the entries, with the button "End i" of the table *)

Lemma breaks_inv_set_end (t now : Z) (i : nat) (bs : list BreakEntry) :
  t <= now -> breaks_inv t bs -> breaks_inv now (set_end i now bs).
Proof.
  intros Ht H. revert i. unfold breaks_inv in *.
  induction H as [|b bs [Hs Hb] Hbs IH]; intros i.
  - destruct i; constructor.
  - destruct i as [|i]; cbn.
    + constructor.
      * unfold break_ok. cbn. split; [lia|right; lia].
      * eapply Forall_impl; [|exact Hbs]. cbn. intros x [Hx Hok].
        split; [lia|exact Hok].
    + constructor; [split; [lia|exact Hb]|apply IH].
Qed.

Lemma breaks_inv_action (t now : Z) (a : Action) (w : World) :
  t <= now -> action_wf a -> breaks_inv t (breaks w) ->
  breaks_inv now (breaks (run_action env now a w)).
Proof.
  intros Ht Hwf H. pose proof (breaks_other_action now a w) as Ho.
  destruct a;
    try (rewrite Ho; eapply breaks_inv_mono; eassumption); cbn [run_action].
  - apply (breaks_inv_step env t now (StartBreak type) w Ht I H).
  - apply (breaks_inv_step env t now (EndMostRecentOpen type) w Ht I H).
  - apply (breaks_inv_step env t now (RandomBreak dtype dmin) w Ht Hwf H).
  - unfold on_end_row.
    destruct (nth_error (breaks w) i) as [b|];
      [|eapply breaks_inv_mono; eassumption].
    destruct (brk_end b =? 0); [|eapply breaks_inv_mono; eassumption].
    rewrite breaks_append_daily_log. cbn [breaks set_breaks].
    eapply breaks_inv_set_end; eassumption.
Qed.

(** X16: the button "End i" of the table of breaks, and every other action
    of [Action], keeps what the three break operations keep: from an empty
    break list and with clock readings that never go back, every entry is
    open or ends no earlier than it starts. *)
Theorem session_break_entries_end_after_start
  (acts : list (Z * Action)) (t0 : Z) (w : World) :
  breaks w = [] ->
  clock_monotone t0 (map fst acts) ->
  Forall (fun x => action_wf (snd x)) acts ->
  Forall break_ok (breaks (run_actions env acts w)).
Proof.
  intros Hw Hc Hwf.
  assert (G : forall acts t w,
             clock_monotone t (map fst acts) ->
             Forall (fun x => action_wf (snd x)) acts ->
             breaks_inv t (breaks w) ->
             Forall break_ok (breaks (run_actions env acts w))).
  { clear. intros acts. induction acts as [|[now a] acts IH];
      intros t w Hc Hwf H; cbn [run_actions].
    - eapply Forall_impl; [|exact H]. cbn. now intros b [_ Hb].
    - cbn in Hc. destruct Hc as [Ht Hc].
      inversion Hwf as [|? ? Ha Hwf']; subst.
      eapply IH; [exact Hc|exact Hwf'|].
      eapply breaks_inv_action; eassumption. }
  apply (G acts t0 w Hc Hwf). rewrite Hw. constructor.
Qed.

End MoreBreaks.

Lemma end_closes_the_last_open_entry_witness :
  exists pre it post,
    breaks (start_break env_utc 1704153700 (lit "Coffee") world_empty)
    = pre ++ it :: post
    /\ breaks (end_last_break_of_type env_utc 1704154000 (lit "Coffee")
                 (start_break env_utc 1704153700 (lit "Coffee") world_empty))
       = pre ++ mkBreak (lit "Coffee") (brk_start it) 1704154000 :: post.
Proof.
  destruct (end_closes_the_last_open_entry env_utc 1704154000 (lit "Coffee")
              (start_break env_utc 1704153700 (lit "Coffee") world_empty)
              eq_refl)
    as (pre & it & post & H1 & _ & _ & H2 & _).
  exists pre, it, post. split; [exact H1|exact H2].
Defined.

Lemma session_break_entries_end_after_start_witness :
  Forall break_ok
    (breaks (run_actions env_utc
               [(1704153700, AStartBreak (lit "Coffee"));
                (1704153800, ARandomBreak 1 5);
                (1704154000, AEndRow 0);
                (1704154100, AEndBreak (lit "Coffee"))]
               world_empty)).
Proof.
  apply (session_break_entries_end_after_start env_utc _ 1704153600).
  - reflexivity.
  - cbn. lia.
  - repeat (apply Forall_cons; [cbn; try lia; exact I|]). apply Forall_nil.
Defined.

(** ** More on tasks *)

Section MoreTasks.

Variable env : Env.

Lemma set_done_names (idx : nat) (done : bool) (ts : list Task) :
  map task_name (set_done idx done ts) = map task_name ts
  /\ map task_parent (set_done idx done ts) = map task_parent ts.
Proof.
  revert idx. induction ts as [|t ts IH]; intros idx; [now destruct idx|].
  destruct idx as [|idx]; cbn; [now split|].
  destruct (IH idx) as [-> ->]. now split.
Qed.

Lemma set_done_flags (idx : nat) (done : bool) (ts : list Task) (j : nat) :
  nth_error (map task_done (set_done idx done ts)) j
  = if (j =? idx)%nat && (idx <? List.length ts)%nat then Some done
    else nth_error (map task_done ts) j.
Proof.
  revert idx j. induction ts as [|t ts IH]; intros idx j.
  - destruct idx; cbn; now rewrite andb_false_r.
  - destruct idx as [|idx], j as [|j]; cbn; try reflexivity.
    rewrite IH. reflexivity.
Qed.

(** X17: the checkbox of a task changes the done flag of that task and
    nothing else: names, parents and the other flags stay, and for an index
    outside the list nothing is changed and [tasks.txt] is not rewritten. *)
Theorem toggle_changes_one_flag (idx : Z) (done : bool) (w : World) (j : nat) :
  let w' := toggle_task env idx done w in
  map task_name (tasks w') = map task_name (tasks w)
  /\ map task_parent (tasks w') = map task_parent (tasks w)
  /\ nth_error (map task_done (tasks w')) j
     = (if (0 <=? idx) && (idx <? Z.of_nat (List.length (tasks w)))
           && (Z.of_nat j =? idx)
        then Some done else nth_error (map task_done (tasks w)) j)
  /\ (if (0 <=? idx) && (idx <? Z.of_nat (List.length (tasks w)))
      then dailyLogs w' = dailyLogs w /\ breaks w' = breaks w
      else w' = w).
Proof.
  cbv zeta. unfold toggle_task.
  destruct (Z.ltb_spec idx 0) as [Hneg|Hpos]; cbn [orb].
  - replace (0 <=? idx) with false by (symmetry; apply Z.leb_gt; lia).
    cbn. auto.
  - replace (0 <=? idx) with true by (symmetry; apply Z.leb_le; lia).
    rewrite (Z.leb_antisym idx). cbn [andb].
    destruct (Z.ltb_spec idx (Z.of_nat (List.length (tasks w)))) as [Hin|Hout];
      cbn [negb andb]; [|auto].
    rewrite tasks_save_tasks. cbn [tasks set_tasks].
    destruct (set_done_names (Z.to_nat idx) done (tasks w)) as [-> ->].
    rewrite set_done_flags.
    replace (Z.to_nat idx <? List.length (tasks w))%nat with true
      by (symmetry; apply Nat.ltb_lt; lia).
    rewrite andb_true_r.
    replace (Z.of_nat j =? idx) with (j =? Z.to_nat idx)%nat.
    + repeat split; [|now rewrite breaks_save_tasks].
      unfold save_tasks. now destruct (negb (env_can_write env _)).
    + destruct (Nat.eqb_spec j (Z.to_nat idx)) as [->|Hne].
      * symmetry. apply Z.eqb_eq. lia.
      * symmetry. apply Z.eqb_neq. lia.
Qed.

End MoreTasks.

(** ** Reading hand-edited lines of tasks.txt *)

Lemma no_colon_find (p tail : str) :
  forallb (fun x => negb (Ascii.eqb ":" x)) p = true ->
  after_colon (p ++ ":"%char :: tail) = tail.
Proof.
  intros H. unfold after_colon. change (lit ":") with [":"%char].
  rewrite find_char_first by exact H.
  unfold Str.substr_from. now rewrite skipn_app_exact.
Qed.

(** X18: [load_tasks] does not read the index of a line: whatever stands
    before the first colon, the line gives the same task, so the tasks are
    numbered by their place in the file. *)
Theorem task_index_is_ignored (p1 p2 tail : str) :
  forallb (fun x => negb (Ascii.eqb ":" x)) p1 = true ->
  forallb (fun x => negb (Ascii.eqb ":" x)) p2 = true ->
  parse_task_line (p1 ++ ":"%char :: tail)
  = parse_task_line (p2 ++ ":"%char :: tail).
Proof.
  intros H1 H2. unfold parse_task_line. now rewrite !no_colon_find.
Qed.

Lemma task_index_is_ignored_witness :
  parse_task_line (lit "7: [x] report (parent=2)")
  = parse_task_line (lit "no number: [x] report (parent=2)").
Proof.
  apply (task_index_is_ignored (lit "7") (lit "no number")
           (lit " [x] report (parent=2)")); reflexivity.
Defined.

(** The number of a parent suffix is whatever [std::stoi] makes of it. *)
Lemma read_parent_suffix_any (A num : str) :
  forallb (fun x => negb (Ascii.eqb "(" x)) num = true ->
  forallb (fun x => negb (Ascii.eqb ")" x)) num = true ->
  read_parent_suffix (A ++ PARENT_TAG ++ num ++ lit ")")
  = (match stoi num with Some v => v | None => -1 end,
     Str.pop_back_while isspace A).
Proof.
  intros HP1 HP2. unfold read_parent_suffix.
  assert (R : Str.rfind (lit "(parent=") (PARENT_TAG ++ num ++ lit ")")
              = Some 0%nat).
  { change (PARENT_TAG ++ num ++ lit ")")
      with ("("%char :: lit "parent=" ++ (num ++ lit ")")).
    cbn [Str.rfind].
    change (lit "(parent=") with ("("%char :: lit "parent=").
    rewrite rfind_without_first; [reflexivity|].
    rewrite !forallb_app, HP1. reflexivity. }
  rewrite (rfind_app _ _ _ _ R).
  unfold Str.find_from. rewrite skipn_app_exact, skipn_O.
  assert (L : (List.length (A ++ PARENT_TAG ++ num ++ lit ")")
               <? List.length A + 0)%nat = false).
  { apply Nat.ltb_ge. rewrite (length_app A). lia. }
  rewrite L.
  assert (F : Str.find (lit ")") (PARENT_TAG ++ num ++ lit ")")
              = Some (8 + List.length num)%nat).
  { transitivity (Str.find [")"%char] ((PARENT_TAG ++ num) ++ ")"%char :: []));
      [now rewrite <- app_assoc|].
    rewrite find_char_first; [now rewrite length_app|].
    rewrite forallb_app, HP2. reflexivity. }
  rewrite F. cbn [option_map]. unfold Str.substr.
  replace (List.length A + 0 + (8 + List.length num)
           - (List.length A + 0 + 8))%nat
    with (List.length num) by lia.
  replace (List.length A + 0 + 8)%nat with (List.length A + 8)%nat by lia.
  rewrite Nat.add_0_r, skipn_app_exact, skipn_O.
  change (skipn 8 (PARENT_TAG ++ num ++ lit ")")) with (num ++ lit ")").
  now rewrite !firstn_app_exact.
Qed.

Lemma find_cons (pat s : str) (c : ascii) :
  Str.find pat (c :: s)
  = if Str.starts_with pat (c :: s) then Some 0%nat
    else option_map S (Str.find pat s).
Proof. reflexivity. Qed.

Lemma find_bracket (m : ascii) (x : str) :
  Ascii.eqb m "]" = false ->
  Str.find (lit "]") ("["%char :: m :: "]"%char :: x) = Some 2%nat.
Proof.
  intros H. change (lit "]") with ["]"%char].
  rewrite !find_cons. cbn [Str.starts_with].
  rewrite (Ascii.eqb_sym "]" m), H. reflexivity.
Qed.

(** X19: a line of [tasks.txt] with any character [m] other than [\]] in the
    brackets and any text without parentheses as the number of the parent
    is read without an error: the task is done exactly for [m] = [x] or
    [X], its parent is what [std::stoi] reads at the start of the number
    and none (-1) when it reads nothing, and the suffix is taken off the
    name either way. *)
Theorem task_line_with_any_marker_and_number
  (p name num : str) (m : ascii) :
  forallb (fun x => negb (Ascii.eqb ":" x)) p = true ->
  Ascii.eqb m "]" = false ->
  starts_with_blank name = false -> is_empty name = false ->
  ends_with_space name = false ->
  forallb (fun x => negb (Ascii.eqb "(" x)) num = true ->
  forallb (fun x => negb (Ascii.eqb ")" x)) num = true ->
  parse_task_line
    (p ++ lit ": [" ++ [m] ++ lit "] " ++ name ++ lit " (parent=" ++ num
     ++ lit ")")
  = mkTask name (match stoi num with Some v => v | None => -1 end)
      (Ascii.eqb m "x" || Ascii.eqb m "X").
Proof.
  intros Hp Hm Hfirst Hne Hlast H1 H2. unfold parse_task_line.
  change (lit ": [" ++ ?x) with (":"%char :: " "%char :: "["%char :: x).
  rewrite no_colon_find by exact Hp.
  change (skip_blanks (" "%char :: "["%char :: ?x)) with ("["%char :: x).
  destruct name as [|c name']; [discriminate|]. cbn [starts_with_blank] in Hfirst.
  assert (E : read_done_marker
                ("["%char :: [m] ++ lit "] " ++ (c :: name')
                 ++ lit " (parent=" ++ num ++ lit ")")
              = (Ascii.eqb m "x" || Ascii.eqb m "X",
                 (c :: name') ++ lit " (parent=" ++ num ++ lit ")")).
  { unfold read_done_marker. cbn [app lit list_ascii_of_string].
    change ("["%char =? "[")%char with true.
    change ("]"%char =? "]")%char with true. cbn [andb].
    rewrite (find_bracket m _ Hm). cbn [Str.substr_from Nat.add skipn].
    now rewrite skip_blanks_name. }
  rewrite E.
  change ((c :: name') ++ lit " (parent=" ++ num ++ lit ")")
    with ((c :: name') ++ lit " " ++ PARENT_TAG ++ num ++ lit ")").
  rewrite app_assoc, read_parent_suffix_any by assumption.
  now rewrite pop_back_while_blank.
Qed.

Lemma task_line_with_any_marker_and_number_witness :
  parse_task_line (lit "3: [X] call Ann (parent= 12th)")
  = mkTask (lit "call Ann") 12 true
  /\ parse_task_line (lit "3: [?] call Ann (parent=soon)")
     = mkTask (lit "call Ann") (-1) false.
Proof.
  split.
  - apply (task_line_with_any_marker_and_number (lit "3") (lit "call Ann")
             (lit " 12th") "X"); reflexivity.
  - apply (task_line_with_any_marker_and_number (lit "3") (lit "call Ann")
             (lit "soon") "?"); reflexivity.
Defined.

(** ** The hourly popup *)

Section HourlyPopup.

Variable env : Env.

Lemma local_hour_range (ct : Z) :
  0 <= tm_hour (localtime_r (env_tz env) ct) < 24.
Proof.
  unfold localtime_r, gmtime_r.
  destruct (civil_from_days ((ct + env_tz env) / 86400)) as [[y m] d].
  cbn [tm_hour].
  pose proof (Z.mod_pos_bound (ct + env_tz env) 86400 ltac:(lia)) as Hr.
  split; [apply Z.div_pos; lia|apply Z.div_lt_upper_bound; lia].
Qed.

Lemma frames_popups_changes (cts : list Z) (last : Z) :
  frames_popups env cts last
  = List.length
      (hour_changes last
         (map (fun ct => tm_hour (localtime_r (env_tz env) ct)) cts)).
Proof.
  revert last. induction cts as [|ct cts IH]; intros last; [reflexivity|].
  cbn [frames_popups map hour_changes]. unfold frame_hourly.
  destruct (tm_hour (localtime_r (env_tz env) ct) =? last);
    cbn [negb]; now rewrite IH.
Qed.

Lemma hour_changes_same (h : Z) (hours : list Z) :
  Forall (fun x => x = h) hours -> hour_changes h hours = [].
Proof.
  induction 1 as [|x hours -> _ IH]; [reflexivity|].
  cbn. now rewrite Z.eqb_refl.
Qed.

(** X20: the popup "Hourly Log" is opened in the first frame after the
    start, whatever the hour, and from then on exactly in the frames whose
    local hour differs from that of the frame before: frames that all lie
    in one local hour open it once. *)
Theorem hourly_popup_once_per_hour (ct : Z) (cts : list Z) :
  frames_popups env (ct :: cts) (-1)
  = S (List.length
         (hour_changes (tm_hour (localtime_r (env_tz env) ct))
            (map (fun c => tm_hour (localtime_r (env_tz env) c)) cts)))
  /\ (Forall (fun c => tm_hour (localtime_r (env_tz env) c)
                       = tm_hour (localtime_r (env_tz env) ct)) cts ->
      frames_popups env (ct :: cts) (-1) = 1%nat).
Proof.
  assert (E : frames_popups env (ct :: cts) (-1)
              = S (List.length
                     (hour_changes (tm_hour (localtime_r (env_tz env) ct))
                        (map (fun c => tm_hour (localtime_r (env_tz env) c))
                           cts)))).
  { rewrite frames_popups_changes. cbn [map hour_changes].
    pose proof (local_hour_range ct) as Hh.
    replace (tm_hour (localtime_r (env_tz env) ct) =? -1) with false
      by (symmetry; apply Z.eqb_neq; lia).
    reflexivity. }
  split; [exact E|]. intros H. rewrite E, hour_changes_same; [reflexivity|].
  now apply Forall_map.
Qed.

End HourlyPopup.

Lemma hourly_popup_once_per_hour_witness :
  frames_popups env_utc [1704153601; 1704153602; 1704155000] (-1) = 1%nat.
Proof.
  apply (proj2 (hourly_popup_once_per_hour env_utc 1704153601
                  [1704153602; 1704155000])).
  repeat constructor.
Defined.

(** ** The task tree view *)

Section TreeView.

Variable ts : list Task.

Lemma range_test (idx : Z) :
  (idx <? 0) || (Z.of_nat (List.length ts) <=? idx) = false <-> in_vector ts idx.
Proof. unfold in_vector. lia. Qed.

Lemma in_indices (i : Z) : In i (indices ts) <-> in_vector ts i.
Proof.
  unfold indices, in_vector. rewrite in_map_iff. split.
  - intros (k & <- & Hk). apply in_seq in Hk. lia.
  - intros H. exists (Z.to_nat i). split; [lia|]. apply in_seq. lia.
Qed.

Lemma NoDup_indices : NoDup (indices ts).
Proof.
  unfold indices. apply NoDup_map_NoDup_ForallPairs; [|apply seq_NoDup].
  intros a b _ _. lia.
Qed.

Lemma length_indices : List.length (indices ts) = List.length ts.
Proof. unfold indices. now rewrite length_map, length_seq. Qed.

Lemma root_distance_inv (f : nat) (idx : Z) (d : nat) :
  root_distance (S f) ts idx = Some d ->
  in_vector ts idx
  /\ ((task_parent (task_at ts idx) = -1 /\ d = O)
      \/ (task_parent (task_at ts idx) <> -1
          /\ exists d', d = S d'
             /\ root_distance f ts (task_parent (task_at ts idx)) = Some d')).
Proof.
  cbn [root_distance].
  destruct ((idx <? 0) || (Z.of_nat (List.length ts) <=? idx)) eqn:Er;
    [discriminate|].
  apply range_test in Er. intros H. split; [exact Er|].
  destruct (task_parent (task_at ts idx) =? -1) eqn:Ep.
  - left. split; [lia|congruence].
  - right. split; [lia|].
    destruct (root_distance f ts (task_parent (task_at ts idx))) as [d'|];
      [|discriminate].
    exists d'. split; [cbn in H; congruence|reflexivity].
Qed.

Lemma root_distance_root (f : nat) (idx : Z) :
  in_vector ts idx -> task_parent (task_at ts idx) = -1 ->
  root_distance (S f) ts idx = Some O.
Proof.
  intros Hr Hp. cbn [root_distance].
  apply range_test in Hr. rewrite Hr, Hp. reflexivity.
Qed.

Lemma root_distance_child (f : nat) (idx : Z) (d : nat) :
  in_vector ts idx -> task_parent (task_at ts idx) <> -1 ->
  root_distance f ts (task_parent (task_at ts idx)) = Some d ->
  root_distance (S f) ts idx = Some (S d).
Proof.
  intros Hr Hp Hd. cbn [root_distance].
  apply range_test in Hr. rewrite Hr.
  destruct (task_parent (task_at ts idx) =? -1) eqn:Ep; [lia|].
  now rewrite Hd.
Qed.

Lemma root_distance_lt (f : nat) (idx : Z) (d : nat) :
  root_distance f ts idx = Some d -> (d < f)%nat.
Proof.
  revert idx d. induction f as [|f IH]; intros idx d H; [discriminate|].
  apply root_distance_inv in H.
  destruct H as (_ & [(_ & ->)|(_ & d' & -> & H)]); [lia|].
  apply IH in H. lia.
Qed.

Lemma root_distance_tight (f : nat) (idx : Z) (d : nat) :
  root_distance f ts idx = Some d -> root_distance (S d) ts idx = Some d.
Proof.
  revert idx d. induction f as [|f IH]; intros idx d H; [discriminate|].
  apply root_distance_inv in H.
  destruct H as (Hr & [(Hp & ->)|(Hp & d' & -> & H)]).
  - now apply root_distance_root.
  - apply root_distance_child; [exact Hr|exact Hp|]. now apply IH.
Qed.

Lemma root_distance_more (f : nat) (idx : Z) (d : nat) :
  root_distance f ts idx = Some d -> root_distance (S f) ts idx = Some d.
Proof.
  revert idx d. induction f as [|f IH]; intros idx d H; [discriminate|].
  apply root_distance_inv in H.
  destruct H as (Hr & [(Hp & ->)|(Hp & d' & -> & H)]).
  - now apply root_distance_root.
  - apply root_distance_child; [exact Hr|exact Hp|]. now apply IH.
Qed.

Lemma root_distance_le (f f' : nat) (idx : Z) (d : nat) :
  (f <= f')%nat ->
  root_distance f ts idx = Some d -> root_distance f' ts idx = Some d.
Proof.
  induction 1 as [|f' _ IH]; intros H; [exact H|].
  apply root_distance_more. now apply IH.
Qed.

Lemma root_distance_unique (f f' : nat) (idx : Z) (d d' : nat) :
  root_distance f ts idx = Some d -> root_distance f' ts idx = Some d' ->
  d = d'.
Proof.
  intros H H'.
  apply (root_distance_le f (Nat.max f f')) in H; [|lia].
  apply (root_distance_le f' (Nat.max f f')) in H'; [|lia].
  congruence.
Qed.

(** The tasks on the way to the root are in the vector, each nearer to the
    root than the one before. *)
Lemma ancestors_nearer (d : nat) (idx : Z) :
  root_distance (S d) ts idx = Some d ->
  forall x, In x (ancestors d ts idx) ->
    in_vector ts x /\ exists e, (e <= d)%nat /\ root_distance (S e) ts x = Some e.
Proof.
  revert idx. induction d as [|d IH]; intros idx H x Hx.
  - destruct Hx as [<-|[]]. apply root_distance_inv in H.
    split; [tauto|]. exists O. split; [lia|].
    destruct H as (Hr & [(Hp & _)|(_ & d' & Hd & _)]); [|discriminate].
    now apply root_distance_root.
  - cbn [ancestors] in Hx. destruct Hx as [<-|Hx].
    + split; [apply root_distance_inv in H; tauto|].
      exists (S d). split; [lia|exact H].
    + apply root_distance_inv in H.
      destruct H as (_ & [(_ & Hd)|(_ & d' & Hd & H)]); [discriminate|].
      injection Hd as <-.
      destruct (IH _ H x Hx) as (Hr & e & He & Hd). split; [exact Hr|].
      exists e. split; [lia|exact Hd].
Qed.

Lemma ancestors_NoDup (d : nat) (idx : Z) :
  root_distance (S d) ts idx = Some d -> NoDup (ancestors d ts idx).
Proof.
  revert idx. induction d as [|d IH]; intros idx H.
  - repeat constructor. intros [].
  - cbn [ancestors]. pose proof H as H0. apply root_distance_inv in H.
    destruct H as (_ & [(_ & Hd)|(_ & d' & Hd & H)]); [discriminate|].
    injection Hd as <-. constructor; [|now apply IH].
    intros Hin. destruct (ancestors_nearer _ _ H _ Hin) as (_ & e & He & Hd).
    pose proof (root_distance_unique _ _ _ _ _ H0 Hd). lia.
Qed.

Lemma length_ancestors (d : nat) (idx : Z) :
  List.length (ancestors d ts idx) = S d.
Proof.
  revert idx. induction d as [|d IH]; intros idx; [reflexivity|].
  cbn [ancestors List.length]. now rewrite IH.
Qed.

(** A chain of parents that reaches a root does so within the vector's
    size: it cannot pass twice through a task. *)
Lemma root_distance_bound (f : nat) (idx : Z) (d : nat) :
  root_distance f ts idx = Some d ->
  root_distance (List.length ts) ts idx = Some d.
Proof.
  intros H. apply root_distance_tight in H.
  apply (root_distance_le (S d)); [|exact H].
  rewrite <- length_indices, <- (length_ancestors d idx).
  apply NoDup_incl_length; [now apply ancestors_NoDup|].
  intros x Hx. apply in_indices. now apply (ancestors_nearer d idx).
Qed.

Lemma root_distance_kid (i idx : Z) (d : nat) :
  in_vector ts i -> task_parent (task_at ts i) = idx ->
  root_distance (List.length ts) ts idx = Some d ->
  root_distance (List.length ts) ts i = Some (S d).
Proof.
  intros Hi Hp Hd. apply (root_distance_bound (S (List.length ts))).
  apply root_distance_child; [exact Hi| |now rewrite Hp].
  rewrite Hp. intros ->.
  destruct (List.length ts); [discriminate|].
  apply root_distance_inv in Hd. unfold in_vector in Hd. lia.
Qed.

Lemma in_kids (idx i : Z) :
  In i (filter (fun i => task_parent (task_at ts i) =? idx) (indices ts))
  <-> in_vector ts i /\ task_parent (task_at ts i) = idx.
Proof. now rewrite filter_In, in_indices, Z.eqb_eq. Qed.

Lemma NoDup_kids (idx : Z) :
  NoDup (filter (fun i => task_parent (task_at ts i) =? idx) (indices ts)).
Proof. apply NoDup_filter, NoDup_indices. Qed.

Lemma collect_returns {A B : Type} (g : B -> option (list A)) (l : list B) :
  (forall i, In i l -> exists r, g i = Some r) ->
  exists r, collect (map g l) = Some r.
Proof.
  induction l as [|i l IH]; intros H; [now exists []|].
  cbn [map collect]. destruct (H i (or_introl eq_refl)) as (a & ->).
  destruct IH as (b & ->); [intros j Hj; apply H; now right|].
  now exists (a ++ b).
Qed.

Lemma collect_In {A B : Type} (g : B -> option (list A)) (l : list B)
    (r : list A) (x : A) :
  collect (map g l) = Some r ->
  (In x r <-> exists i a, In i l /\ g i = Some a /\ In x a).
Proof.
  revert r. induction l as [|i l IH]; intros r H.
  - injection H as <-. split; [intros []|intros (_ & _ & [] & _)].
  - cbn [map collect] in H. destruct (g i) as [a|] eqn:Ea; [|discriminate].
    destruct (collect (map g l)) as [b|]; [|discriminate].
    injection H as <-. rewrite in_app_iff, (IH b eq_refl). split.
    + intros [Hx|(j & c & Hj & Hc & Hx)].
      * exists i, a. split; [now left|tauto].
      * exists j, c. split; [now right|tauto].
    + intros (j & c & [<-|Hj] & Hc & Hx).
      * left. congruence.
      * right. now exists j, c.
Qed.

Lemma collect_all {A B : Type} (g : B -> option (list A)) (l : list B)
    (r : list A) (i : B) :
  collect (map g l) = Some r -> In i l -> exists a, g i = Some a.
Proof.
  revert r. induction l as [|j l IH]; intros r H Hi; [destruct Hi|].
  cbn [map collect] in H. destruct (g j) as [a|] eqn:Ea; [|discriminate].
  destruct (collect (map g l)) as [b|]; [|discriminate].
  destruct Hi as [<-|Hi]; [now exists a|]. now apply (IH b).
Qed.

Lemma collect_NoDup {A B : Type} (g : B -> option (list A)) (l : list B)
    (r : list A) :
  NoDup l ->
  (forall i a, In i l -> g i = Some a -> NoDup a) ->
  (forall i j a b x, In i l -> In j l -> g i = Some a -> g j = Some b ->
     In x a -> In x b -> i = j) ->
  collect (map g l) = Some r -> NoDup r.
Proof.
  revert r. induction l as [|i l IH]; intros r Hl Hn Hd H.
  - injection H as <-. constructor.
  - cbn [map collect] in H. destruct (g i) as [a|] eqn:Ea; [|discriminate].
    destruct (collect (map g l)) as [b|] eqn:Eb; [|discriminate].
    injection H as <-. inversion Hl as [|? ? Hi Hl']; subst.
    apply NoDup_app.
    + apply (Hn i); [now left|exact Ea].
    + apply IH; [exact Hl'| | |reflexivity].
      * intros j c Hj. apply Hn. now right.
      * intros j k c e x Hj Hk. apply Hd; now right.
    + intros x Hxa Hxb. apply (collect_In g l b x Eb) in Hxb.
      destruct Hxb as (j & c & Hj & Hc & Hx). apply Hi.
      rewrite (Hd i j a c x); try assumption; [now left|now right].
Qed.

Variable opened : Z -> bool.

Lemma root_distance_in_vector (f : nat) (idx : Z) (d : nat) :
  root_distance f ts idx = Some d -> in_vector ts idx.
Proof.
  destruct f; [discriminate|]. intros H.
  now apply root_distance_inv in H.
Qed.

Lemma draw_unfold (f : nat) (idx depth : Z) :
  in_vector ts idx ->
  drawTasksRecursive (S f) ts opened idx depth
  = if opened idx then
      match collect
              (map (fun i => drawTasksRecursive f ts opened i (depth + 1))
                 (filter (fun i => task_parent (task_at ts i) =? idx)
                    (indices ts))) with
      | Some l => Some ((idx, depth) :: l)
      | None => None
      end
    else Some [(idx, depth)].
Proof.
  intros Hr. apply range_test in Hr. cbn [drawTasksRecursive].
  now rewrite Hr.
Qed.

Lemma draw_outside (f : nat) (idx depth : Z) :
  ~ in_vector ts idx -> drawTasksRecursive (S f) ts opened idx depth = Some [].
Proof.
  intros Hr. cbn [drawTasksRecursive].
  destruct ((idx <? 0) || (Z.of_nat (List.length ts) <=? idx)) eqn:E;
    [reflexivity|].
  apply range_test in E. contradiction.
Qed.

Lemma in_vector_dec (idx : Z) : in_vector ts idx \/ ~ in_vector ts idx.
Proof. unfold in_vector. lia. Qed.

(** The recursion returns: a node at distance [d] from its root needs no
    more than the tasks below it in depth. *)
Lemma draw_returns (f : nat) (idx depth : Z) (d : nat) :
  root_distance (List.length ts) ts idx = Some d ->
  (List.length ts <= f + d)%nat ->
  exists l, drawTasksRecursive f ts opened idx depth = Some l.
Proof.
  revert idx depth d. induction f as [|f IH]; intros idx depth d Hd Hf.
  - apply root_distance_lt in Hd. lia.
  - rewrite draw_unfold by now apply root_distance_in_vector in Hd.
    destruct (opened idx); [|now eexists].
    destruct (collect_returns
                (fun i => drawTasksRecursive f ts opened i (depth + 1))
                (filter (fun i => task_parent (task_at ts i) =? idx)
                   (indices ts))) as (r & ->); [|now eexists].
    intros i Hi. apply in_kids in Hi. destruct Hi as (Hi & Hp).
    apply (IH i (depth + 1) (S d)); [|lia].
    now apply (root_distance_kid i idx).
Qed.

Lemma draw_depths (f : nat) (idx : Z) (d : nat) (l : list (Z * Z)) :
  drawTasksRecursive f ts opened idx (Z.of_nat d) = Some l ->
  root_distance (List.length ts) ts idx = Some d ->
  forall j dj, In (j, dj) l ->
    exists e, dj = Z.of_nat e
              /\ root_distance (List.length ts) ts j = Some e.
Proof.
  revert idx d l. induction f as [|f IH]; intros idx d l H Hd j dj Hj;
    [discriminate|].
  rewrite draw_unfold in H by now apply root_distance_in_vector in Hd.
  destruct (opened idx).
  - destruct (collect _) as [r|] eqn:Er; [|discriminate].
    injection H as <-. destruct Hj as [Hj|Hj].
    + injection Hj as <- <-. now exists d.
    + apply (collect_In _ _ _ _ Er) in Hj.
      destruct Hj as (i & a & Hi & Ha & Hj).
      apply in_kids in Hi. destruct Hi as (Hi & Hp).
      replace (Z.of_nat d + 1) with (Z.of_nat (S d)) in Ha by lia.
      apply (IH i (S d) a Ha); [|exact Hj].
      now apply (root_distance_kid i idx).
  - injection H as <-. destruct Hj as [Hj|[]].
    injection Hj as <- <-. now exists d.
Qed.

Lemma draw_under (f : nat) (idx depth : Z) (l : list (Z * Z)) :
  drawTasksRecursive f ts opened idx depth = Some l ->
  forall j dj, In (j, dj) l ->
    exists k, dj = depth + Z.of_nat k /\ nth_parent k ts j = idx.
Proof.
  revert idx depth l. induction f as [|f IH]; intros idx depth l H j dj Hj;
    [discriminate|].
  destruct (in_vector_dec idx) as [Hr|Hr];
    [|rewrite draw_outside in H by exact Hr; injection H as <-;
      destruct Hj].
  rewrite draw_unfold in H by exact Hr.
  assert (Hhead : (idx, depth) = (j, dj) ->
                  exists k, dj = depth + Z.of_nat k
                            /\ nth_parent k ts j = idx).
  { intros E. injection E as <- <-. exists O. split; [lia|reflexivity]. }
  destruct (opened idx).
  - destruct (collect _) as [r|] eqn:Er; [|discriminate].
    injection H as <-. destruct Hj as [Hj|Hj]; [now apply Hhead|].
    apply (collect_In _ _ _ _ Er) in Hj.
    destruct Hj as (i & a & Hi & Ha & Hj).
    apply in_kids in Hi. destruct Hi as (Hi & Hp).
    destruct (IH i (depth + 1) a Ha j dj Hj) as (k & -> & Hk).
    exists (S k). split; [lia|]. cbn [nth_parent]. now rewrite Hk.
  - injection H as <-. destruct Hj as [Hj|[]]. now apply Hhead.
Qed.

Lemma draw_NoDup (f : nat) (idx depth : Z) (l : list (Z * Z)) :
  drawTasksRecursive f ts opened idx depth = Some l -> NoDup l.
Proof.
  revert idx depth l. induction f as [|f IH]; intros idx depth l H;
    [discriminate|].
  destruct (in_vector_dec idx) as [Hr|Hr];
    [|rewrite draw_outside in H by exact Hr; injection H as <-;
      constructor].
  rewrite draw_unfold in H by exact Hr.
  destruct (opened idx);
    [|injection H as <-; repeat constructor; intros []].
  destruct (collect _) as [r|] eqn:Er; [|discriminate].
  injection H as <-. constructor.
  - intros Hin. apply (collect_In _ _ _ _ Er) in Hin.
    destruct Hin as (i & a & _ & Ha & Hin).
    destruct (draw_under _ _ _ _ Ha _ _ Hin) as (k & Hk & _). lia.
  - refine (collect_NoDup _ _ _ (NoDup_kids idx) _ _ Er).
    + intros i a _ Ha. now apply (IH i (depth + 1)).
    + intros i i' a b [j dj] _ _ Ha Hb Hxa Hxb.
      destruct (draw_under _ _ _ _ Ha _ _ Hxa) as (k & Hk & <-).
      destruct (draw_under _ _ _ _ Hb _ _ Hxb) as (k' & Hk' & <-).
      replace k' with k by lia. reflexivity.
Qed.

Lemma draw_head (f : nat) (idx depth : Z) (l : list (Z * Z)) :
  drawTasksRecursive f ts opened idx depth = Some l ->
  in_vector ts idx -> In (idx, depth) l.
Proof.
  destruct f; [discriminate|]. intros H Hr.
  rewrite draw_unfold in H by exact Hr.
  destruct (opened idx); [|injection H as <-; now left].
  destruct (collect _); [|discriminate]. injection H as <-. now left.
Qed.

Lemma draw_kids (f : nat) (idx depth : Z) (l : list (Z * Z)) :
  drawTasksRecursive f ts opened idx depth = Some l ->
  forall p dp, In (p, dp) l -> opened p = true ->
  forall j, in_vector ts j -> task_parent (task_at ts j) = p ->
    In (j, dp + 1) l.
Proof.
  revert idx depth l. induction f as [|f IH];
    intros idx depth l H p dp Hp Ho j Hj Hjp; [discriminate|].
  destruct (in_vector_dec idx) as [Hr|Hr];
    [|rewrite draw_outside in H by exact Hr; injection H as <-;
      destruct Hp].
  rewrite draw_unfold in H by exact Hr.
  destruct (opened idx) eqn:Eo.
  - destruct (collect _) as [r|] eqn:Er; [|discriminate].
    injection H as <-. right. apply (collect_In _ _ _ _ Er).
    destruct Hp as [Hp|Hp].
    + injection Hp as <- <-.
      assert (Hk : In j (filter (fun i => task_parent (task_at ts i) =? idx)
                           (indices ts))) by now apply in_kids.
      destruct (collect_all _ _ _ j Er Hk) as (a & Ha).
      exists j, a. split; [exact Hk|]. split; [exact Ha|].
      now apply (draw_head f j (depth + 1)).
    + apply (collect_In _ _ _ _ Er) in Hp.
      destruct Hp as (i & a & Hi & Ha & Hp).
      exists i, a. split; [exact Hi|]. split; [exact Ha|].
      now apply (IH i (depth + 1) a Ha p dp).
  - injection H as <-. destruct Hp as [Hp|[]].
    injection Hp as <- <-. congruence.
Qed.

(** *** The whole list *)

Lemma draw_task_list_loop (f : nat) :
  draw_task_list f ts opened
  = collect
      (map (fun i => drawTasksRecursive f ts opened i 0)
         (filter (fun i => task_parent (task_at ts i) =? -1) (indices ts))).
Proof. unfold draw_task_list. now destruct ts. Qed.

Lemma root_distance_of_root (i : Z) :
  in_vector ts i -> task_parent (task_at ts i) = -1 ->
  root_distance (List.length ts) ts i = Some O.
Proof.
  intros Hi Hp. apply (root_distance_bound 1).
  now apply root_distance_root.
Qed.

Lemma list_returns :
  exists l, draw_task_list (List.length ts) ts opened = Some l.
Proof.
  rewrite draw_task_list_loop. apply collect_returns.
  intros i Hi. apply in_kids in Hi. destruct Hi as (Hi & Hp).
  apply (draw_returns _ i 0 O); [|lia]. now apply root_distance_of_root.
Qed.

Lemma list_depths (f : nat) (l : list (Z * Z)) :
  draw_task_list f ts opened = Some l ->
  forall j dj, In (j, dj) l ->
    exists e, dj = Z.of_nat e
              /\ root_distance (List.length ts) ts j = Some e.
Proof.
  rewrite draw_task_list_loop. intros H j dj Hj.
  apply (collect_In _ _ _ _ H) in Hj.
  destruct Hj as (i & a & Hi & Ha & Hj).
  apply in_kids in Hi. destruct Hi as (Hi & Hp).
  apply (draw_depths f i O a Ha); [|exact Hj].
  now apply root_distance_of_root.
Qed.

Lemma list_NoDup (f : nat) (l : list (Z * Z)) :
  draw_task_list f ts opened = Some l -> NoDup (map fst l).
Proof.
  intros H. apply NoDup_map_NoDup_ForallPairs.
  - intros [j dj] [j' dj'] Hx Hy E. cbn [fst] in E. subst j'.
    destruct (list_depths f l H _ _ Hx) as (e & -> & He).
    destruct (list_depths f l H _ _ Hy) as (e' & -> & He').
    congruence.
  - rewrite draw_task_list_loop in H.
    refine (collect_NoDup _ _ _ (NoDup_kids (-1)) _ _ H).
    + intros i a _ Ha. now apply (draw_NoDup f i 0).
    + intros i i' a b [j dj] _ _ Ha Hb Hxa Hxb.
      destruct (draw_under _ _ _ _ Ha _ _ Hxa) as (k & Hk & <-).
      destruct (draw_under _ _ _ _ Hb _ _ Hxb) as (k' & Hk' & <-).
      replace k' with k by lia. reflexivity.
Qed.

Lemma list_kids (f : nat) (l : list (Z * Z)) :
  draw_task_list f ts opened = Some l ->
  forall p dp, In (p, dp) l -> opened p = true ->
  forall j, in_vector ts j -> task_parent (task_at ts j) = p ->
    In (j, dp + 1) l.
Proof.
  rewrite draw_task_list_loop. intros H p dp Hp Ho j Hj Hjp.
  apply (collect_In _ _ _ _ H) in Hp.
  destruct Hp as (i & a & Hi & Ha & Hp).
  apply (collect_In _ _ _ _ H). exists i, a.
  split; [exact Hi|]. split; [exact Ha|].
  now apply (draw_kids f i 0 a Ha p dp).
Qed.

Lemma list_complete (f : nat) (l : list (Z * Z)) :
  (forall i, opened i = true) ->
  draw_task_list f ts opened = Some l ->
  forall d j, root_distance (List.length ts) ts j = Some d ->
    In (j, Z.of_nat d) l.
Proof.
  intros Ho H. induction d as [|d IH]; intros j Hd.
  - pose proof (root_distance_in_vector _ _ _ Hd) as Hj.
    destruct (List.length ts) eqn:En; [discriminate|].
    apply root_distance_inv in Hd.
    destruct Hd as (_ & [(Hp & _)|(_ & d' & Hd & _)]); [|discriminate].
    rewrite draw_task_list_loop in H.
    assert (Hk : In j (filter (fun i => task_parent (task_at ts i) =? -1)
                         (indices ts))) by now apply in_kids.
    destruct (collect_all _ _ _ j H Hk) as (a & Ha).
    apply (collect_In _ _ _ _ H). exists j, a.
    split; [exact Hk|]. split; [exact Ha|].
    now apply (draw_head f j 0).
  - pose proof (root_distance_in_vector _ _ _ Hd) as Hj.
    pose proof Hd as Hd0.
    destruct (List.length ts) eqn:En in Hd; [discriminate|].
    apply root_distance_inv in Hd.
    destruct Hd as (_ & [(_ & Hd)|(_ & d' & Hd & Hp)]); [discriminate|].
    injection Hd as <-. apply root_distance_bound in Hp.
    replace (Z.of_nat (S d)) with (Z.of_nat d + 1) by lia.
    apply (list_kids f l H (task_parent (task_at ts j)));
      [now apply IH|apply Ho|exact Hj|reflexivity].
Qed.

Lemma reaches_root_distance (k : nat) (p : Z) :
  reaches_root k ts p = true ->
  p = -1 \/ exists d, root_distance k ts p = Some d.
Proof.
  revert p. induction k as [|k IH]; intros p H.
  - cbn [reaches_root] in H. destruct (p =? -1) eqn:E; [lia|discriminate].
  - cbn [reaches_root] in H. destruct (p =? -1) eqn:E; [lia|]. right.
    apply andb_prop in H. destruct H as (Hr & H).
    assert (Hp : in_vector ts p) by (unfold in_vector; lia).
    destruct (IH _ H) as [Hq|(d & Hd)].
    + exists O. now apply root_distance_root.
    + exists (S d). apply root_distance_child; [exact Hp| |exact Hd].
      intros Hq. change (nth (Z.to_nat p) ts (mkTask [] (-1) false))
        with (task_at ts p) in Hd. rewrite Hq in Hd.
      destruct k; [discriminate|]. apply root_distance_inv in Hd.
      unfold in_vector in Hd. lia.
Qed.

Lemma forest_distance (j : Z) :
  is_forest ts = true -> in_vector ts j ->
  exists d, root_distance (List.length ts) ts j = Some d.
Proof.
  intros Hf Hj. unfold is_forest in Hf. rewrite forallb_forall in Hf.
  assert (Hin : In (task_at ts j) ts)
    by (apply nth_In; unfold in_vector in Hj; lia).
  destruct (reaches_root_distance _ _ (Hf _ Hin)) as [Hp|(d & Hd)].
  - exists O. now apply root_distance_of_root.
  - exists (S d). now apply (root_distance_kid j (task_parent (task_at ts j))).
Qed.

End TreeView.

(** X21: drawing the task list returns for every task vector and every
    state of the tree nodes, also when the parent indices (of a file edited
    by hand) form a cycle or point outside the vector: the recursion of
    [drawTasksRecursive] is never deeper than the number of tasks.  No task
    is drawn twice, and a task is drawn only if its chain of parents ends at
    a task without a parent, at the depth that is the length of this chain:
    a task on a cycle of parents, or below a parent that does not exist, is
    never shown. *)
Theorem task_list_is_drawn (ts : list Task) (opened : Z -> bool) :
  exists l,
    draw_task_list (List.length ts) ts opened = Some l
    /\ NoDup (map fst l)
    /\ forall j dj, In (j, dj) l ->
         0 <= j < Z.of_nat (List.length ts)
         /\ exists d, dj = Z.of_nat d
                      /\ root_distance (List.length ts) ts j = Some d.
Proof.
  destruct (list_returns ts opened) as (l & H). exists l.
  split; [exact H|]. split; [exact (list_NoDup ts opened _ l H)|].
  intros j dj Hj.
  destruct (list_depths ts opened _ l H j dj Hj) as (d & Hd & Hr).
  split; [now apply (root_distance_in_vector ts _ _ _ Hr)|now exists d].
Qed.

(** X22: when the parent indices form a forest and every tree node is
    expanded, the task list shows every task of the vector, each once, at
    the depth of its distance from the root of its tree. *)
Theorem expanded_forest_shows_every_task (ts : list Task)
    (opened : Z -> bool) (l : list (Z * Z)) :
  is_forest ts = true ->
  (forall i, opened i = true) ->
  draw_task_list (List.length ts) ts opened = Some l ->
  NoDup (map fst l)
  /\ forall j, 0 <= j < Z.of_nat (List.length ts) ->
       exists d, root_distance (List.length ts) ts j = Some d
                 /\ In (j, Z.of_nat d) l.
Proof.
  intros Hf Ho H. split; [exact (list_NoDup ts opened _ l H)|].
  intros j Hj. destruct (forest_distance ts j Hf Hj) as (d & Hd).
  exists d. split; [exact Hd|].
  exact (list_complete ts opened _ l Ho H d j Hd).
Qed.

Lemma expanded_forest_shows_every_task_witness :
  NoDup (map fst [(0, 0); (2, 1); (3, 2); (1, 0)])
  /\ forall j, 0 <= j < 4 ->
       exists d,
         root_distance 4
           [mkTask (lit "a") (-1) false; mkTask (lit "b") (-1) true;
            mkTask (lit "c") 0 false; mkTask (lit "d") 2 false] j = Some d
         /\ In (j, Z.of_nat d) [(0, 0); (2, 1); (3, 2); (1, 0)].
Proof.
  apply (expanded_forest_shows_every_task
           [mkTask (lit "a") (-1) false; mkTask (lit "b") (-1) true;
            mkTask (lit "c") 0 false; mkTask (lit "d") 2 false]
           (fun _ => true)).
  - reflexivity.
  - reflexivity.
  - reflexivity.
Defined.
